(** * Line-targeted source patchers of obsidian-sonigraph

    A shallow embedding of [fix-case-blocks.py] and [fix-no-explicit-any.py],
    and the properties of the block patcher and of the blank-line cleanup.

    Conventions of the embedding.
    - A Python [str] is a [string]; one [ascii] stands for one code point
      below 256, classified as CPython classifies it ([str.isspace], regex
      [\s] and [\w] on [str] patterns).
    - A Python [int] is a [Z]; a list index that the code has already shown
      to be non-negative is a [nat].
    - An uncaught exception is the [Raised] outcome.
    - The file system is a finite map from paths to decoded text; every
      [open], [write] and [print] is recorded in a trace. *)

From Stdlib Require Import ZArith Ascii String Lia Sorted.
From stdpp Require Import base strings list gmap sets sorting.

Local Open Scope Z_scope.

(* stdpp keeps [simpl] from unfolding string concatenation; the proofs below
   compute with it. *)
Local Arguments String.append !s1 s2 / : simpl nomatch.

(** ** Python runtime: characters, [str] methods, list operations *)
Module Py.

Definition nl : string := String "010" EmptyString.

(** [str.isspace] on one character, which is also the regex class [\s]. *)
Definition is_space (c : ascii) : bool :=
  match N_of_ascii c with
  | 9 | 10 | 11 | 12 | 13 | 28 | 29 | 30 | 31 | 32 | 133 | 160 => true
  | _ => false
  end%N.

(** The regex class [\w] on [str] patterns: alphanumeric or underscore. *)
Definition is_word (c : ascii) : bool :=
  let n := N_of_ascii c in
  (((48 <=? n) && (n <=? 57)) || ((65 <=? n) && (n <=? 90))
   || ((97 <=? n) && (n <=? 122)) || (n =? 95)
   || (n =? 170) || (n =? 178) || (n =? 179) || (n =? 181)
   || (n =? 185) || (n =? 186) || ((188 <=? n) && (n <=? 190))
   || ((192 <=? n) && (n <=? 214)) || ((216 <=? n) && (n <=? 246))
   || (248 <=? n))%N.

(** [s.lstrip()] *)
Fixpoint lstrip (s : string) : string :=
  match s with
  | EmptyString => EmptyString
  | String c s' => if is_space c then lstrip s' else s
  end.

(** [s.rstrip()] *)
Fixpoint rstrip (s : string) : string :=
  match s with
  | EmptyString => EmptyString
  | String c s' =>
      match rstrip s' with
      | EmptyString => if is_space c then EmptyString else String c EmptyString
      | r => String c r
      end
  end.

(** [s.strip()] *)
Definition strip (s : string) : string := rstrip (lstrip s).

(** [s.rstrip(';')]: every trailing occurrence of the character goes. *)
Fixpoint rstrip_char (x : ascii) (s : string) : string :=
  match s with
  | EmptyString => EmptyString
  | String c s' =>
      match rstrip_char x s' with
      | EmptyString => if Ascii.eqb c x then EmptyString else String c EmptyString
      | r => String c r
      end
  end.

(** [s.startswith(p)] *)
Fixpoint startswith (s p : string) : bool :=
  match p, s with
  | EmptyString, _ => true
  | String a p', String b s' => Ascii.eqb a b && startswith s' p'
  | String _ _, EmptyString => false
  end.

(** [s[len(p):]] when [s.startswith(p)] *)
Fixpoint after_prefix (p s : string) : option string :=
  match p, s with
  | EmptyString, _ => Some s
  | String a p', String b s' => if Ascii.eqb a b then after_prefix p' s' else None
  | String _ _, EmptyString => None
  end.

(** [s.endswith(c)] for a one-character suffix *)
Fixpoint endswith_char (s : string) (x : ascii) : bool :=
  match s with
  | EmptyString => false
  | String c EmptyString => Ascii.eqb c x
  | String _ s' => endswith_char s' x
  end.

(** [s[:-1]] *)
Fixpoint drop_last (s : string) : string :=
  match s with
  | EmptyString => EmptyString
  | String _ EmptyString => EmptyString
  | String c s' => String c (drop_last s')
  end.

(** [x in s] for a single character [x] *)
Fixpoint contains_char (x : ascii) (s : string) : bool :=
  match s with
  | EmptyString => false
  | String c s' => Ascii.eqb c x || contains_char x s'
  end.

(** [p in s] for a substring [p] *)
Fixpoint contains (p s : string) : bool :=
  startswith s p ||
  match s with
  | EmptyString => false
  | String _ s' => contains p s'
  end.

(** [all(f(c) for c in s)] *)
Fixpoint all_chars (f : ascii -> bool) (s : string) : bool :=
  match s with
  | EmptyString => true
  | String c s' => f c && all_chars f s'
  end.

(** [' ' * n] *)
Fixpoint spaces (n : nat) : string :=
  match n with
  | O => EmptyString
  | S k => String " " (spaces k)
  end.

(** [''.join(parts)], what [f.writelines(parts)] puts in the file *)
Definition join (parts : list string) : string :=
  foldr String.append EmptyString parts.

(** The regex assertion [\b] between a previous and a next character,
    either of which is absent at the ends of the string. *)
Definition word_char (o : option ascii) : bool :=
  match o with Some c => is_word c | None => false end.

Definition head_char (s : string) : option ascii :=
  match s with EmptyString => None | String c _ => Some c end.

Definition boundary (prev : option ascii) (rest : string) : bool :=
  xorb (word_char prev) (word_char (head_char rest)).

(** The last character of a literal, the one before what follows it. *)
Fixpoint last_char (prev : option ascii) (s : string) : option ascii :=
  match s with
  | EmptyString => prev
  | String c s' => last_char (Some c) s'
  end.

(** [lines[i]] with Python's negative indices; [None] is [IndexError]. *)
Definition index {A} (l : list A) (i : Z) : option nat :=
  let n := Z.of_nat (length l) in
  if (0 <=? i) && (i <? n) then Some (Z.to_nat i)
  else if (- n <=? i) && (i <? 0) then Some (Z.to_nat (n + i))
  else None.

Definition getitem {A} (l : list A) (i : Z) : option A :=
  match index l i with
  | Some k => l !! k
  | None => None
  end.

(** [if l:] on a list *)
Definition nonempty {A} (l : list A) : bool :=
  match l with [] => false | _ :: _ => true end.

(** [l[i] = x] with Python's negative indices *)
Definition setitem {A} (l : list A) (i : Z) (x : A) : option (list A) :=
  match index l i with
  | Some k => Some (<[k := x]> l)
  | None => None
  end.

(** [l.insert(i, x)] for [0 <= i]: past the end it appends. *)
Definition insert_at {A} (i : nat) (x : A) (l : list A) : list A :=
  take i l ++ x :: drop i l.

(** [sorted(l)] on integers *)
Fixpoint insert_sorted (x : Z) (l : list Z) : list Z :=
  match l with
  | [] => [x]
  | y :: l' => if x <=? y then x :: l else y :: insert_sorted x l'
  end.

Definition sorted (l : list Z) : list Z := foldr insert_sorted [] l.

(** [f.readlines()] in text mode with universal newlines: [\r\n] and a lone
    [\r] read as [\n], and every line keeps its terminator. *)
Fixpoint translate_newlines (s : string) : string :=
  match s with
  | EmptyString => EmptyString
  | String c s' =>
      if Ascii.eqb c "013" then
        match s' with
        | String d s'' =>
            if Ascii.eqb d "010" then String "010" (translate_newlines s'')
            else String "010" (translate_newlines s')
        | EmptyString => String "010" EmptyString
        end
      else String c (translate_newlines s')
  end.

Fixpoint split_lines (s : string) : list string :=
  match s with
  | EmptyString => []
  | String c s' =>
      if Ascii.eqb c "010" then nl :: split_lines s'
      else
        match split_lines s' with
        | [] => [String c EmptyString]
        | l :: ls => String c l :: ls
        end
  end.

Definition readlines (text : string) : list string :=
  split_lines (translate_newlines text).

(** A character that ends no line. *)
Definition not_newline (c : ascii) : bool :=
  negb (Ascii.eqb c "010") && negb (Ascii.eqb c "013").

(** A line as [readlines] gives it when it is not cut short by the end of
    the file: characters that end no line, then one newline. *)
Fixpoint terminated (line : string) : bool :=
  match line with
  | EmptyString => false
  | String c rest =>
      match rest with
      | EmptyString => Ascii.eqb c "010"
      | String _ _ => not_newline c && terminated rest
      end
  end.

(** A text that is empty or ends with a line terminator. *)
Definition ends_with_newline (text : string) : bool :=
  match text with
  | EmptyString => true
  | String _ _ => endswith_char text "010" || endswith_char text "013"
  end.

End Py.

(** ** The fragment of Python's [re] that the scripts use

    A backtracking matcher in continuation style: [matchk r k prev s] matches
    [r] at the front of [s], where [prev] is the character before [s], and
    hands the position after the match to [k]; alternatives are tried in the
    order of the [re] module (greedy repetition first), so the first success
    is the match Python reports. *)
Module Re.
Import Py.

Inductive re : Type :=
  | Eps
  | Chr (c : ascii)
  | Bnd                          (* \b *)
  | Eol                          (* $ without MULTILINE *)
  | Star (f : ascii -> bool)     (* f* for a character class f *)
  | Plus (f : ascii -> bool)     (* f+ *)
  | Opt (r : re)                 (* r? *)
  | Cat (r1 r2 : re)
  | Alt (r1 r2 : re).

Section Matcher.
Context {A : Type}.

Definition orelse (x y : option A) : option A :=
  match x with Some a => Some a | None => y end.

Fixpoint star (f : ascii -> bool) (k : option ascii -> string -> option A)
    (prev : option ascii) (s : string) : option A :=
  match s with
  | String d s' =>
      if f d then orelse (star f k (Some d) s') (k prev s) else k prev s
  | EmptyString => k prev s
  end.

Fixpoint matchk (r : re) (k : option ascii -> string -> option A)
    (prev : option ascii) (s : string) : option A :=
  match r with
  | Eps => k prev s
  | Chr c =>
      match s with
      | String d s' => if Ascii.eqb c d then k (Some d) s' else None
      | EmptyString => None
      end
  | Bnd => if boundary prev s then k prev s else None
  | Eol =>
      if bool_decide (s = EmptyString) || bool_decide (s = nl)
      then k prev s else None
  | Star f => star f k prev s
  | Plus f =>
      match s with
      | String d s' => if f d then star f k (Some d) s' else None
      | EmptyString => None
      end
  | Opt r1 => orelse (matchk r1 k prev s) (k prev s)
  | Cat r1 r2 => matchk r1 (matchk r2 k) prev s
  | Alt r1 r2 => orelse (matchk r1 k prev s) (matchk r2 k prev s)
  end.

End Matcher.

(** Whether a pattern asks about the character before the position. *)
Fixpoint looks_behind (r : re) : bool :=
  match r with
  | Bnd => true
  | Opt r1 => looks_behind r1
  | Cat r1 r2 | Alt r1 r2 => looks_behind r1 || looks_behind r2
  | Eps | Chr _ | Eol | Star _ | Plus _ => false
  end.

(** A literal, as [re.escape] makes one. *)
Fixpoint lit (s : string) : re :=
  match s with
  | EmptyString => Eps
  | String c s' => Cat (Chr c) (lit s')
  end.

(** [re.match(r, s)]: the text after the match, when [r] matches at the
    start of [s]. *)
Definition re_match (r : re) (s : string) : option string :=
  matchk r (fun _ rest => Some rest) None s.

(** [re.search(r, s)]: the leftmost match, as the text before it and the
    text after it. *)
Fixpoint search_from (r : re) (before : string -> string)
    (prev : option ascii) (s : string) : option (string * string) :=
  match matchk r (fun _ rest => Some rest) prev s with
  | Some rest => Some (before EmptyString, rest)
  | None =>
      match s with
      | EmptyString => None
      | String c s' => search_from r (fun x => before (String c x)) (Some c) s'
      end
  end.

Definition re_search (r : re) (s : string) : option (string * string) :=
  search_from r (fun x => x) None s.

(** Whether a search that starts after the character [prev] finds a match. *)
Definition hit (r : re) (prev : option ascii) (s : string) : bool :=
  bool_decide (is_Some (search_from r (fun x => x) prev s)).

End Re.

(** ** Files, console and exceptions *)
Module Io.

(** What a script prints, one constructor per [print] call. *)
Inductive message : Type :=
  | FileNotFound (file_path : string)
      (* print(f"... File not found: {file_path}") *)
  | CaseBlocksWrapped (path : string) (n : nat)
      (* print(f"... {path} - {len(changes)} case blocks wrapped:") *)
  | CaseAtLine (case_line declaration_line : Z)
      (* print(f"   Case at line {..} (declaration at {..})") *)
  | AndMore (n : nat)
      (* print(f"   ... and {len(changes) - 3} more") *)
  | Banner (text : string)
      (* the fixed header and footer lines of main *)
  | TotalCaseBlocks (total : Z)
      (* print(f"... Total case blocks fixed: {total_changes}") *)
  | FileChanges (path : string) (changes : Z)
      (* print(f"... {path} - {changes} changes") *)
  | TotalChanges (total : Z).
      (* print(f"... Total changes: {total_changes}") *)

Inductive event : Type :=
  | EvRead (path : string)                    (* open(path, 'r') and readlines *)
  | EvWrite (path : string) (text : string)   (* open(path, 'w') and writelines *)
  | EvPrint (m : message).

Record world : Type := World {
  files : gmap string string;
  trace : list event
}.

(** The exceptions that the scripts' own steps raise.  The world above
    holds the files that exist and read as text: a path on which [open],
    [readlines] or [writelines] would fail (a directory, a file without
    permission, bytes that are no UTF-8) is not in it, and what is said of a
    call is said of a run whose reads and writes succeed. *)
Inductive exn : Type :=
  | IndexError     (* a list index out of range *)
  | ReError.       (* re.error, from a malformed replacement template *)

(** A call either returns a value or dies with an uncaught exception; both
    leave a world behind. *)
Inductive outcome (A : Type) : Type :=
  | Returned (a : A) (w : world)
  | Raised (e : exn) (w : world).
Arguments Returned {A} a w.
Arguments Raised {A} e w.

(** The world a call leaves behind, and the value it returns if it does. *)
Definition world_of {A} (o : outcome A) : world :=
  match o with Returned _ w => w | Raised _ w => w end.

Definition value_of {A} (o : outcome A) : option A :=
  match o with Returned a _ => Some a | Raised _ _ => None end.

Definition emit (e : event) (w : world) : world :=
  World (files w) (trace w ++ [e]).

Definition print (m : message) (w : world) : world := emit (EvPrint m) w.

(** [with open(path, 'w') as f: f.writelines(lines)] *)
Definition write_lines (path : string) (lines : list string) (w : world) : world :=
  let text := Py.join lines in
  World (<[path := text]> (files w)) (trace w ++ [EvWrite path text]).

(** The writes among some events: path and text, in order. *)
Definition writes_of (events : list event) : list (string * string) :=
  omap (fun e => match e with EvWrite p t => Some (p, t) | _ => None end) events.

End Io.

(** ** fix-case-blocks.py *)
Module CaseBlocks.
Import Py Re Io.

(** The table of the script: files and the line numbers of the review. *)
Definition affected_files : list (string * list Z) :=
  [ ("src/audio/engine.ts",
      [3754; 3755; 3756; 5551; 5557; 5563; 5572; 5649; 5655; 5661; 5662;
       5687; 5697; 5704]);
    ("src/audio/mapping/ContentAwareMapper.ts", [361; 362; 503; 607]);
    ("src/audio/mapping/FileTypeAnalyzer.ts", [292; 293; 296]);
    ("src/audio/mapping/NoteCentricMapper.ts",
      [355; 362; 368; 375; 381; 386; 1390]) ].

(** [r'\b(const|let|var)\b'] *)
Definition decl_re : re :=
  Cat Bnd (Cat (Alt (lit "const") (Alt (lit "let") (lit "var"))) Bnd).

(** [r'\s*case\s+'] *)
Definition case_re : re :=
  Cat (Star is_space) (Cat (lit "case") (Plus is_space)).

(** [r'\s*(case\s+|default\s*:|})'] *)
Definition boundary_re : re :=
  Cat (Star is_space)
    (Alt (Cat (lit "case") (Plus is_space))
      (Alt (Cat (lit "default") (Cat (Star is_space) (Chr ":")))
        (Chr "}"))).

(** [r'\b(break|return)\s*;?\s*$'] *)
Definition exit_re : re :=
  Cat Bnd
    (Cat (Alt (lit "break") (lit "return"))
      (Cat (Star is_space) (Cat (Opt (Chr ";")) (Cat (Star is_space) Eol)))).

Definition matches (r : re) (s : string) : bool :=
  bool_decide (is_Some (re_match r s)).

Definition found (r : re) (s : string) : bool :=
  bool_decide (is_Some (re_search r s)).

(** [len(s) - len(s.lstrip())] *)
Definition indent_of (s : string) : nat :=
  String.length s - String.length (lstrip s).

(** One entry of [changes]. *)
Record change : Type := Change {
  case_line : Z;
  declaration_line : Z;
  end_line : Z
}.

(** The variables of the loop over the target lines. *)
Record state : Type := State {
  lines : list string;
  changes : list change;
  modified_lines : gset Z
}.

(** The backward loop
    [[
      case_idx = line_idx - 1
      while case_idx >= 0:
          if re.match(r'\s*case\s+', lines[case_idx]): break
          case_idx -= 1
    ]]
    run from [case_idx = n - 1]; [None] stands for a final [case_idx < 0].
    The indices it reads are below [line_idx], so within the list. *)
Fixpoint find_case (lines : list string) (n : nat) : option nat :=
  match n with
  | O => None
  | S case_idx =>
      if matches case_re (lines !!! case_idx) then Some case_idx
      else find_case lines case_idx
  end.

(** The forward loop [while end_idx < len(lines)], over the lines from
    [end_idx] on; it yields the final [end_idx]. *)
Fixpoint find_end (indent_level : nat) (rest : list string) (end_idx : nat) : nat :=
  match rest with
  | [] => end_idx
  | next_line :: rest' =>
      let next_indent := indent_of next_line in
      if bool_decide (next_indent <= indent_level)%nat
         && matches boundary_re next_line
      then end_idx
      else if found exit_re next_line then (end_idx + 1)%nat
      else find_end indent_level rest' (end_idx + 1)%nat
  end.

(** The numbers [i + 1] for [i] in [range(case_idx, end_idx + 2)]. *)
Definition marked (case_idx end_idx : nat) : gset Z :=
  list_to_set
    ((fun i : nat => Z.of_nat i + 1) <$> seq case_idx (end_idx + 2 - case_idx)).

(** The body of [for line_num in sorted(line_numbers)]; [continue] returns
    the state as it is, [None] is an [IndexError]. *)
Definition step (st : state) (line_num : Z) : option state :=
  let lines := lines st in
  if bool_decide (line_num > Z.of_nat (length lines))
     || bool_decide (line_num ∈ modified_lines st)
  then Some st
  else
    let line_idx := line_num - 1 in
    match getitem lines line_idx with
    | None => None
    | Some line =>
        if negb (found decl_re line) then Some st
        else
          (* a negative [line_idx] leaves [case_idx] negative at once *)
          match find_case lines (Z.to_nat line_idx) with
          | None => Some st
          | Some case_idx =>
              let case_line := lines !!! case_idx in
              if contains_char "{" case_line
                 || (bool_decide (case_idx + 1 < length lines)%nat
                     && contains_char "{" (lines !!! (case_idx + 1)%nat))
              then Some st
              else
                let end_idx0 := Z.to_nat (line_idx + 1) in
                let indent_level := indent_of (lines !!! case_idx) in
                let end_idx := find_end indent_level (drop end_idx0 lines) end_idx0 in
                let case_line_stripped := rstrip case_line in
                let lines1 :=
                  if endswith_char case_line_stripped ":"
                  then <[case_idx := case_line_stripped +:+ " {" +:+ nl]> lines
                  else <[case_idx := case_line_stripped +:+ " {" +:+ nl]> lines in
                let end_line_indent := spaces (indent_level + 4) in
                let lines2 := insert_at end_idx (end_line_indent +:+ "}" +:+ nl) lines1 in
                Some (State lines2
                        (changes st ++
                           [Change (Z.of_nat case_idx + 1) line_num (Z.of_nat end_idx + 1)])
                        (modified_lines st ∪ marked case_idx end_idx))
          end
    end.

(** The whole loop, from a given state. *)
Fixpoint run (st : state) (line_numbers : list Z) : option state :=
  match line_numbers with
  | [] => Some st
  | line_num :: more =>
      match step st line_num with
      | Some st' => run st' more
      | None => None
      end
  end.

(** The loop of [fix_case_block] on the lines read from the file. *)
Definition patch (file_lines : list string) (line_numbers : list Z) : option state :=
  run (State file_lines [] ∅) (sorted line_numbers).

(** [for change in changes[:3]: print(...)] *)
Definition report_changes (cs : list change) (w : world) : world :=
  foldl (fun w c => print (CaseAtLine (case_line c) (declaration_line c)) w)
    w (take 3 cs).

(** [fix_case_block(file_path, line_numbers)]: the file is read, the loop is
    run on its lines, and the lines are written back if a change was made. *)
Definition fix_case_block (file_path : string) (line_numbers : list Z)
    (w : world) : outcome Z :=
  match files w !! file_path with
  | None => (* not path.exists() *)
      Returned 0 (print (FileNotFound file_path) w)
  | Some text =>
      let w := emit (EvRead file_path) w in
      match patch (readlines text) line_numbers with
      | None => Raised IndexError w
      | Some st =>
          let n := length (changes st) in
          let w :=
            if nonempty (changes st) then
              let w := write_lines file_path (lines st) w in
              let w := print (CaseBlocksWrapped file_path n) w in
              let w := report_changes (changes st) w in
              if bool_decide (3 < n)%nat then print (AndMore (n - 3)) w else w
            else w in
          Returned (Z.of_nat n) w
      end
  end.

(** [for file_path, line_numbers in affected_files.items()] with its
    running total. *)
Fixpoint fix_all (table : list (string * list Z)) (total_changes : Z)
    (w : world) : outcome Z :=
  match table with
  | [] => Returned total_changes w
  | (file_path, line_numbers) :: more =>
      match fix_case_block file_path line_numbers w with
      | Returned changes w' => fix_all more (total_changes + changes) w'
      | Raised e w' => Raised e w'
      end
  end.

(** [main()] *)
Definition main (w : world) : outcome unit :=
  let w := print (Banner "Fixing case block lexical declarations") w in
  let w := print (Banner "   Wrapping case bodies in braces where needed") w in
  let w := print (Banner "") w in
  match fix_all affected_files 0 w with
  | Returned total_changes w => Returned tt (print (TotalCaseBlocks total_changes) w)
  | Raised e w => Raised e w
  end.

(** *** Vocabulary for the properties of the loop *)

(** The anchor line rewritten, and the closing line that is inserted. *)
Definition opened (case_line : string) : string :=
  rstrip case_line +:+ " {" +:+ nl.

Definition closer (indent_level : nat) : string :=
  spaces (indent_level + 4) +:+ "}" +:+ nl.

(** What [re.match(r'\s*case\s+', line)] decides, said directly: after the
    leading whitespace comes [case] and then a whitespace character. *)
Definition is_case_label (line : string) : bool :=
  match after_prefix "case" (lstrip line) with
  | Some (String c _) => is_space c
  | _ => false
  end.

(** What [re.search(r'\b(const|let|var)\b', line)] decides, said directly:
    at some position there is a word boundary, then one of the keywords,
    then a word boundary. *)
Definition keyword_at (prev : option ascii) (kw s : string) : bool :=
  match after_prefix kw s with
  | Some rest => boundary (last_char prev kw) rest
  | None => false
  end.

Definition declaration_at (prev : option ascii) (s : string) : bool :=
  boundary prev s
  && (keyword_at prev "const" s || keyword_at prev "let" s
      || keyword_at prev "var" s).

Fixpoint declaration_in (prev : option ascii) (s : string) : bool :=
  declaration_at prev s
  || match s with
     | EmptyString => false
     | String c s' => declaration_in (Some c) s'
     end.

(** The brace test on the anchor line and on the line after it. *)
Definition braced (ls : list string) (case_idx : nat) : bool :=
  contains_char "{" (ls !!! case_idx)
  || (bool_decide (case_idx + 1 < length ls)%nat
      && contains_char "{" (ls !!! (case_idx + 1)%nat)).

(** The boundary index computed for a target line and its anchor. *)
Definition extent_of (ls : list string) (line_num : Z) (case_idx : nat) : nat :=
  find_end (indent_of (ls !!! case_idx))
    (drop (Z.to_nat line_num) ls) (Z.to_nat line_num).

(** The block an iteration patches, as the indices of its anchor and of its
    boundary, when the iteration patches one. *)
Definition block_of (st : state) (line_num : Z) : option (nat * nat) :=
  let ls := lines st in
  if bool_decide (1 <= line_num <= Z.of_nat (length ls))
     && negb (bool_decide (line_num ∈ modified_lines st))
  then
    match ls !! Z.to_nat (line_num - 1) with
    | Some line =>
        if found decl_re line then
          match find_case ls (Z.to_nat (line_num - 1)) with
          | Some case_idx =>
              if braced ls case_idx then None
              else Some (case_idx, extent_of ls line_num case_idx)
          | None => None
          end
        else None
    | None => None
    end
  else None.

(** The lines after the patch of the block [case_idx], [end_idx]. *)
Definition patch_at (ls : list string) (case_idx end_idx : nat) : list string :=
  insert_at end_idx (closer (indent_of (ls !!! case_idx)))
    (<[case_idx := opened (ls !!! case_idx)]> ls).

(** The state after that patch, made for the target [line_num]. *)
Definition patched (st : state) (line_num : Z) (case_idx end_idx : nat) : state :=
  State (patch_at (lines st) case_idx end_idx)
    (changes st ++
       [Change (Z.of_nat case_idx + 1) line_num (Z.of_nat end_idx + 1)])
    (modified_lines st ∪ marked case_idx end_idx).

(** The modified-line set alone keeps a target from being patched: the
    target is in the set, and without the set its block would be patched. *)
Definition hidden (st : state) (line_num : Z) : bool :=
  bool_decide (line_num ∈ modified_lines st)
  && bool_decide
       (is_Some (block_of (State (lines st) (changes st) ∅) line_num)).

(** No target of the run is hidden when its turn comes. *)
Fixpoint nothing_hidden (st : state) (line_numbers : list Z) : bool :=
  match line_numbers with
  | [] => true
  | line_num :: more =>
      negb (hidden st line_num)
      && match step st line_num with
         | Some st' => nothing_hidden st' more
         | None => true
         end
  end.

(** A line and what a run can make of it: an anchor gets its brace. *)
Inductive evolved : string -> string -> Prop :=
  | evolved_same x : evolved x x
  | evolved_opened x y :
      evolved x y -> is_case_label y = true -> evolved x (opened y).

(** The first [m] lines of [ls], each at its place in [ls']. *)
Definition prefix_evolved (m : nat) (ls ls' : list string) : Prop :=
  (length ls <= length ls')%nat /\
  forall j, (j < m)%nat -> (j < length ls)%nat -> evolved (ls !!! j) (ls' !!! j).

(** A target on which the loop, started afresh on [ls], changes nothing. *)
Definition quiet (ls : list string) (line_num : Z) : Prop :=
  step (State ls [] ∅) line_num = Some (State ls [] ∅).

(** The targets on which an iteration dies with [IndexError]. *)
Definition raises (st : state) (line_num : Z) : bool :=
  bool_decide (line_num < 1 - Z.of_nat (length (lines st)))
  && negb (bool_decide (line_num ∈ modified_lines st)).

(** The events of one call of [fix_case_block] on a file that exists. *)
Definition events_of (file_path : string) (st : state) : list event :=
  let n := length (changes st) in
  EvRead file_path ::
  (if nonempty (changes st) then
     EvWrite file_path (join (lines st)) ::
     EvPrint (CaseBlocksWrapped file_path n) ::
     ((fun c => EvPrint (CaseAtLine (case_line c) (declaration_line c)))
        <$> take 3 (changes st)) ++
     (if bool_decide (3 < n)%nat then [EvPrint (AndMore (n - 3))] else [])
   else []).

End CaseBlocks.

(** ** fix-no-explicit-any.py *)
Module NoExplicitAny.
Import Py Re Io.

(** The table of the script: per file, the line of each disable comment with
    the type to replace and its replacement. *)
Definition fixes : list (string * list (Z * (string * string))) :=
  [
    ("src/audio/engine.ts",
     [
      (67, ("any", "ToneAudioNode")); (172, ("any[]", "ToneAudioNode[]"));
      (177, ("any", "new (...args: unknown[]) => ToneAudioNode"));
      (194, ("any[]", "ToneAudioNode[]")); (202, ("any", "ToneAudioNode"));
      (207, ("any", "new (...args: unknown[]) => ToneAudioNode"));
      (227, ("any", "ToneAudioNode"));
      (235, ("any", "new (...args: unknown[]) => ToneAudioNode"));
      (240, ("any", "ToneAudioNode")); (245, ("any", "ToneAudioNode"));
      (251, ("any", "ToneAudioNode")); (257, ("any", "ToneAudioNode"));
      (262, ("any", "ToneAudioNode")); (267, ("any", "ToneAudioNode"));
      (272, ("any", "ToneAudioNode")); (277, ("any", "ToneAudioNode"));
      (282, ("any", "ToneAudioNode")); (602, ("any", "unknown"));
      (859, ("any", "unknown")); (1351, ("any", "ToneAudioNode"));
      (5418, ("any", "unknown")); (5493, ("any", "unknown")) ]);
    ("src/audio/layers/MusicalGenreEngine.ts",
     [
      (68, ("any", "unknown")); (73, ("any", "unknown"));
      (75, ("any", "unknown")); (80, ("any", "unknown"));
      (314, ("any", "unknown")); (383, ("any", "unknown"));
      (467, ("any", "unknown")); (535, ("any", "unknown")) ]);
    ("src/graph/GraphRenderer.ts",
     [
      (1057, ("any", "unknown")); (1076, ("any", "unknown"));
      (1567, ("any", "unknown")); (1569, ("any", "unknown"));
      (1571, ("any", "unknown")); (1599, ("any", "unknown"));
      (1661, ("any", "unknown")); (1701, ("any", "unknown"));
      (2033, ("any", "unknown")); (2084, ("any", "unknown")) ]);
    ("src/graph/TemporalGraphAnimator.ts",
     [
      (646, ("any", "unknown")); (648, ("any", "unknown"));
      (650, ("any", "unknown")) ]);
    ("src/graph/musical-mapper.ts",
     [
      (612, ("any", "unknown")) ]);
    ("src/graph/types.ts",
     [
      (40, ("any", "Record<string, unknown>")); (123, ("any", "unknown"));
      (125, ("any", "unknown")); (127, ("any", "unknown")) ]);
    ("src/logging.ts",
     [
      (179, ("any", "Record<string, unknown>")) ]);
    ("src/main.ts",
     [
      (1002, ("any", "unknown")) ]);
    ("src/ui/GraphDemoModal.ts",
     [
      (27, ("any", "unknown")); (29, ("any", "unknown"));
      (151, ("any", "unknown")); (155, ("any", "unknown"));
      (195, ("any", "unknown")); (200, ("any", "unknown"));
      (211, ("any", "unknown")); (217, ("any", "unknown"));
      (222, ("any", "unknown")); (235, ("any", "unknown"));
      (237, ("any", "unknown")); (239, ("any", "unknown"));
      (241, ("any", "unknown")); (304, ("any", "unknown"));
      (338, ("any", "unknown")) ]);
    ("src/ui/LocalSoundscapeView.ts",
     [
      (55, ("any", "unknown")); (1217, ("any", "unknown"));
      (2854, ("any", "unknown")) ]);
    ("src/ui/SonicGraphView.ts",
     [
      (157, ("any", "unknown")); (230, ("any", "unknown"));
      (759, ("any", "unknown")); (4932, ("any", "unknown"));
      (4974, ("any", "unknown")); (5060, ("any", "unknown"));
      (5138, ("any", "unknown")); (5559, ("any", "unknown"));
      (5687, ("any", "unknown")); (6257, ("any", "unknown"));
      (6485, ("any", "unknown")); (6609, ("any", "unknown"));
      (6772, ("any", "unknown")); (6843, ("any", "unknown"));
      (7577, ("any", "unknown")); (7703, ("any", "unknown"));
      (7912, ("any", "unknown")); (8125, ("any", "unknown")) ]);
    ("src/ui/control-panel.ts",
     [
      (45, ("any", "unknown")); (49, ("any", "unknown"));
      (51, ("any", "unknown")); (66, ("any", "unknown"));
      (75, ("any", "unknown")); (80, ("any", "unknown"));
      (88, ("any", "unknown")); (1055, ("any", "unknown"));
      (1067, ("any", "unknown")); (1168, ("any", "unknown"));
      (2240, ("any", "unknown")); (2810, ("any", "unknown"));
      (2863, ("any", "unknown")); (3121, ("any", "unknown"));
      (3884, ("any", "unknown")) ]);
    ("src/ui/material-components.ts",
     [
      (18, ("any", "unknown")); (792, ("any", "unknown")) ]);
    ("src/visualization/SpectrumRenderer.ts",
     [
      (70, ("any", "unknown")) ])
  ].

Definition disable_comment : string :=
  "eslint-disable-next-line @typescript-eslint/no-explicit-any".

Definition dq : string := String "034" EmptyString.

Section FixFile.

(** The template compiler of [re.sub] for a replacement that holds a
    backslash: it fails with [re.error], or gives the expansion for a
    matched text. It belongs to the [re] module, not to the script; the
    replacements of [fixes] hold no backslash and never reach it. *)
Variable compile_template : string -> option (string -> string).

(** [re.sub(r'\b' + re.escape(old_type) + r'\b', new_type, line, count=1)];
    the template is compiled before the search. *)
Definition sub_type (old_type new_type line : string) : option string :=
  let filter :=
    if contains_char "\" new_type then compile_template new_type
    else Some (fun _ : string => new_type) in
  match filter with
  | None => None
  | Some expand =>
      match re_search (Cat Bnd (Cat (lit old_type) Bnd)) line with
      | None => Some line
      | Some (before, after) => Some (before +:+ expand old_type +:+ after)
      end
  end.

(** The variables of the loop over [line_map]. *)
Record state : Type := State {
  lines : list string;
  changes : Z;
  needs_tone_import : bool
}.

(** The body of [for comment_line, (old_type, new_type) in line_map.items()]. *)
Definition step (st : state) (entry : Z * (string * string)) : exn + state :=
  let '(comment_line, (old_type, new_type)) := entry in
  let ls := lines st in
  let n := Z.of_nat (length ls) in
  if bool_decide (comment_line > n) then inr st
  else
    let comment_idx := comment_line - 1 in
    let code_idx := comment_line in
    if negb (bool_decide (comment_idx < n)) then inr st
    else
      match getitem ls comment_idx with
      | None => inl IndexError
      | Some comment =>
          if negb (contains disable_comment comment) then inr st
          else
            match setitem ls comment_idx EmptyString with
            | None => inl IndexError
            | Some ls1 =>
                let changes1 := changes st + 1 in
                if negb (bool_decide (code_idx < Z.of_nat (length ls1)))
                then inr (State ls1 changes1 (needs_tone_import st))
                else
                  match getitem ls1 code_idx with
                  | None => inl IndexError
                  | Some original_line =>
                      match sub_type old_type new_type original_line with
                      | None => inl ReError
                      | Some modified_line =>
                          if bool_decide (modified_line <> original_line) then
                            match setitem ls1 code_idx modified_line with
                            | None => inl IndexError
                            | Some ls2 =>
                                inr (State ls2 (changes1 + 1)
                                       (if contains "ToneAudioNode" new_type
                                        then true else needs_tone_import st))
                            end
                          else inr (State ls1 changes1 (needs_tone_import st))
                      end
                  end
            end
      end.

Fixpoint run (st : state) (line_map : list (Z * (string * string))) : exn + state :=
  match line_map with
  | [] => inr st
  | entry :: more =>
      match step st entry with
      | inr st' => run st' more
      | inl e => inl e
      end
  end.

(** [for i, line in enumerate(lines[:50])], stopping at the first line that
    imports from tone: its index and whether it names ToneAudioNode. *)
Fixpoint find_tone_import (head : list string) (i : nat) : option (nat * bool) :=
  match head with
  | [] => None
  | line :: rest =>
      if contains "from 'tone'" line
         || contains ("from " +:+ dq +:+ "tone" +:+ dq) line
      then Some (i, contains "ToneAudioNode" line)
      else find_tone_import rest (S i)
  end.

(** [if needs_tone_import:], on the lines and the change count. *)
Definition add_tone_import (ls : list string) (changes : Z) : list string * Z :=
  match find_tone_import (take 50 ls) 0 with
  | Some (tone_import_idx, false) =>
      let import_line := ls !!! tone_import_idx in
      if startswith (strip import_line) "import {" then
        let modified := rstrip (rstrip_char ";" (rstrip import_line)) in
        if endswith_char modified "}" then
          let modified := drop_last modified +:+ ", ToneAudioNode }" in
          (<[tone_import_idx := modified +:+ ";" +:+ nl]> ls, changes + 1)
        else (ls, changes)
      else if contains "import *" import_line then
        (insert_at (tone_import_idx + 1)
           ("import { ToneAudioNode } from 'tone';" +:+ nl) ls,
         changes + 1)
      else (ls, changes)
  | _ => (ls, changes)
  end.

(** [line.strip() == ''] *)
Definition is_empty (line : string) : bool :=
  bool_decide (strip line = EmptyString).

(** The cleanup loop: [cleaned_lines], from the current [prev_was_empty]. *)
Fixpoint clean (prev_was_empty : bool) (ls : list string) : list string :=
  match ls with
  | [] => []
  | line :: rest =>
      if is_empty line && prev_was_empty then clean prev_was_empty rest
      else line :: clean (is_empty line) rest
  end.

(** The lines and the change count when the cleanup starts. *)
Definition edited (file_lines : list string)
    (line_map : list (Z * (string * string))) : exn + (list string * Z) :=
  match run (State file_lines 0 false) line_map with
  | inl e => inl e
  | inr st =>
      inr (if needs_tone_import st
           then add_tone_import (lines st) (changes st)
           else (lines st, changes st))
  end.

Definition fix_file (file_path : string)
    (line_map : list (Z * (string * string))) (w : world) : outcome Z :=
  match files w !! file_path with
  | None => (* not path.exists() *)
      Returned 0 (print (FileNotFound file_path) w)
  | Some text =>
      let w := emit (EvRead file_path) w in
      match edited (readlines text) line_map with
      | inl e => Raised e w
      | inr (ls, changes) =>
          if bool_decide (changes > 0) then
            let cleaned_lines := clean false ls in
            let w := write_lines file_path cleaned_lines w in
            Returned changes (print (FileChanges file_path changes) w)
          else Returned changes w
      end
  end.

Fixpoint fix_all (table : list (string * list (Z * (string * string))))
    (total_changes : Z) (w : world) : outcome Z :=
  match table with
  | [] => Returned total_changes w
  | (file_path, line_map) :: more =>
      match fix_file file_path line_map w with
      | Returned changes w' => fix_all more (total_changes + changes) w'
      | Raised e w' => Raised e w'
      end
  end.

Definition main (w : world) : outcome unit :=
  let w := print (Banner "Fixing no-explicit-any violations") w in
  let w := print (Banner
    "   Removing eslint-disable comments and replacing 'any' with proper types") w in
  let w := print (Banner "") w in
  match fix_all fixes 0 w with
  | Returned total_changes w =>
      let w := print (TotalChanges total_changes) w in
      let w := print (Banner "After running this script, verify with:") w in
      Returned tt
        (print (Banner "   npm run lint 2>&1 | grep 'no-explicit-any' | wc -l") w)
  | Raised e w => Raised e w
  end.

End FixFile.

End NoExplicitAny.

(** ** Vocabulary for further properties of the two scripts *)
Module Props.
Import Py Re Io.

(** [s.count(x)] for a single character [x] *)
Fixpoint count_char (x : ascii) (s : string) : nat :=
  match s with
  | EmptyString => 0
  | String c s' => (if Ascii.eqb c x then 1 else 0) + count_char x s'
  end.

(** An ascending list without its repetitions. *)
Fixpoint squash (l : list Z) : list Z :=
  match l with
  | [] => []
  | x :: t =>
      match t with
      | y :: _ => if x =? y then squash t else x :: squash t
      | [] => [x]
      end
  end.

(** The two ways the forward loop of the block patcher stops at a line:
    before it, at a sibling label or closing brace no deeper than the anchor,
    or after it, at a [break] or [return]. *)
Definition stops_before (indent_level : nat) (line : string) : bool :=
  bool_decide (CaseBlocks.indent_of line <= indent_level)%nat
  && CaseBlocks.matches CaseBlocks.boundary_re line.

Definition stops_after (line : string) : bool :=
  CaseBlocks.found CaseBlocks.exit_re line.

(** What a run of the block patcher makes of a list of lines: lines are
    kept, case labels get their brace, closing lines come in between. *)
Inductive wrapped : list string -> list string -> Prop :=
  | wrapped_nil : wrapped [] []
  | wrapped_keep x ls ls' : wrapped ls ls' -> wrapped (x :: ls) (x :: ls')
  | wrapped_open x ls ls' :
      CaseBlocks.is_case_label x = true ->
      wrapped ls ls' -> wrapped (x :: ls) (CaseBlocks.opened x :: ls')
  | wrapped_close n ls ls' :
      wrapped ls ls' -> wrapped ls (CaseBlocks.closer n :: ls').

(** [old] stands at the front of [s] as a whole word, [prev] being the
    character before [s]: a word boundary on either side of it. *)
Definition occurs_at (old : string) (prev : option ascii) (s : string) : bool :=
  boundary prev s
  && match after_prefix old s with
     | Some rest => boundary (last_char prev old) rest
     | None => false
     end.

(** Somewhere in [s] the character [c] stands right before a word
    character. *)
Fixpoint followed_by_word (c : ascii) (s : string) : bool :=
  match s with
  | EmptyString => false
  | String d s' =>
      (Ascii.eqb d c && word_char (head_char s')) || followed_by_word c s'
  end.

(** The line with the total of the block patcher among the events. *)
Definition is_total (e : event) : bool :=
  match e with
  | EvPrint (TotalCaseBlocks _) => true
  | _ => false
  end.

(** A last line that the end of the file cuts short: it is not empty and
    holds no character that ends a line. *)
Definition unterminated (line : string) : bool :=
  match line with
  | EmptyString => false
  | String _ _ => all_chars not_newline line
  end.

(** The two characters of a delimiter pair. *)
Definition is_brace (x : ascii) : bool :=
  Ascii.eqb x "{" || Ascii.eqb x "}".

(** The record of a change is sound for the lines it stands with. *)
Definition sound_change (ls : list string) (ms : gset Z)
    (c : CaseBlocks.change) : Prop :=
  1 <= CaseBlocks.case_line c /\
  CaseBlocks.case_line c < CaseBlocks.declaration_line c /\
  CaseBlocks.declaration_line c < CaseBlocks.end_line c /\
  CaseBlocks.end_line c <= Z.of_nat (length ls) /\
  (forall k, CaseBlocks.case_line c <= k <= CaseBlocks.end_line c + 1 -> k ∈ ms) /\
  CaseBlocks.is_case_label
    (ls !!! Z.to_nat (CaseBlocks.case_line c - 1)) = true /\
  contains_char "{" (ls !!! Z.to_nat (CaseBlocks.case_line c - 1)) = true.

End Props.

(** ** Sample inputs *)
Module Samples.
Import Py Io.

Definition ln (s : string) : string := s +:+ nl.

(** The switch of Scenario 1, its case label two columns in. *)
Definition one_case : list string :=
  [ ln "  case 'x':";
    ln "    const y = 1;";
    ln "    doSomething(y);";
    ln "    break;" ].

(** A switch inside a case of a switch. *)
Definition nested_switch : list string :=
  [ ln "switch (k) {";
    ln "  case 'a':";
    ln "    const x = 1;";
    ln "    switch (j) {";
    ln "      case 1:";
    ln "        const y = 2;";
    ln "        break;";
    ln "    }";
    ln "    break;";
    ln "}" ].

(** Two declarations under one case label. *)
Definition two_declarations : list string :=
  [ ln "  case 'x':";
    ln "    const y = 1;";
    ln "    let z = 2;";
    ln "    break;" ].

(** A disable comment before a typed line, and blank lines elsewhere. *)
Definition any_file : list string :=
  [ ln "import { Synth } from 'tone';";
    ln "";
    ln "";
    ln "// eslint-disable-next-line @typescript-eslint/no-explicit-any";
    ln "let x: any = 1;";
    ln "";
    ln "  ";
    ln "done();" ].


(** Two cases, each with a declaration. *)
Definition two_cases : list string :=
  [ ln "switch (k) {";
    ln "  case 'a':";
    ln "    const x = 1;";
    ln "    break;";
    ln "  case 'b':";
    ln "    foo();";
    ln "    const y = 2;";
    ln "    break;";
    ln "}" ].

(** A declaration under the default label of a switch. *)
Definition with_default : list string :=
  [ ln "switch (k) {";
    ln "  case 'a':";
    ln "    foo();";
    ln "    break;";
    ln "  default:";
    ln "    const z = 1;";
    ln "    bar(z);";
    ln "}" ].

(** A file whose last line has no newline. *)
Definition cut_short : string :=
  ln "  case 1:" +:+ "    const x = 1".

Definition on_disk (path : string) (file_lines : list string) : world :=
  World {[ path := join file_lines ]} [].

End Samples.

Import Py Re Io.

(** ** The patterns on some lines *)
Section Patterns.
Import CaseBlocks Samples.

Example case_re_on_lines :
  matches case_re <$>
    [ ln "  case 'x':"; ln "case"; "case"; ln "  casework();"; ln "  default:" ]
  = [ true; true; false; false; false ].
Proof. vm_compute. reflexivity. Qed.

Example boundary_re_on_lines :
  matches boundary_re <$>
    [ ln "  case 1:"; ln "  default :"; ln "}"; ln "  defaults();"; ln "  x }" ]
  = [ true; true; true; false; false ].
Proof. vm_compute. reflexivity. Qed.

Example exit_re_on_lines :
  found exit_re <$>
    [ ln "    break;"; "return"; ln "  if (c) return ;  "; ln "  return x;";
      ln "  breakfast();"; ln "  unbreak;" ]
  = [ true; true; true; false; false; false ].
Proof. vm_compute. reflexivity. Qed.

Example decl_re_on_lines :
  found decl_re <$>
    [ ln "    const y = 1;"; ln "  a.let"; ln "  constant = 1;"; ln "  var_x = 1;";
      ln "  doSomething(y);" ]
  = [ true; true; false; false; false ].
Proof. vm_compute. reflexivity. Qed.

Example readlines_on_text :
  readlines ("a" +:+ String "013" (String "010" "b") +:+ String "013" "c" +:+ nl +:+ "d")
  = [ ln "a"; ln "b"; ln "c"; "d" ].
Proof. vm_compute. reflexivity. Qed.

End Patterns.

(** ** Strings and the matcher *)
Section Strings.

Lemma append_assoc (a b c : string) : (a +:+ b) +:+ c = a +:+ (b +:+ c).
Proof. induction a as [|x a IH]; simpl; [reflexivity|]. rewrite IH. reflexivity. Qed.

Lemma append_empty_r (a : string) : a +:+ EmptyString = a.
Proof. induction a as [|x a IH]; simpl; [reflexivity|]. rewrite IH. reflexivity. Qed.

Lemma join_cons x (l : list string) : join (x :: l) = x +:+ join l.
Proof. reflexivity. Qed.

Lemma join_app (l1 l2 : list string) : join (l1 ++ l2) = join l1 +:+ join l2.
Proof.
  induction l1 as [|x l1 IH]; [reflexivity|].
  change ((x :: l1) ++ l2) with (x :: (l1 ++ l2)).
  rewrite !join_cons, IH, append_assoc. reflexivity.
Qed.

Lemma contains_char_append x (a b : string) :
  contains_char x (a +:+ b) = contains_char x a || contains_char x b.
Proof.
  induction a as [|c a IH]; simpl; [reflexivity|].
  rewrite IH, orb_assoc. reflexivity.
Qed.

Lemma after_prefix_Some p s r : after_prefix p s = Some r -> s = p +:+ r.
Proof.
  revert s. induction p as [|a p IH]; intros s; simpl.
  - intros [= ->]. reflexivity.
  - destruct s as [|b s]; [discriminate|].
    destruct (Ascii.eqb_spec a b) as [->|]; [|discriminate].
    intros H. rewrite (IH _ H). reflexivity.
Qed.

Lemma after_prefix_append p r : after_prefix p (p +:+ r) = Some r.
Proof.
  induction p as [|a p IH]; simpl; [reflexivity|].
  rewrite Ascii.eqb_refl. assumption.
Qed.

Lemma rstrip_head c s :
  is_space c = false -> rstrip (String c s) = String c (rstrip s).
Proof. intros H. simpl. rewrite H. destruct (rstrip s); reflexivity. Qed.

Lemma rstrip_empty_lstrip s : rstrip s = EmptyString -> lstrip s = EmptyString.
Proof.
  induction s as [|c s IH]; simpl; [reflexivity|].
  destruct (rstrip s) eqn:Hr; [|discriminate].
  destruct (is_space c); [|discriminate]. intros _. apply IH. reflexivity.
Qed.

Lemma rstrip_space_head c s :
  is_space c = true -> rstrip s <> EmptyString ->
  rstrip (String c s) = String c (rstrip s).
Proof. intros _ H. simpl. destruct (rstrip s); [contradiction|reflexivity]. Qed.

(** A stripped line keeps its first character when anything is left. *)
Lemma rstrip_keeps_head c s :
  rstrip (String c s) = EmptyString \/ rstrip (String c s) = String c (rstrip s).
Proof.
  simpl. destruct (rstrip s); [|right; reflexivity].
  destruct (is_space c); [left|right]; reflexivity.
Qed.

Section MatcherFacts.
Context {A : Type}.
Implicit Types k : option ascii -> string -> option A.

Lemma orelse_None_r (x : option A) : orelse x None = x.
Proof. destruct x; reflexivity. Qed.

Lemma matchk_cat_star f r k prev s :
  matchk (Cat (Star f) r) k prev s = star f (matchk r k) prev s.
Proof. reflexivity. Qed.

Lemma matchk_lit p k prev s :
  matchk (lit p) k prev s =
    match after_prefix p s with
    | Some rest => k (last_char prev p) rest
    | None => None
    end.
Proof.
  revert prev s. induction p as [|a p IH]; intros prev s; simpl; [reflexivity|].
  destruct s as [|b s]; [reflexivity|].
  destruct (Ascii.eqb a b) eqn:Hab; [|reflexivity].
  apply Ascii.eqb_eq in Hab. subst b. apply IH.
Qed.

(** Leading whitespace before something that cannot start with whitespace
    and does not look behind: [\s*] takes all of it. *)
Lemma star_space_lstrip k prev s :
  (forall p q r, k p r = k q r) ->
  (forall p c r, is_space c = true -> k p (String c r) = None) ->
  star is_space k prev s = k None (lstrip s).
Proof.
  intros Hprev Hsp. revert prev.
  induction s as [|c s IH]; intros prev; simpl.
  - apply Hprev.
  - destruct (is_space c) eqn:Hc.
    + rewrite (Hsp prev c s Hc), orelse_None_r. apply IH.
    + apply Hprev.
Qed.

Lemma star_prev f k p q s :
  (forall p q s, k p s = k q s) -> star f k p s = star f k q s.
Proof.
  intros Hk. revert p q. induction s as [|c s IH]; intros p q; simpl.
  - apply Hk.
  - destruct (f c); [|apply Hk]. rewrite (Hk p q). reflexivity.
Qed.

(** A pattern without [\b] matches the same way after any character. *)
Lemma matchk_prev r :
  looks_behind r = false ->
  forall k, (forall p q s, k p s = k q s) ->
  forall p q s, matchk r k p s = matchk r k q s.
Proof.
  induction r as [| c | | | f | f | r IH | r1 IH1 r2 IH2 | r1 IH1 r2 IH2];
    simpl; intros Hr k Hk p q s; try discriminate.
  - apply Hk.
  - reflexivity.
  - rewrite (Hk p q). reflexivity.
  - apply star_prev, Hk.
  - reflexivity.
  - rewrite (IH Hr k Hk p q), (Hk p q). reflexivity.
  - apply orb_false_elim in Hr as [H1 H2].
    apply IH1; [assumption|]. intros p' q' s'. apply IH2; assumption.
  - apply orb_false_elim in Hr as [H1 H2].
    rewrite (IH1 H1 k Hk p q), (IH2 H2 k Hk p q). reflexivity.
Qed.

Lemma star_total f k prev s :
  (forall p r, is_Some (k p r)) -> is_Some (star f k prev s).
Proof.
  intros Hk. revert prev. induction s as [|c s IH]; intros prev; simpl.
  - apply Hk.
  - destruct (f c); [|apply Hk].
    destruct (IH (Some c)) as [x ->]. simpl. eauto.
Qed.

End MatcherFacts.

Lemma matches_case_re line :
  CaseBlocks.matches CaseBlocks.case_re line = CaseBlocks.is_case_label line.
Proof.
  unfold CaseBlocks.matches, CaseBlocks.is_case_label, re_match, CaseBlocks.case_re.
  cbn [matchk].
  rewrite star_space_lstrip.
  - rewrite matchk_lit.
    destruct (after_prefix "case" (lstrip line)) as [[|c rest]|]; cbn [matchk].
    + apply bool_decide_eq_false_2. intros [x Hx]. discriminate.
    + destruct (is_space c).
      * apply bool_decide_eq_true_2. apply star_total. eauto.
      * apply bool_decide_eq_false_2. intros [x Hx]. discriminate.
    + apply bool_decide_eq_false_2. intros [x Hx]. discriminate.
  - intros p q r. rewrite !matchk_lit. reflexivity.
  - intros p c r Hc. cbn [lit matchk].
    destruct (Ascii.eqb_spec "c" c) as [<-|]; [discriminate|reflexivity].
Qed.

Lemma is_case_label_space c s :
  is_space c = true ->
  CaseBlocks.is_case_label (String c s) = CaseBlocks.is_case_label s.
Proof. intros H. unfold CaseBlocks.is_case_label. simpl. rewrite H. reflexivity. Qed.

Lemma is_case_label_rstrip line :
  CaseBlocks.is_case_label line = true -> rstrip line <> EmptyString.
Proof.
  intros H Hr. apply rstrip_empty_lstrip in Hr.
  unfold CaseBlocks.is_case_label in H. rewrite Hr in H. discriminate.
Qed.

(** The rewritten anchor line is still a case label. *)
Lemma is_case_label_opened line :
  CaseBlocks.is_case_label line = true ->
  CaseBlocks.is_case_label (CaseBlocks.opened line) = true.
Proof.
  unfold CaseBlocks.opened.
  induction line as [|c line IH]; [discriminate|].
  destruct (is_space c) eqn:Hc.
  - rewrite is_case_label_space by assumption. intros H.
    rewrite rstrip_space_head by (try assumption; apply is_case_label_rstrip, H).
    cbn [String.append]. rewrite is_case_label_space by assumption. apply IH, H.
  - clear IH. unfold CaseBlocks.is_case_label at 1. cbn [lstrip]. rewrite Hc.
    destruct (after_prefix "case" (String c line)) as [[|d rest]|] eqn:Hp;
      try discriminate.
    intros Hd. apply after_prefix_Some in Hp. rewrite Hp.
    cbn [String.append].
    rewrite !rstrip_head by reflexivity.
    unfold CaseBlocks.is_case_label. cbn [String.append lstrip is_space N_of_ascii].
    cbn [after_prefix Ascii.eqb Bool.eqb].
    destruct (rstrip_keeps_head d rest) as [-> | ->]; cbn [String.append].
    + reflexivity.
    + assumption.
Qed.

Lemma contains_brace_opened line :
  contains_char "{" (CaseBlocks.opened line) = true.
Proof.
  unfold CaseBlocks.opened. rewrite contains_char_append. simpl.
  apply orb_true_r.
Qed.

End Strings.

Import Py Re Io.

(** ** The loop body of the block patcher *)
Section CaseBlocksStep.
Import CaseBlocks.

Lemma getitem_pos {A} (l : list A) (i : Z) :
  0 <= i -> getitem l i = l !! Z.to_nat i.
Proof.
  intros H. unfold getitem, index.
  destruct (Z.ltb_spec i (Z.of_nat (length l))) as [Hlt|Hge].
  - rewrite (proj2 (Z.leb_le 0 i) H). reflexivity.
  - rewrite andb_false_r.
    replace (i <? 0) with false by (symmetry; apply Z.ltb_ge; lia).
    rewrite andb_false_r. symmetry. apply lookup_ge_None_2. lia.
Qed.

Lemma getitem_neg_wrap {A} (l : list A) (i : Z) :
  - Z.of_nat (length l) <= i < 0 -> is_Some (getitem l i).
Proof.
  intros H. unfold getitem, index.
  replace (0 <=? i) with false by (symmetry; apply Z.leb_gt; lia).
  replace (- Z.of_nat (length l) <=? i) with true by (symmetry; apply Z.leb_le; lia).
  replace (i <? 0) with true by (symmetry; apply Z.ltb_lt; lia).
  simpl. apply lookup_lt_is_Some. lia.
Qed.

Lemma getitem_below {A} (l : list A) (i : Z) :
  i < - Z.of_nat (length l) -> getitem l i = None.
Proof.
  intros H. unfold getitem, index.
  replace (0 <=? i) with false by (symmetry; apply Z.leb_gt; lia).
  replace (- Z.of_nat (length l) <=? i) with false by (symmetry; apply Z.leb_gt; lia).
  reflexivity.
Qed.

Lemma step_out_of_range st line_num :
  line_num > Z.of_nat (length (lines st)) -> step st line_num = Some st.
Proof.
  intros H. unfold step.
  rewrite (bool_decide_eq_true_2 _ H). reflexivity.
Qed.

Lemma step_modified st line_num :
  line_num ∈ modified_lines st -> step st line_num = Some st.
Proof.
  intros H. unfold step.
  rewrite (bool_decide_eq_true_2 _ H), orb_true_r. reflexivity.
Qed.

(** The loop body, case by case: it patches the block of the target, or dies
    on an index below the list, or continues with the state as it is. *)
Lemma step_spec st line_num :
  step st line_num =
    match block_of st line_num with
    | Some (case_idx, end_idx) => Some (patched st line_num case_idx end_idx)
    | None => if raises st line_num then None else Some st
    end.
Proof.
  unfold step, block_of, raises.
  destruct (decide (line_num > Z.of_nat (length (lines st)))) as [Hgt|Hle].
  { rewrite (bool_decide_eq_true_2 _ Hgt). simpl.
    rewrite bool_decide_eq_false_2 by lia. simpl.
    rewrite bool_decide_eq_false_2 by lia. reflexivity. }
  rewrite (bool_decide_eq_false_2 _ Hle). simpl.
  destruct (decide (line_num ∈ modified_lines st)) as [Hin|Hnin].
  { rewrite (bool_decide_eq_true_2 _ Hin). simpl.
    rewrite !andb_false_r. reflexivity. }
  rewrite (bool_decide_eq_false_2 _ Hnin). simpl. rewrite !andb_true_r.
  destruct (decide (1 <= line_num)) as [Hpos|Hnonpos].
  - rewrite bool_decide_eq_true_2 by lia.
    rewrite bool_decide_eq_false_2 by lia.
    rewrite getitem_pos by lia.
    destruct (lines st !! Z.to_nat (line_num - 1)) as [line|] eqn:Hline.
    2:{ apply lookup_ge_None_1 in Hline. lia. }
    destruct (found decl_re line); simpl; [|reflexivity].
    destruct (find_case (lines st) (Z.to_nat (line_num - 1))) as [case_idx|];
      [|reflexivity].
    fold (braced (lines st) case_idx).
    destruct (braced (lines st) case_idx); [reflexivity|].
    replace (Z.to_nat (line_num - 1 + 1)) with (Z.to_nat line_num) by lia.
    destruct (endswith_char _ _); reflexivity.
  - rewrite (bool_decide_eq_false_2 (1 <= line_num <= _)) by lia.
    destruct (decide (line_num < 1 - Z.of_nat (length (lines st)))) as [Hlow|Hwrap].
    + rewrite (bool_decide_eq_true_2 _ Hlow).
      rewrite getitem_below by lia. reflexivity.
    + rewrite (bool_decide_eq_false_2 _ Hwrap).
      destruct (getitem_neg_wrap (lines st) (line_num - 1)) as [line Hline]; [lia|].
      rewrite Hline.
      destruct (found decl_re line); simpl; [|reflexivity].
      replace (Z.to_nat (line_num - 1)) with 0%nat by lia. reflexivity.
Qed.

Lemma find_case_Some ls n case_idx :
  find_case ls n = Some case_idx ->
  (case_idx < n)%nat /\ matches case_re (ls !!! case_idx) = true /\
  forall j, (case_idx < j < n)%nat -> matches case_re (ls !!! j) = false.
Proof.
  induction n as [|k IH]; simpl; [discriminate|].
  destruct (matches case_re (ls !!! k)) eqn:Hk.
  - intros [= <-]. repeat split; [lia|assumption|]. intros j Hj. lia.
  - intros H. destruct (IH H) as (Hlt & Hm & Hbetween).
    repeat split; [lia|assumption|].
    intros j Hj. destruct (decide (j = k)) as [->|Hne]; [assumption|].
    apply Hbetween. lia.
Qed.

Lemma find_case_found ls n case_idx :
  (case_idx < n)%nat -> matches case_re (ls !!! case_idx) = true ->
  (forall j, (case_idx < j < n)%nat -> matches case_re (ls !!! j) = false) ->
  find_case ls n = Some case_idx.
Proof.
  induction n as [|k IH]; intros Hlt Hm Hbetween; [lia|]. simpl.
  destruct (decide (case_idx = k)) as [->|Hne].
  - rewrite Hm. reflexivity.
  - rewrite Hbetween by lia. apply IH; [lia|assumption|].
    intros j Hj. apply Hbetween. lia.
Qed.

Lemma find_end_bounds indent_level rest end_idx :
  (end_idx <= find_end indent_level rest end_idx <= end_idx + length rest)%nat.
Proof.
  revert end_idx. induction rest as [|next_line rest IH]; intros end_idx; simpl.
  - lia.
  - destruct (_ && _); [lia|].
    destruct (found exit_re next_line); [lia|].
    specialize (IH (end_idx + 1)%nat). lia.
Qed.

Lemma length_patch_at ls case_idx end_idx :
  length (patch_at ls case_idx end_idx) = S (length ls).
Proof.
  unfold patch_at, insert_at.
  rewrite length_app. simpl. rewrite length_take, length_drop, length_insert. lia.
Qed.

Lemma lookup_total_eq (l l' : list string) i j :
  l !! i = l' !! j -> l !!! i = l' !!! j.
Proof. intros H. rewrite !list_lookup_total_alt, H. reflexivity. Qed.

Section PatchAt.
Variables (ls : list string) (case_idx end_idx : nat).
Hypothesis Hanchor : (case_idx < end_idx)%nat.
Hypothesis Hend : (end_idx <= length ls)%nat.

Lemma patch_at_lookup_lt i :
  (i < end_idx)%nat ->
  patch_at ls case_idx end_idx !! i =
  <[case_idx := opened (ls !!! case_idx)]> ls !! i.
Proof.
  intros Hi. unfold patch_at, insert_at.
  rewrite lookup_app_l by (rewrite length_take, length_insert; lia).
  apply lookup_take_lt. assumption.
Qed.

Lemma patch_at_lookup_anchor :
  patch_at ls case_idx end_idx !! case_idx = Some (opened (ls !!! case_idx)).
Proof.
  rewrite patch_at_lookup_lt by assumption.
  apply list_lookup_insert_eq. lia.
Qed.

Lemma patch_at_lookup_before i :
  (i < end_idx)%nat -> i <> case_idx ->
  patch_at ls case_idx end_idx !! i = ls !! i.
Proof.
  intros Hi Hne. rewrite patch_at_lookup_lt by assumption.
  apply list_lookup_insert_ne. congruence.
Qed.

Lemma patch_at_lookup_boundary :
  patch_at ls case_idx end_idx !! end_idx =
  Some (closer (indent_of (ls !!! case_idx))).
Proof.
  unfold patch_at, insert_at.
  rewrite lookup_app_r by (rewrite length_take, length_insert; lia).
  rewrite length_take, length_insert.
  replace (end_idx - end_idx `min` length ls)%nat with 0%nat by lia.
  reflexivity.
Qed.

Lemma patch_at_lookup_after i :
  (end_idx <= i)%nat ->
  patch_at ls case_idx end_idx !! S i = ls !! i.
Proof.
  intros Hi. unfold patch_at, insert_at.
  rewrite lookup_app_r by (rewrite length_take, length_insert; lia).
  rewrite length_take, length_insert.
  replace (S i - end_idx `min` length ls)%nat with (S (i - end_idx)) by lia.
  simpl. rewrite lookup_drop.
  replace (end_idx + (i - end_idx))%nat with i by lia.
  apply list_lookup_insert_ne. lia.
Qed.

End PatchAt.

(** What [block_of] promises about the block it returns. *)
Lemma block_of_Some st line_num case_idx end_idx :
  block_of st line_num = Some (case_idx, end_idx) ->
  1 <= line_num <= Z.of_nat (length (lines st)) /\
  (line_num ∉ modified_lines st) /\
  (exists line, lines st !! Z.to_nat (line_num - 1) = Some line /\
                found decl_re line = true) /\
  find_case (lines st) (Z.to_nat (line_num - 1)) = Some case_idx /\
  braced (lines st) case_idx = false /\
  end_idx = extent_of (lines st) line_num case_idx /\
  (Z.of_nat case_idx + 1 < line_num) /\
  (Z.to_nat line_num <= end_idx <= length (lines st))%nat.
Proof.
  unfold block_of. intros H.
  destruct (bool_decide (1 <= line_num <= _)) eqn:Hrange; [|discriminate].
  apply bool_decide_eq_true_1 in Hrange.
  destruct (bool_decide (line_num ∈ _)) eqn:Hmod; [discriminate|].
  apply bool_decide_eq_false_1 in Hmod. simpl in H.
  destruct (lines st !! Z.to_nat (line_num - 1)) as [line|] eqn:Hline; [|discriminate].
  destruct (found decl_re line) eqn:Hdecl; [|discriminate].
  destruct (find_case _ _) as [a|] eqn:Hcase; [|discriminate].
  destruct (braced _ a) eqn:Hbr; [discriminate|].
  injection H as <- <-.
  destruct (find_case_Some _ _ _ Hcase) as (Hlt & _ & _).
  pose proof (find_end_bounds (indent_of (lines st !!! a))
                (drop (Z.to_nat line_num) (lines st)) (Z.to_nat line_num)) as Hb.
  rewrite length_drop in Hb.
  repeat split; try assumption; try lia.
  - exists line. split; [reflexivity|assumption].
  - unfold extent_of. lia.
  - unfold extent_of. lia.
Qed.

End CaseBlocksStep.

(** ** The loop over the targets *)
Section CaseBlocksRun.
Import CaseBlocks.

Lemma step_length st line_num st' :
  step st line_num = Some st' ->
  (length (lines st') + length (changes st) =
   length (lines st) + length (changes st'))%nat /\
  (length (changes st) <= length (changes st'))%nat.
Proof.
  rewrite step_spec.
  destruct (block_of st line_num) as [[case_idx end_idx]|].
  - intros [= <-]. simpl. rewrite length_patch_at, length_app. simpl. lia.
  - destruct (raises st line_num); [discriminate|]. intros [= <-]. lia.
Qed.

Lemma run_length st line_numbers st' :
  run st line_numbers = Some st' ->
  (length (lines st') + length (changes st) =
   length (lines st) + length (changes st'))%nat /\
  (length (changes st) <= length (changes st'))%nat.
Proof.
  revert st. induction line_numbers as [|line_num more IH]; intros st; simpl.
  - intros [= <-]. lia.
  - destruct (step st line_num) as [st1|] eqn:Hstep; [|discriminate].
    intros Hrun. apply step_length in Hstep. apply IH in Hrun. lia.
Qed.

Lemma step_positive st line_num :
  1 <= line_num -> is_Some (step st line_num).
Proof.
  intros H. rewrite step_spec.
  destruct (block_of st line_num) as [[case_idx end_idx]|]; [eauto|].
  unfold raises. rewrite bool_decide_eq_false_2 by lia. simpl. eauto.
Qed.

Lemma run_positive st line_numbers :
  Forall (fun n => 1 <= n) line_numbers -> is_Some (run st line_numbers).
Proof.
  intros H. revert st. induction H as [|line_num more Hpos _ IH]; intros st; simpl.
  - eauto.
  - destruct (step_positive st line_num Hpos) as [st1 ->]. apply IH.
Qed.

Lemma insert_sorted_Forall (P : Z -> Prop) x l :
  P x -> Forall P l -> Forall P (insert_sorted x l).
Proof.
  intros Hx Hl. induction Hl as [|y l Hy Hl IH]; simpl.
  - constructor; [assumption|constructor].
  - destruct (x <=? y); repeat constructor; assumption.
Qed.

Lemma sorted_Forall (P : Z -> Prop) l : Forall P l -> Forall P (sorted l).
Proof.
  induction 1 as [|x l Hx Hl IH]; simpl; [constructor|].
  apply insert_sorted_Forall; assumption.
Qed.

End CaseBlocksRun.

(** ** The block patcher: targets that are skipped *)
Section CaseBlocksSkips.
Import CaseBlocks.

Lemma sorted_singleton n : sorted [n] = [n].
Proof. reflexivity. Qed.

Lemma fix_case_block_found w file_path text line_numbers :
  files w !! file_path = Some text ->
  fix_case_block file_path line_numbers w =
    match patch (readlines text) line_numbers with
    | None => Raised IndexError (emit (EvRead file_path) w)
    | Some st =>
        let n := length (changes st) in
        let w1 := emit (EvRead file_path) w in
        Returned (Z.of_nat n)
          (if nonempty (changes st) then
             let w2 := write_lines file_path (lines st) w1 in
             let w3 := print (CaseBlocksWrapped file_path n) w2 in
             let w4 := report_changes (changes st) w3 in
             if bool_decide (3 < n)%nat then print (AndMore (n - 3)) w4 else w4
           else w1)
    end.
Proof. intros H. unfold fix_case_block. rewrite H. reflexivity. Qed.

Lemma fix_case_block_single_skip w file_path text line_num :
  files w !! file_path = Some text ->
  step (State (readlines text) [] ∅) line_num = Some (State (readlines text) [] ∅) ->
  fix_case_block file_path [line_num] w = Returned 0 (emit (EvRead file_path) w).
Proof.
  intros Hfile Hstep. rewrite (fix_case_block_found _ _ _ _ Hfile).
  unfold patch. rewrite sorted_singleton. simpl. rewrite Hstep. reflexivity.
Qed.

Lemma step_no_declaration st line_num line :
  getitem (lines st) (line_num - 1) = Some line ->
  found decl_re line = false ->
  step st line_num = Some st.
Proof.
  intros Hline Hdecl. unfold step.
  destruct (_ || _); [reflexivity|].
  rewrite Hline, Hdecl. reflexivity.
Qed.


Lemma run_app st earlier later :
  run st (earlier ++ later) =
    match run st earlier with
    | Some st' => run st' later
    | None => None
    end.
Proof.
  revert st. induction earlier as [|n earlier IH]; intros st; simpl; [reflexivity|].
  destruct (step st n) as [st1|]; [apply IH|reflexivity].
Qed.

End CaseBlocksSkips.

(** ** The block patcher: what a run changes *)
Section CaseBlocksEffects.
Import CaseBlocks.

Lemma report_changes_spec cs w :
  report_changes cs w =
  World (files w)
    (trace w ++
       ((fun c => EvPrint (CaseAtLine (case_line c) (declaration_line c)))
          <$> take 3 cs)).
Proof.
  unfold report_changes. generalize (take 3 cs) as l. intros l. revert w.
  induction l as [|c l IH]; intros w; simpl.
  - rewrite app_nil_r. destruct w; reflexivity.
  - rewrite IH. simpl. rewrite <- app_assoc. reflexivity.
Qed.

Lemma writes_of_app a b : writes_of (a ++ b) = writes_of a ++ writes_of b.
Proof. apply omap_app. Qed.

Lemma writes_of_prints {X} (f : X -> message) (l : list X) :
  writes_of ((fun x => EvPrint (f x)) <$> l) = [].
Proof. induction l as [|x l IH]; simpl; [reflexivity|exact IH]. Qed.

Lemma fix_case_block_patched w file_path text line_numbers st :
  files w !! file_path = Some text ->
  patch (readlines text) line_numbers = Some st ->
  fix_case_block file_path line_numbers w =
    Returned (Z.of_nat (length (changes st)))
      (World (if nonempty (changes st)
              then <[file_path := join (lines st)]> (files w) else files w)
         (trace w ++ events_of file_path st)).
Proof.
  intros Hfile Hpatch. rewrite (fix_case_block_found _ _ _ _ Hfile), Hpatch.
  cbv zeta. f_equal. unfold events_of.
  destruct (nonempty (changes st)).
  - rewrite report_changes_spec. unfold print, emit, write_lines. simpl.
    destruct (bool_decide (3 < length (changes st))%nat); simpl;
      rewrite <- ?app_assoc; simpl; rewrite <- ?app_assoc, ?app_nil_r;
      reflexivity.
  - reflexivity.
Qed.

Lemma writes_of_events_of file_path st :
  writes_of (events_of file_path st) =
  if nonempty (changes st) then [(file_path, join (lines st))] else [].
Proof.
  unfold events_of. destruct (nonempty (changes st)); [|reflexivity].
  change (writes_of (?a :: ?b :: ?c :: ?l)) with ((file_path, join (lines st)) :: writes_of l).
  rewrite writes_of_app, writes_of_prints.
  destruct (bool_decide _); reflexivity.
Qed.


Lemma fix_all_app pre post total w :
  fix_all (pre ++ post) total w =
    match fix_all pre total w with
    | Returned t w' => fix_all post t w'
    | Raised e w' => Raised e w'
    end.
Proof.
  revert total w. induction pre as [|[p ns] pre IH]; intros total w; simpl.
  - reflexivity.
  - destruct (fix_case_block p ns w) as [n w1|e w1]; [apply IH|reflexivity].
Qed.

(** C8. A missing file is reported, nothing is changed and the call returns
    0; the driver goes on with the rest of the table, wherever in the table
    the missing file stands, and its total is not changed by it. *)
Theorem missing_file_is_reported_and_skipped
    (w : world) (file_path : string) (line_numbers : list Z) :
  files w !! file_path = None ->
  let w' := print (FileNotFound file_path) w in
  fix_case_block file_path line_numbers w = Returned 0 w' /\
  files w' = files w /\
  trace w' = trace w ++ [EvPrint (FileNotFound file_path)] /\
  (forall more total,
     fix_all ((file_path, line_numbers) :: more) total w = fix_all more total w') /\
  (forall before more total w0 t,
     fix_all before total w0 = Returned t w ->
     fix_all (before ++ (file_path, line_numbers) :: more) total w0 =
       fix_all more t w').
Proof.
  intros Hfile w'.
  assert (Hcall : fix_case_block file_path line_numbers w = Returned 0 w').
  { unfold fix_case_block. rewrite Hfile. reflexivity. }
  repeat split.
  - exact Hcall.
  - intros more total. simpl. rewrite Hcall. rewrite Z.add_0_r. reflexivity.
  - intros before more total w0 t Hbefore.
    rewrite fix_all_app, Hbefore. simpl. rewrite Hcall, Z.add_0_r. reflexivity.
Qed.

(** C9. A run changes the number of lines by one per patched block: the
    line sequence that results is as long as the one read plus the count that
    is returned, each patch keeping every index but for the one line it
    inserts; and a run on positive line numbers does return. *)
Theorem length_grows_by_count
    (w : world) (file_path text : string) (line_numbers : list Z) :
  files w !! file_path = Some text ->
  (forall st, patch (readlines text) line_numbers = Some st ->
     length (lines st) = (length (readlines text) + length (changes st))%nat /\
     value_of (fix_case_block file_path line_numbers w)
       = Some (Z.of_nat (length (changes st))) /\
     (changes st <> [] ->
        files (world_of (fix_case_block file_path line_numbers w)) !! file_path
          = Some (join (lines st)))) /\
  (forall st line_num case_idx end_idx,
     block_of st line_num = Some (case_idx, end_idx) ->
     step st line_num = Some (patched st line_num case_idx end_idx) /\
     length (lines (patched st line_num case_idx end_idx)) = S (length (lines st)) /\
     length (changes (patched st line_num case_idx end_idx)) = S (length (changes st))) /\
  (Forall (fun n => 1 <= n) line_numbers ->
   is_Some (patch (readlines text) line_numbers)).
Proof.
  intros Hfile. split; [|split].
  - intros st Hpatch.
    rewrite (fix_case_block_patched _ _ _ _ _ Hfile Hpatch). simpl.
    split; [|split].
    + apply run_length in Hpatch. simpl in Hpatch. lia.
    + reflexivity.
    + intros Hne. destruct (changes st); [contradiction|]. simpl.
      apply lookup_insert_eq.
  - intros st line_num case_idx end_idx Hblock. split; [|split].
    + rewrite step_spec, Hblock. reflexivity.
    + simpl. apply length_patch_at.
    + simpl. rewrite length_app. simpl. lia.
  - intros Hpos. apply run_positive, sorted_Forall, Hpos.
Qed.

End CaseBlocksEffects.

(** ** The block patcher: one patched block *)
Section CaseBlocksBlock.
Import CaseBlocks.

Lemma lstrip_spaces n s : lstrip (spaces n +:+ s) = lstrip s.
Proof. induction n as [|n IH]; simpl; [reflexivity|exact IH]. Qed.

Lemma closer_not_case_label indent_level :
  is_case_label (closer indent_level) = false.
Proof.
  unfold is_case_label, closer. rewrite lstrip_spaces. reflexivity.
Qed.

Lemma elem_of_marked case_idx end_idx k :
  (case_idx <= end_idx)%nat ->
  k ∈ marked case_idx end_idx <->
  Z.of_nat case_idx + 1 <= k <= Z.of_nat end_idx + 2.
Proof.
  intros Hle. unfold marked.
  rewrite elem_of_list_to_set, list_elem_of_fmap. split.
  - intros (i & -> & Hi). apply elem_of_seq in Hi. lia.
  - intros Hk. exists (Z.to_nat (k - 1)). split; [lia|].
    apply elem_of_seq. lia.
Qed.

Lemma step_modified_mono st line_num st' :
  step st line_num = Some st' -> modified_lines st ⊆ modified_lines st'.
Proof.
  rewrite step_spec.
  destruct (block_of st line_num) as [[a e]|].
  - intros [= <-]. simpl. set_solver.
  - destruct (raises st line_num); [discriminate|]. intros [= <-]. reflexivity.
Qed.

Lemma run_modified_mono st line_numbers st' :
  run st line_numbers = Some st' -> modified_lines st ⊆ modified_lines st'.
Proof.
  revert st. induction line_numbers as [|n more IH]; intros st; simpl.
  - intros [= <-]. reflexivity.
  - destruct (step st n) as [st1|] eqn:Hstep; [|discriminate].
    intros Hrun. apply step_modified_mono in Hstep. apply IH in Hrun.
    set_solver.
Qed.

Lemma closed_anchor_blocks ls case_idx line_num cs ms :
  find_case ls (Z.to_nat (line_num - 1)) = Some case_idx ->
  braced ls case_idx = true ->
  block_of (State ls cs ms) line_num = None.
Proof.
  intros Hfind Hbraced. unfold block_of. cbn [lines modified_lines].
  destruct (_ && _); [|reflexivity].
  destruct (ls !! _) as [line|]; [|reflexivity].
  destruct (found decl_re line); [|reflexivity].
  rewrite Hfind, Hbraced. reflexivity.
Qed.

Lemma patch_at_find_case ls case_idx end_idx n :
  (case_idx < end_idx <= length ls)%nat ->
  find_case ls n = Some case_idx ->
  find_case (patch_at ls case_idx end_idx) n = Some case_idx.
Proof.
  intros [Hlt Hle] Hfind.
  destruct (find_case_Some _ _ _ Hfind) as (Hbelow & Hlabel & Hbetween).
  assert (Hanchor : patch_at ls case_idx end_idx !!! case_idx
                    = opened (ls !!! case_idx)).
  { apply list_lookup_total_correct, patch_at_lookup_anchor; assumption. }
  apply find_case_found.
  - assumption.
  - rewrite Hanchor, matches_case_re. apply is_case_label_opened.
    rewrite <- matches_case_re. assumption.
  - intros j Hj.
    destruct (lt_eq_lt_dec j end_idx) as [[Hjlt| ->]|Hjgt].
    + rewrite (lookup_total_eq (patch_at ls case_idx end_idx) ls j j).
      * apply Hbetween. lia.
      * apply patch_at_lookup_before; lia.
    + erewrite list_lookup_total_correct
        by (apply patch_at_lookup_boundary; assumption).
      rewrite matches_case_re. apply closer_not_case_label.
    + destruct j as [|j]; [lia|].
      rewrite (lookup_total_eq (patch_at ls case_idx end_idx) ls (S j) j).
      * apply Hbetween. lia.
      * apply patch_at_lookup_after; lia.
Qed.

Lemma patch_at_braced ls case_idx end_idx :
  (case_idx < end_idx <= length ls)%nat ->
  braced (patch_at ls case_idx end_idx) case_idx = true.
Proof.
  intros [Hlt Hle]. unfold braced.
  erewrite list_lookup_total_correct by (apply patch_at_lookup_anchor; assumption).
  rewrite contains_brace_opened. reflexivity.
Qed.

(** After the patch of a block, a target whose nearest case label above was
    the anchor of that block finds the anchor with its brace. *)
Lemma patched_block_stays_closed ls case_idx end_idx line_num cs ms :
  (case_idx < end_idx <= length ls)%nat ->
  find_case ls (Z.to_nat (line_num - 1)) = Some case_idx ->
  block_of (State (patch_at ls case_idx end_idx) cs ms) line_num = None.
Proof.
  intros Hblock Hfind. apply (closed_anchor_blocks _ case_idx).
  - apply patch_at_find_case; assumption.
  - apply patch_at_braced, Hblock.
Qed.

(** C6. One processed target touches nothing outside its block: either the
    iteration changes nothing, or it patches the block between the nearest
    case label above the target, at index [case_idx] (line A), and the
    computed boundary, at index [end_idx] (line B); then the anchor line is
    rewritten, one closing line is inserted at the boundary, every other line
    before the boundary keeps its place and text, and every line from the
    boundary on keeps its text one place further down. *)
Theorem patch_is_local (st : state) (line_num : Z) (st' : state) :
  step st line_num = Some st' ->
  st' = st \/
  exists case_idx end_idx,
    block_of st line_num = Some (case_idx, end_idx) /\
    matches case_re (lines st !!! case_idx) = true /\
    (forall j, (case_idx < j < Z.to_nat (line_num - 1))%nat ->
       matches case_re (lines st !!! j) = false) /\
    end_idx = extent_of (lines st) line_num case_idx /\
    (case_idx < Z.to_nat (line_num - 1) < end_idx)%nat /\
    (end_idx <= length (lines st))%nat /\
    length (lines st') = S (length (lines st)) /\
    lines st' !! case_idx = Some (opened (lines st !!! case_idx)) /\
    lines st' !! end_idx = Some (closer (indent_of (lines st !!! case_idx))) /\
    (forall i, (i < end_idx)%nat -> i <> case_idx ->
       lines st' !! i = lines st !! i) /\
    (forall i, (end_idx <= i)%nat -> lines st' !! S i = lines st !! i).
Proof.
  rewrite step_spec.
  destruct (block_of st line_num) as [[case_idx end_idx]|] eqn:Hblock.
  - intros [= <-]. right. exists case_idx, end_idx.
    destruct (block_of_Some _ _ _ _ Hblock)
      as (Hrange & _ & _ & Hfind & _ & Hend & Hlt & Hext).
    destruct (find_case_Some _ _ _ Hfind) as (Hbelow & Hlabel & Hbetween).
    split; [reflexivity|]. split; [assumption|]. split; [assumption|].
    split; [assumption|]. split; [lia|]. split; [lia|].
    cbn [patched lines].
    split; [apply length_patch_at|].
    split; [apply patch_at_lookup_anchor; lia|].
    split; [apply patch_at_lookup_boundary; lia|].
    split.
    + intros i Hi Hne. apply patch_at_lookup_before; first [assumption|lia].
    + intros i Hi. apply patch_at_lookup_after; lia.
  - destruct (raises st line_num); [discriminate|]. intros [= <-]. left. reflexivity.
Qed.

(** C4. Once a block is patched, the numbers from its case line to the line
    after its end line, as the change records them, are in the modified-line
    set, they stay there for the rest of the run, and a later target among
    them is skipped; so a second target inside the block, or under the same
    case label, adds no second pair of delimiters: the run makes the one
    change. *)
Theorem patched_range_is_marked_and_skipped
    (st : state) (line_num : Z) (case_idx end_idx : nat) :
  block_of st line_num = Some (case_idx, end_idx) ->
  let st' := patched st line_num case_idx end_idx in
  step st line_num = Some st' /\
  (forall k, k ∈ modified_lines st' <->
     k ∈ modified_lines st \/
     Z.of_nat case_idx + 1 <= k <= Z.of_nat end_idx + 2) /\
  (forall later st'' k,
     run st' later = Some st'' ->
     Z.of_nat case_idx + 1 <= k <= Z.of_nat end_idx + 2 ->
     k ∈ modified_lines st'' /\ step st'' k = Some st'') /\
  (forall line_num',
     Z.of_nat case_idx + 1 <= line_num' <= Z.of_nat end_idx + 2 ->
     run st [line_num; line_num'] = Some st') /\
  (forall line_num',
     line_num <= line_num' ->
     find_case (lines st) (Z.to_nat (line_num' - 1)) = Some case_idx ->
     run st [line_num; line_num'] = Some st') /\
  changes st' =
    changes st ++
      [Change (Z.of_nat case_idx + 1) line_num (Z.of_nat end_idx + 1)] /\
  (changes st = [] -> modified_lines st = ∅ ->
   forall line_num',
     line_num <= line_num' ->
     Z.of_nat case_idx + 1 <= line_num' <= Z.of_nat end_idx + 2 \/
     find_case (lines st) (Z.to_nat (line_num' - 1)) = Some case_idx ->
     patch (lines st) [line_num; line_num'] = Some st').
Proof.
  intros Hblock st'.
  destruct (block_of_Some _ _ _ _ Hblock)
    as (Hrange & _ & _ & Hfind & _ & Hend & Hlt & Hext).
  assert (Hstep : step st line_num = Some st').
  { rewrite step_spec, Hblock. reflexivity. }
  assert (Hmarked : forall k, k ∈ modified_lines st' <->
     k ∈ modified_lines st \/
     Z.of_nat case_idx + 1 <= k <= Z.of_nat end_idx + 2).
  { intros k. subst st'. cbn [patched modified_lines].
    rewrite elem_of_union, elem_of_marked by lia. reflexivity. }
  assert (Hinside : forall line_num',
     Z.of_nat case_idx + 1 <= line_num' <= Z.of_nat end_idx + 2 ->
     run st [line_num; line_num'] = Some st').
  { intros line_num' Hin. simpl. rewrite Hstep.
    rewrite step_modified; [reflexivity|]. apply Hmarked. right. exact Hin. }
  assert (Hlabel : forall line_num',
     line_num <= line_num' ->
     find_case (lines st) (Z.to_nat (line_num' - 1)) = Some case_idx ->
     run st [line_num; line_num'] = Some st').
  { intros line_num' Hle Hfind'. simpl. rewrite Hstep.
    rewrite step_spec. subst st'. unfold patched at 1.
    rewrite patched_block_stays_closed by (try assumption; lia).
    unfold raises. rewrite bool_decide_eq_false_2 by lia. reflexivity. }
  split; [exact Hstep|]. split; [exact Hmarked|]. split; [|split; [|split; [|split]]].
  - intros later st'' k Hrun Hk.
    assert (Hin : k ∈ modified_lines st'').
    { apply (run_modified_mono _ _ _ Hrun). apply Hmarked. right. exact Hk. }
    split; [exact Hin|]. apply step_modified, Hin.
  - exact Hinside.
  - exact Hlabel.
  - reflexivity.
  - intros Hcs Hms line_num' Hle Hcase. unfold patch.
    replace (sorted [line_num; line_num']) with [line_num; line_num'].
    2:{ simpl. rewrite (proj2 (Z.leb_le _ _) Hle). reflexivity. }
    replace (State (lines st) [] ∅) with st by (destruct st; simpl in *; congruence).
    destruct Hcase as [Hin|Hfind']; [apply Hinside|apply Hlabel]; assumption.
Qed.

End CaseBlocksBlock.

(** ** Scenario 1, at every indentation *)
Section Scenario.
Import CaseBlocks.

Lemma length_append (a b : string) :
  String.length (a +:+ b) = (String.length a + String.length b)%nat.
Proof. induction a as [|c a IH]; simpl; [reflexivity|]. rewrite IH. reflexivity. Qed.

Lemma length_spaces n : String.length (spaces n) = n.
Proof. induction n as [|n IH]; simpl; [reflexivity|]. rewrite IH. reflexivity. Qed.

Lemma lstrip_length s : (String.length (lstrip s) <= String.length s)%nat.
Proof.
  induction s as [|c s IH]; simpl; [lia|].
  destruct (is_space c); simpl; lia.
Qed.

Lemma indent_of_spaces n s : indent_of (spaces n +:+ s) = (n + indent_of s)%nat.
Proof.
  unfold indent_of. rewrite lstrip_spaces, length_append, length_spaces.
  pose proof (lstrip_length s). lia.
Qed.

Lemma contains_char_spaces x n :
  x <> " "%char -> contains_char x (spaces n) = false.
Proof.
  intros Hx. induction n as [|n IH]; [reflexivity|].
  cbn [spaces contains_char]. rewrite IH, orb_false_r.
  apply Ascii.eqb_neq. congruence.
Qed.

Lemma rstrip_spaces n s :
  rstrip s <> EmptyString -> rstrip (spaces n +:+ s) = spaces n +:+ rstrip s.
Proof.
  intros Hs. induction n as [|n IH]; simpl; [reflexivity|].
  rewrite IH. destruct (spaces n +:+ rstrip s) eqn:E; [|reflexivity].
  destruct n; simpl in E; [contradiction|discriminate].
Qed.

Lemma is_case_label_spaces n s : is_case_label (spaces n +:+ s) = is_case_label s.
Proof. unfold is_case_label. rewrite lstrip_spaces. reflexivity. Qed.

Lemma search_from_before r b b' prev s :
  is_Some (search_from r b prev s) -> is_Some (search_from r b' prev s).
Proof.
  revert b b' prev. induction s as [|c s IH]; intros b b' prev; simpl.
  - destruct (matchk r _ prev EmptyString); [eauto|]. intros [x Hx]. discriminate.
  - destruct (matchk r _ prev (String c s)); [eauto|]. apply IH.
Qed.

Lemma found_hit r s : found r s = hit r None s.
Proof. reflexivity. Qed.

Lemma hit_cons r prev c s :
  matchk r (fun _ rest => Some rest) prev (String c s) = None ->
  hit r prev (String c s) = hit r (Some c) s.
Proof.
  intros H. unfold hit. simpl. rewrite H.
  apply bool_decide_ext. split; apply search_from_before.
Qed.

(** A pattern that opens with [\b] finds nothing to start on inside leading
    blanks. *)
Lemma hit_spaces r n prev s :
  word_char prev = false ->
  hit (Cat Bnd r) prev (spaces (S n) +:+ s) = hit (Cat Bnd r) (Some " "%char) s.
Proof.
  revert prev. induction n as [|n IH]; intros prev Hprev.
  - simpl. apply hit_cons. simpl. unfold boundary. rewrite Hprev. reflexivity.
  - change (spaces (S (S n)) +:+ s) with (String " " (spaces (S n) +:+ s)).
    rewrite hit_cons.
    + apply IH. reflexivity.
    + simpl. unfold boundary. rewrite Hprev. reflexivity.
Qed.

Lemma found_spaces r n s :
  hit (Cat Bnd r) None s = hit (Cat Bnd r) (Some " "%char) s ->
  found (Cat Bnd r) (spaces n +:+ s) = hit (Cat Bnd r) None s.
Proof.
  intros H. rewrite found_hit. destruct n as [|n]; [reflexivity|].
  rewrite hit_spaces by reflexivity. symmetry. exact H.
Qed.

(** [\s*] in front of alternatives that all begin with a letter or a brace. *)
Lemma matches_boundary_re_lstrip line :
  matches boundary_re line = matches boundary_re (lstrip line).
Proof.
  assert (Hk : forall x, matches boundary_re x =
    bool_decide (is_Some
      (matchk (Alt (Cat (lit "case") (Plus is_space))
                 (Alt (Cat (lit "default") (Cat (Star is_space) (Chr ":")))
                    (Chr "}")))
         (fun _ rest => Some rest) None (lstrip x)))).
  { intros x. unfold matches, re_match, boundary_re.
    rewrite matchk_cat_star, star_space_lstrip; [reflexivity| |].
    - intros p q r. apply matchk_prev; [reflexivity|]. reflexivity.
    - intros p c r Hc. cbn [matchk lit].
      destruct (Ascii.eqb_spec "c" c) as [<-|]; [discriminate|].
      destruct (Ascii.eqb_spec "d" c) as [<-|]; [discriminate|].
      destruct (Ascii.eqb_spec "}" c) as [<-|]; [discriminate|].
      reflexivity. }
  rewrite !Hk. f_equal.
  assert (Hl : lstrip (lstrip line) = lstrip line).
  { induction line as [|c line IH]; simpl; [reflexivity|].
    destruct (is_space c) eqn:Hc; [exact IH|]. simpl. rewrite Hc. reflexivity. }
  rewrite Hl. reflexivity.
Qed.

Lemma matches_boundary_re_spaces n s :
  matches boundary_re (spaces n +:+ s) = matches boundary_re s.
Proof.
  rewrite matches_boundary_re_lstrip, lstrip_spaces, <- matches_boundary_re_lstrip.
  reflexivity.
Qed.

Import Samples.

(** C2. Scenario 1 at every indentation of the case line and of its body:
    with the target on the [const] line, the case line gets [ {] appended,
    one closing line is inserted right after the [break;] line, four
    columns deeper than the case line, and one change is reported. *)
Theorem scenario_one_case_block (n m : nat) :
  let file_lines :=
    [ spaces n +:+ ln "case 'x':";
      spaces m +:+ ln "const y = 1;";
      spaces m +:+ ln "doSomething(y);";
      spaces m +:+ ln "break;" ] in
  let patched_lines :=
    [ spaces n +:+ ln "case 'x': {";
      spaces m +:+ ln "const y = 1;";
      spaces m +:+ ln "doSomething(y);";
      spaces m +:+ ln "break;";
      spaces (n + 4) +:+ ln "}" ] in
  patch file_lines [2] =
    Some (State patched_lines [Change 1 2 5] (marked 0 4)) /\
  forall w file_path text,
    files w !! file_path = Some text -> readlines text = file_lines ->
    fix_case_block file_path [2] w =
      Returned 1
        (World (<[file_path := join patched_lines]> (files w))
           (trace w ++
              [ EvRead file_path;
                EvWrite file_path (join patched_lines);
                EvPrint (CaseBlocksWrapped file_path 1);
                EvPrint (CaseAtLine 1 2) ])).
Proof.
  intros file_lines patched_lines.
  assert (Hpatch : patch file_lines [2] =
    Some (State patched_lines [Change 1 2 5] (marked 0 4))).
  { unfold patch. rewrite sorted_singleton. cbn [run].
    rewrite step_spec.
    assert (Hblock : block_of (State file_lines [] ∅) 2 = Some (0%nat, 4%nat)).
    { unfold block_of. cbn [lines modified_lines].
      rewrite bool_decide_eq_true_2 by (simpl; lia).
      rewrite bool_decide_eq_false_2 by set_solver.
      cbn [andb negb]. change (Z.to_nat (2 - 1)) with 1%nat.
      change (file_lines !! 1%nat) with (Some (spaces m +:+ ln "const y = 1;")).
      unfold decl_re. rewrite found_spaces by reflexivity.
      change (hit _ None (ln "const y = 1;")) with true. cbv iota.
      cbn [find_case]. change (file_lines !!! 0%nat) with (spaces n +:+ ln "case 'x':").
      rewrite matches_case_re, is_case_label_spaces.
      change (is_case_label (ln "case 'x':")) with true. cbv iota.
      unfold braced.
      change (file_lines !!! 0%nat) with (spaces n +:+ ln "case 'x':").
      change (file_lines !!! (0 + 1)%nat) with (spaces m +:+ ln "const y = 1;").
      rewrite !contains_char_append, !contains_char_spaces by discriminate.
      change (contains_char "{" (ln "case 'x':")) with false.
      change (contains_char "{" (ln "const y = 1;")) with false.
      rewrite andb_false_r. cbn [orb].
      unfold extent_of.
      change (file_lines !!! 0%nat) with (spaces n +:+ ln "case 'x':").
      change (drop (Z.to_nat 2) file_lines)
        with [spaces m +:+ ln "doSomething(y);"; spaces m +:+ ln "break;"].
      change (Z.to_nat 2) with 2%nat.
      cbn [find_end].
      rewrite !matches_boundary_re_spaces.
      change (matches boundary_re (ln "doSomething(y);")) with false.
      rewrite andb_false_r.
      unfold exit_re.
      rewrite (found_spaces _ m (ln "doSomething(y);")) by reflexivity.
      change (hit _ None (ln "doSomething(y);")) with false. cbv iota.
      change (matches boundary_re (ln "break;")) with false.
      rewrite andb_false_r.
      rewrite (found_spaces _ m (ln "break;")) by reflexivity.
      change (hit _ None (ln "break;")) with true. cbv iota.
      reflexivity. }
    rewrite Hblock. f_equal. unfold patched, patch_at. cbn [lines changes modified_lines].
    change (file_lines !!! 0%nat) with (spaces n +:+ ln "case 'x':").
    unfold opened, closer.
    rewrite rstrip_spaces by discriminate.
    rewrite indent_of_spaces.
    change (indent_of (ln "case 'x':")) with 0%nat. rewrite Nat.add_0_r.
    change (rstrip (ln "case 'x':")) with "case 'x':".
    rewrite append_assoc, union_empty_l_L. reflexivity. }
  split; [exact Hpatch|].
  intros w file_path text Hfile Hlines. rewrite <- Hlines in Hpatch.
  rewrite (fix_case_block_patched _ _ _ _ _ Hfile Hpatch). reflexivity.
Qed.

End Scenario.

(** ** The declaration pattern, and lines that get their brace *)
Section Declarations.
Import CaseBlocks.

Lemma is_Some_orelse {A} (x y : option A) :
  is_Some (orelse x y) <-> is_Some x \/ is_Some y.
Proof.
  destruct x; simpl.
  - split; [left; eauto|eauto].
  - split; [right; assumption|]. intros [[a Ha]|H]; [discriminate|assumption].
Qed.

Lemma keyword_match prev kw s :
  is_Some (matchk (Cat (lit kw) Bnd) (fun _ rest => Some rest) prev s)
  <-> keyword_at prev kw s = true.
Proof.
  unfold keyword_at. cbn [matchk]. rewrite matchk_lit.
  destruct (after_prefix kw s) as [rest|]; cbn [matchk].
  - destruct (boundary _ rest); split; eauto; try discriminate.
    intros [x Hx]. discriminate.
  - split; [intros [x Hx]|]; discriminate.
Qed.

Lemma declaration_match prev s :
  is_Some (matchk decl_re (fun _ rest => Some rest) prev s)
  <-> declaration_at prev s = true.
Proof.
  unfold decl_re, declaration_at. cbn [matchk].
  destruct (boundary prev s); [|split; [intros [x Hx]|]; discriminate].
  rewrite andb_true_l, !orb_true_iff, !is_Some_orelse.
  rewrite <- !keyword_match. cbn [matchk]. tauto.
Qed.

Lemma hit_declaration prev s : hit decl_re prev s = declaration_in prev s.
Proof.
  unfold hit. revert prev. induction s as [|c s IH]; intros prev.
  - cbn [search_from declaration_in]. rewrite orb_false_r.
    destruct (declaration_at prev EmptyString) eqn:Hat.
    + apply declaration_match in Hat as [x ->].
      apply bool_decide_eq_true_2. eauto.
    + apply bool_decide_eq_false_2. intros H.
      destruct (matchk decl_re _ prev EmptyString) eqn:Hm.
      * assert (Hs : declaration_at prev EmptyString = true)
          by (apply declaration_match; rewrite Hm; eauto).
        congruence.
      * destruct H as [x Hx]. discriminate.
  - cbn [search_from declaration_in].
    destruct (declaration_at prev (String c s)) eqn:Hat.
    + apply declaration_match in Hat as [x ->].
      apply bool_decide_eq_true_2. eauto.
    + destruct (matchk decl_re _ prev (String c s)) eqn:Hm.
      * assert (Hs : declaration_at prev (String c s) = true)
          by (apply declaration_match; rewrite Hm; eauto).
        congruence.
      * rewrite orb_false_l, <- IH.
        apply bool_decide_ext. split; apply search_from_before.
Qed.

Lemma found_declaration s : found decl_re s = declaration_in None s.
Proof. rewrite found_hit. apply hit_declaration. Qed.

Lemma space_not_word c : is_space c = true -> is_word c = false.
Proof.
  destruct c as [[] [] [] [] [] [] [] []]; intros H; try discriminate H; reflexivity.
Qed.

Lemma boundary_append_inert prev s t t' :
  word_char (head_char t) = false -> word_char (head_char t') = false ->
  boundary prev (s +:+ t) = boundary prev (s +:+ t').
Proof.
  intros Ht Ht'. unfold boundary. destruct s as [|c s]; simpl; [|reflexivity].
  rewrite Ht, Ht'. reflexivity.
Qed.

Lemma keyword_at_inert kw :
  all_chars is_word kw = true ->
  forall prev s t t',
    word_char (head_char t) = false -> word_char (head_char t') = false ->
    keyword_at prev kw (s +:+ t) = keyword_at prev kw (s +:+ t').
Proof.
  induction kw as [|a kw IH]; intros Hkw prev s t t' Ht Ht'.
  - unfold keyword_at. simpl. apply boundary_append_inert; assumption.
  - simpl in Hkw. apply andb_true_iff in Hkw as [Ha Hkw].
    specialize (IH Hkw).
    assert (Hhead : forall u, word_char (head_char u) = false ->
              keyword_at prev (String a kw) u = false).
    { intros [|c u] Hu; [reflexivity|]. unfold keyword_at. cbn [after_prefix].
      destruct (Ascii.eqb_spec a c) as [->|]; [|reflexivity].
      simpl in Hu. congruence. }
    destruct s as [|b s].
    + simpl. rewrite !Hhead by assumption. reflexivity.
    + unfold keyword_at. cbn [String.append after_prefix last_char].
      destruct (Ascii.eqb a b); [|reflexivity].
      apply (IH (Some a) s t t'); assumption.
Qed.

Lemma declaration_at_inert prev s t t' :
  word_char (head_char t) = false -> word_char (head_char t') = false ->
  declaration_at prev (s +:+ t) = declaration_at prev (s +:+ t').
Proof.
  intros Ht Ht'. unfold declaration_at.
  rewrite (boundary_append_inert prev s t t') by assumption.
  rewrite (keyword_at_inert "const" eq_refl prev s t t') by assumption.
  rewrite (keyword_at_inert "let" eq_refl prev s t t') by assumption.
  rewrite (keyword_at_inert "var" eq_refl prev s t t') by assumption.
  reflexivity.
Qed.

(** A search over [s] followed by a tail that starts with no word character
    and holds no declaration does not depend on the tail. *)
Lemma declaration_in_inert s t t' :
  word_char (head_char t) = false -> word_char (head_char t') = false ->
  (forall p, declaration_in p t = false) ->
  (forall p, declaration_in p t' = false) ->
  forall prev, declaration_in prev (s +:+ t) = declaration_in prev (s +:+ t').
Proof.
  intros Ht Ht' Hdead Hdead'.
  induction s as [|c s IH]; intros prev.
  - simpl. rewrite Hdead, Hdead'. reflexivity.
  - cbn [String.append declaration_in].
    change (String c (s +:+ t)) with (String c s +:+ t).
    change (String c (s +:+ t')) with (String c s +:+ t').
    rewrite (declaration_at_inert prev (String c s) t t') by assumption.
    rewrite IH. reflexivity.
Qed.

Lemma blank_head_inert ws :
  all_chars is_space ws = true -> word_char (head_char ws) = false.
Proof.
  destruct ws as [|c ws]; simpl; [reflexivity|].
  intros H. apply andb_true_iff in H as [Hc _]. apply space_not_word, Hc.
Qed.

Lemma declaration_in_blank ws :
  all_chars is_space ws = true -> forall p, declaration_in p ws = false.
Proof.
  induction ws as [|c ws IH]; intros Hws p.
  - cbn [declaration_in]. rewrite orb_false_r.
    unfold declaration_at, keyword_at. cbn [after_prefix]. apply andb_false_r.
  - simpl in Hws. apply andb_true_iff in Hws as [Hc Hws].
    cbn [declaration_in]. rewrite (IH Hws), orb_false_r.
    unfold declaration_at, keyword_at. cbn [after_prefix].
    destruct (Ascii.eqb_spec "c" c) as [<-|]; [discriminate|].
    destruct (Ascii.eqb_spec "l" c) as [<-|]; [discriminate|].
    destruct (Ascii.eqb_spec "v" c) as [<-|]; [discriminate|].
    apply andb_false_r.
Qed.

Lemma rstrip_tail s :
  exists ws, s = rstrip s +:+ ws /\ all_chars is_space ws = true.
Proof.
  induction s as [|c s (ws & Hs & Hws)].
  - exists EmptyString. split; reflexivity.
  - cbn [rstrip]. destruct (rstrip s) as [|d r] eqn:Hr.
    + simpl in Hs. subst ws. destruct (is_space c) eqn:Hc.
      * exists (String c s). split; [reflexivity|]. simpl. rewrite Hc. exact Hws.
      * exists s. split; [reflexivity|exact Hws].
    + exists ws. split; [|exact Hws]. simpl. f_equal. exact Hs.
Qed.

(** The brace appended to an anchor line adds no declaration to it and
    takes none away. *)
Lemma found_decl_opened line :
  found decl_re (opened line) = found decl_re line.
Proof.
  rewrite !found_declaration. unfold opened.
  destruct (rstrip_tail line) as (ws & Hline & Hws).
  rewrite Hline at 2.
  apply declaration_in_inert.
  - reflexivity.
  - apply blank_head_inert, Hws.
  - intros p. simpl. rewrite !orb_false_r. apply andb_false_r.
  - apply declaration_in_blank, Hws.
Qed.

Lemma evolved_trans x y z : evolved x y -> evolved y z -> evolved x z.
Proof.
  intros Hxy Hyz. induction Hyz as [|y z Hyz IH Hlabel]; [assumption|].
  apply evolved_opened; [apply IH, Hxy|assumption].
Qed.

Lemma evolved_label x y : evolved x y -> is_case_label y = is_case_label x.
Proof.
  induction 1 as [|x y Hxy IH Hlabel]; [reflexivity|].
  rewrite is_case_label_opened by assumption. congruence.
Qed.

Lemma evolved_brace x y :
  evolved x y -> contains_char "{" x = true -> contains_char "{" y = true.
Proof.
  induction 1 as [|x y Hxy IH Hlabel]; [tauto|].
  intros _. apply contains_brace_opened.
Qed.

Lemma evolved_declaration x y : evolved x y -> found decl_re y = found decl_re x.
Proof.
  induction 1 as [|x y Hxy IH Hlabel]; [reflexivity|].
  rewrite found_decl_opened. exact IH.
Qed.

End Declarations.

(** ** A second run of the block patcher *)
Section SecondRun.
Import CaseBlocks.

Lemma insert_sorted_strongly x l :
  StronglySorted Z.le l -> StronglySorted Z.le (insert_sorted x l).
Proof.
  induction 1 as [|y l Hl IH Hy]; simpl.
  - constructor; constructor.
  - destruct (Z.leb_spec x y) as [Hxy|Hxy].
    + constructor; [constructor; assumption|].
      constructor; [assumption|].
      eapply Forall_impl; [exact Hy|]. intros z Hz. simpl in Hz. lia.
    + constructor; [assumption|].
      apply insert_sorted_Forall; [lia|assumption].
Qed.

Lemma sorted_strongly l : StronglySorted Z.le (sorted l).
Proof.
  induction l as [|x l IH]; simpl; [constructor|].
  apply insert_sorted_strongly, IH.
Qed.

Lemma sorted_ascending l : StronglySorted Z.le l -> sorted l = l.
Proof.
  induction 1 as [|x l Hl IH Hx]; simpl; [reflexivity|].
  rewrite IH. destruct Hx as [|y l Hy _]; simpl; [reflexivity|].
  rewrite (proj2 (Z.leb_le x y) Hy). reflexivity.
Qed.

Lemma prefix_evolved_refl m ls : prefix_evolved m ls ls.
Proof. split; [lia|]. intros j _ _. constructor. Qed.

Lemma prefix_evolved_trans m ls1 ls2 ls3 :
  prefix_evolved m ls1 ls2 -> prefix_evolved m ls2 ls3 ->
  prefix_evolved m ls1 ls3.
Proof.
  intros [Hlen12 H12] [Hlen23 H23]. split; [lia|].
  intros j Hj Hlt. eapply evolved_trans; [apply H12|apply H23]; lia.
Qed.

(** A target at or after line [m] leaves the first [m] lines in place. *)
Lemma step_prefix_evolved m st line_num st' :
  step st line_num = Some st' -> (m <= Z.to_nat line_num)%nat ->
  prefix_evolved m (lines st) (lines st').
Proof.
  rewrite step_spec.
  destruct (block_of st line_num) as [[case_idx end_idx]|] eqn:Hblock.
  - intros [= <-] Hm.
    destruct (block_of_Some _ _ _ _ Hblock)
      as (Hrange & _ & _ & Hfind & _ & Hend & Hlt & Hext).
    destruct (find_case_Some _ _ _ Hfind) as (Hbelow & Hlabel & _).
    cbn [patched lines]. split; [rewrite length_patch_at; lia|].
    intros j Hj Hjlen.
    destruct (decide (j = case_idx)) as [->|Hne].
    + assert (Hanchor : patch_at (lines st) case_idx end_idx !!! case_idx
                        = opened (lines st !!! case_idx)).
      { apply list_lookup_total_correct, patch_at_lookup_anchor; lia. }
      rewrite Hanchor. apply evolved_opened; [constructor|].
      rewrite <- matches_case_re. exact Hlabel.
    + rewrite (lookup_total_eq (patch_at (lines st) case_idx end_idx)
                 (lines st) j j); [constructor|].
      apply patch_at_lookup_before; lia.
  - destruct (raises st line_num); [discriminate|]. intros [= <-] _.
    apply prefix_evolved_refl.
Qed.

Lemma run_prefix_evolved m st line_numbers st' :
  run st line_numbers = Some st' ->
  Forall (fun t => (m <= Z.to_nat t)%nat) line_numbers ->
  prefix_evolved m (lines st) (lines st').
Proof.
  intros Hrun Hall. revert st Hrun.
  induction Hall as [|t more Ht _ IH]; intros st; simpl.
  - intros [= <-]. apply prefix_evolved_refl.
  - destruct (step st t) as [st1|] eqn:Hstep; [|discriminate]. intros Hrun.
    eapply prefix_evolved_trans; [eapply step_prefix_evolved; eassumption|].
    apply IH, Hrun.
Qed.

Lemma run_beyond_end st line_numbers st' :
  run st line_numbers = Some st' ->
  Forall (fun t => t > Z.of_nat (length (lines st))) line_numbers ->
  st' = st.
Proof.
  intros Hrun Hall. revert Hrun.
  induction Hall as [|t more Ht _ IH]; simpl.
  - intros [= <-]. reflexivity.
  - rewrite (step_out_of_range _ _ Ht). exact IH.
Qed.

Lemma find_case_ext ls ls' n :
  (forall j, (j < n)%nat ->
     matches case_re (ls' !!! j) = matches case_re (ls !!! j)) ->
  find_case ls' n = find_case ls n.
Proof.
  induction n as [|k IH]; intros H; simpl; [reflexivity|].
  rewrite (H k) by lia. rewrite IH; [reflexivity|].
  intros j Hj. apply H. lia.
Qed.

Lemma find_case_evolved m ls ls' n :
  prefix_evolved m ls ls' -> (n <= m)%nat -> (n <= length ls)%nat ->
  find_case ls' n = find_case ls n.
Proof.
  intros [_ H] Hn Hlen. apply find_case_ext. intros j Hj.
  rewrite !matches_case_re. apply evolved_label, H; lia.
Qed.

Lemma braced_evolved m ls ls' case_idx :
  prefix_evolved m ls ls' -> (case_idx + 1 < m)%nat ->
  (case_idx < length ls)%nat ->
  braced ls case_idx = true -> braced ls' case_idx = true.
Proof.
  intros [Hlen H] Hm Hin. unfold braced.
  intros Hb. apply orb_true_iff in Hb as [Hb|Hb]; apply orb_true_iff.
  - left. eapply evolved_brace; [apply H; lia|exact Hb].
  - right. apply andb_true_iff in Hb as [Hnext Hb].
    apply bool_decide_eq_true_1 in Hnext.
    apply andb_true_iff. split; [apply bool_decide_eq_true_2; lia|].
    eapply evolved_brace; [apply H; lia|exact Hb].
Qed.

Lemma quiet_intro ls line_num :
  block_of (State ls [] ∅) line_num = None ->
  raises (State ls [] ∅) line_num = false ->
  quiet ls line_num.
Proof. intros Hb Hr. unfold quiet. rewrite step_spec, Hb, Hr. reflexivity. Qed.

(** A target that the first run did not patch, and did not pass over for
    the modified-line set, is not patched on the lines the run leaves. *)
Lemma block_of_None_evolved st line_num ls' :
  block_of st line_num = None ->
  line_num ∉ modified_lines st ->
  prefix_evolved (Z.to_nat line_num) (lines st) ls' ->
  (line_num > Z.of_nat (length (lines st)) -> ls' = lines st) ->
  block_of (State ls' [] ∅) line_num = None.
Proof.
  intros Hnone Hnin Hev Hbeyond.
  unfold block_of. cbn [lines modified_lines].
  destruct (decide (1 <= line_num <= Z.of_nat (length ls'))) as [Hr|Hr].
  2:{ rewrite (bool_decide_eq_false_2 _ Hr). reflexivity. }
  assert (Hin : line_num <= Z.of_nat (length (lines st))).
  { destruct (decide (line_num <= Z.of_nat (length (lines st)))) as [H|H];
      [exact H|]. rewrite Hbeyond in Hr by lia. lia. }
  unfold block_of in Hnone.
  rewrite bool_decide_eq_true_2 in Hnone by lia.
  rewrite (bool_decide_eq_false_2 _ Hnin) in Hnone. cbn [andb negb] in Hnone.
  rewrite (bool_decide_eq_true_2 _ Hr).
  rewrite bool_decide_eq_false_2 by set_solver. cbn [andb negb].
  set (i := Z.to_nat (line_num - 1)) in *.
  destruct Hev as [Hlen Hev'].
  assert (Hev : prefix_evolved (Z.to_nat line_num) (lines st) ls') by (split; assumption).
  rewrite (list_lookup_lookup_total_lt (lines st) i) in Hnone by lia.
  rewrite (list_lookup_lookup_total_lt ls' i) by lia.
  rewrite (evolved_declaration (lines st !!! i) (ls' !!! i)) by (apply Hev'; lia).
  destruct (found decl_re (lines st !!! i)); [|reflexivity].
  rewrite (find_case_evolved (Z.to_nat line_num) (lines st) ls' i Hev) by lia.
  destruct (find_case (lines st) i) as [case_idx|] eqn:Hfind; [|reflexivity].
  destruct (find_case_Some _ _ _ Hfind) as (Hbelow & _ & _).
  destruct (braced (lines st) case_idx) eqn:Hb; [|discriminate].
  rewrite (braced_evolved (Z.to_nat line_num) (lines st) ls' case_idx Hev)
    by (try assumption; lia).
  reflexivity.
Qed.

Lemma step_modified_positive st line_num st' :
  step st line_num = Some st' ->
  (forall k, k ∈ modified_lines st -> 1 <= k) ->
  forall k, k ∈ modified_lines st' -> 1 <= k.
Proof.
  rewrite step_spec.
  destruct (block_of st line_num) as [[case_idx end_idx]|] eqn:Hblock.
  - intros [= <-] Hpos k. cbn [patched modified_lines].
    destruct (block_of_Some _ _ _ _ Hblock)
      as (Hrange & _ & _ & Hfind & _ & Hend & Hlt & Hext).
    rewrite elem_of_union, elem_of_marked by lia.
    intros [Hk|Hk]; [apply Hpos, Hk|lia].
  - destruct (raises st line_num); [discriminate|]. intros [= <-] Hpos. exact Hpos.
Qed.

Lemma step_then_quiet st line_num st1 more st2 :
  step st line_num = Some st1 ->
  hidden st line_num = false ->
  (forall k, k ∈ modified_lines st -> 1 <= k) ->
  run st1 more = Some st2 ->
  Forall (Z.le line_num) more ->
  quiet (lines st2) line_num.
Proof.
  intros Hstep Hhidden Hpos Hrun Hmore.
  assert (Hev : prefix_evolved (Z.to_nat line_num) (lines st1) (lines st2)).
  { apply (run_prefix_evolved _ _ _ _ Hrun).
    eapply Forall_impl; [exact Hmore|]. intros t Ht. simpl in Ht. lia. }
  assert (Hbeyond : line_num > Z.of_nat (length (lines st1)) ->
                    lines st2 = lines st1).
  { intros Hgt. f_equal. apply (run_beyond_end _ _ _ Hrun).
    eapply Forall_impl; [exact Hmore|]. intros t Ht. simpl in Ht. lia. }
  destruct (decide (line_num ∈ modified_lines st)) as [Hin|Hnin].
  - (* passed over for the set, but not hidden *)
    rewrite (step_modified _ _ Hin) in Hstep. injection Hstep as <-.
    unfold hidden in Hhidden.
    rewrite (bool_decide_eq_true_2 _ Hin), andb_true_l in Hhidden.
    apply bool_decide_eq_false_1 in Hhidden.
    apply quiet_intro.
    + apply (block_of_None_evolved (State (lines st) (changes st) ∅));
        try assumption; [|set_solver].
      destruct (block_of _ line_num); [|reflexivity].
      exfalso. apply Hhidden. eauto.
    + unfold raises. cbn [lines]. specialize (Hpos _ Hin).
      rewrite bool_decide_eq_false_2 by lia. reflexivity.
  - revert Hstep. rewrite step_spec.
    destruct (block_of st line_num) as [[case_idx end_idx]|] eqn:Hblock.
    + intros [= <-].
      destruct (block_of_Some _ _ _ _ Hblock)
        as (Hrange & _ & _ & Hfind & _ & Hend & Hlt & Hext).
      cbn [patched lines] in Hev.
      pose proof (length_patch_at (lines st) case_idx end_idx) as Hlen.
      apply quiet_intro.
      * apply (closed_anchor_blocks _ case_idx).
        -- rewrite (find_case_evolved _ _ _ _ Hev) by lia.
           apply patch_at_find_case; [lia|assumption].
        -- apply (braced_evolved _ _ _ _ Hev); [lia|lia|].
           apply patch_at_braced. lia.
      * unfold raises. rewrite bool_decide_eq_false_2 by lia. reflexivity.
    + destruct (raises st line_num) eqn:Hraises; [discriminate|]. intros [= <-].
      apply quiet_intro.
      * apply (block_of_None_evolved st); assumption.
      * unfold raises in *. cbn [lines modified_lines].
        rewrite (bool_decide_eq_false_2 _ Hnin), andb_true_r in Hraises.
        apply bool_decide_eq_false_1 in Hraises.
        destruct Hev as [Hlen _].
        rewrite bool_decide_eq_false_2 by lia. reflexivity.
Qed.

Lemma run_then_quiet line_numbers :
  StronglySorted Z.le line_numbers ->
  forall st st2,
    (forall k, k ∈ modified_lines st -> 1 <= k) ->
    nothing_hidden st line_numbers = true ->
    run st line_numbers = Some st2 ->
    Forall (quiet (lines st2)) line_numbers.
Proof.
  induction 1 as [|line_num more Hsorted IH Hle]; intros st st2 Hpos Hun Hrun.
  - constructor.
  - simpl in Hun, Hrun.
    destruct (step st line_num) as [st1|] eqn:Hstep; [|discriminate].
    apply andb_true_iff in Hun as [Hhidden Hun].
    apply negb_true_iff in Hhidden.
    constructor.
    + eapply step_then_quiet; eassumption.
    + eapply IH; [|eassumption|eassumption].
      apply (step_modified_positive _ _ _ Hstep Hpos).
Qed.

Lemma run_quiet ls line_numbers :
  Forall (quiet ls) line_numbers ->
  run (State ls [] ∅) line_numbers = Some (State ls [] ∅).
Proof.
  induction 1 as [|line_num more Hq _ IH]; simpl; [reflexivity|].
  unfold quiet in Hq. rewrite Hq. exact IH.
Qed.

(** The second run changes nothing when the modified-line set hid no patch
    from the first run. *)
Lemma second_patch_nothing_hidden ls line_numbers st1 :
  patch ls line_numbers = Some st1 ->
  nothing_hidden (State ls [] ∅) (sorted line_numbers) = true ->
  patch (lines st1) line_numbers = Some (State (lines st1) [] ∅).
Proof.
  unfold patch. intros Hrun Hun. apply run_quiet.
  eapply run_then_quiet; [apply sorted_strongly| |eassumption|eassumption].
  intros k Hk. cbn [modified_lines] in Hk. set_solver.
Qed.

Lemma nothing_hidden_single ls line_num :
  nothing_hidden (State ls [] ∅) (sorted [line_num]) = true.
Proof.
  rewrite sorted_singleton. cbn [nothing_hidden]. unfold hidden.
  cbn [modified_lines].
  rewrite (bool_decide_eq_false_2 (line_num ∈ ∅)) by set_solver.
  cbn [andb negb]. destruct (step _ line_num); reflexivity.
Qed.

Lemma nothing_hidden_same_label ls line_num line_num' case_idx end_idx :
  block_of (State ls [] ∅) line_num = Some (case_idx, end_idx) ->
  line_num <= line_num' ->
  find_case ls (Z.to_nat (line_num' - 1)) = Some case_idx ->
  nothing_hidden (State ls [] ∅) (sorted [line_num; line_num']) = true.
Proof.
  intros Hblock Hle Hfind.
  destruct (block_of_Some _ _ _ _ Hblock)
    as (Hrange & _ & _ & _ & _ & Hend & Hlt & Hext).
  replace (sorted [line_num; line_num']) with [line_num; line_num'].
  2:{ simpl. rewrite (proj2 (Z.leb_le _ _) Hle). reflexivity. }
  cbn [nothing_hidden]. rewrite step_spec, Hblock.
  unfold hidden at 1. cbn [modified_lines].
  rewrite (bool_decide_eq_false_2 (line_num ∈ ∅)) by set_solver.
  cbn [andb negb].
  unfold hidden. cbn [patched lines changes].
  rewrite patched_block_stays_closed by (try assumption; cbn [lines] in *; lia).
  rewrite (bool_decide_eq_false_2 (is_Some None)) by (intros [x Hx]; discriminate).
  rewrite andb_false_r. cbn [negb andb].
  destruct (step _ line_num'); reflexivity.
Qed.

End SecondRun.

(** ** Reading back what was written *)
Section ReadBack.
Import CaseBlocks.

Lemma string_ind2 (P : string -> Prop) :
  P EmptyString ->
  (forall c, P (String c EmptyString)) ->
  (forall c d s, P s -> P (String d s) -> P (String c (String d s))) ->
  forall s, P s.
Proof.
  intros H0 H1 H2 s.
  assert (H : P s /\ forall c, P (String c s)).
  { induction s as [|d s [IHs IHc]].
    - split; [exact H0|exact H1].
    - split; [apply IHc|]. intros c. apply H2; [exact IHs|apply IHc]. }
  apply H.
Qed.

Lemma translate_cr_lf s :
  translate_newlines (String "013" (String "010" s))
  = String "010" (translate_newlines s).
Proof. reflexivity. Qed.

Lemma translate_cr d s :
  d <> "010"%char ->
  translate_newlines (String "013" (String d s))
  = String "010" (translate_newlines (String d s)).
Proof.
  intros H. cbn [translate_newlines Ascii.eqb Bool.eqb].
  rewrite (proj2 (Ascii.eqb_neq d "010") H). reflexivity.
Qed.

Lemma translate_other c s :
  c <> "013"%char ->
  translate_newlines (String c s) = String c (translate_newlines s).
Proof.
  intros H. cbn [translate_newlines].
  rewrite (proj2 (Ascii.eqb_neq c "013") H). reflexivity.
Qed.

Lemma translate_newlines_no_cr s :
  contains_char "013" (translate_newlines s) = false.
Proof.
  induction s as [|c|c d s IHs IHd] using string_ind2.
  - reflexivity.
  - cbn [translate_newlines]. destruct (Ascii.eqb_spec c "013") as [->|Hc].
    + reflexivity.
    + cbn [contains_char]. rewrite orb_false_r. apply Ascii.eqb_neq, Hc.
  - cbn [translate_newlines]. destruct (Ascii.eqb_spec c "013") as [->|Hc].
    + destruct (Ascii.eqb d "010"); cbn [contains_char]; [exact IHs|exact IHd].
    + cbn [contains_char]. rewrite (proj2 (Ascii.eqb_neq c "013") Hc).
      exact IHd.
Qed.

Lemma translate_newlines_id s :
  contains_char "013" s = false -> translate_newlines s = s.
Proof.
  induction s as [|c s IH]; [reflexivity|].
  cbn [contains_char translate_newlines]. intros H.
  apply orb_false_iff in H as [Hc Hs]. rewrite Hc, (IH Hs). reflexivity.
Qed.

Lemma endswith_char_cons c s x :
  s <> EmptyString -> endswith_char (String c s) x = endswith_char s x.
Proof. destruct s; [contradiction|reflexivity]. Qed.

Lemma translate_newlines_nonempty s :
  s <> EmptyString -> translate_newlines s <> EmptyString.
Proof.
  destruct s as [|c s]; [contradiction|]. intros _. cbn [translate_newlines].
  destruct (Ascii.eqb c "013"); [|discriminate].
  destruct s as [|d s]; [discriminate|]. destruct (Ascii.eqb d "010"); discriminate.
Qed.

Lemma translate_newlines_ends s :
  ends_with_newline s = true ->
  ends_with_newline (translate_newlines s) = true.
Proof.
  induction s as [|c|c d s IHs IHd] using string_ind2.
  - reflexivity.
  - cbn. destruct (Ascii.eqb_spec c "013") as [->|Hc]; [reflexivity|].
    cbn. rewrite (proj2 (Ascii.eqb_neq c "013") Hc), !orb_false_r.
    intros H. rewrite H. reflexivity.
  - intros H.
    assert (Hd : ends_with_newline (String d s) = true).
    { unfold ends_with_newline in *.
      rewrite !endswith_char_cons in H by discriminate. exact H. }
    specialize (IHd Hd).
    assert (Htail : forall t, t <> EmptyString ->
              ends_with_newline t = true ->
              forall x, ends_with_newline (String x t) = true).
    { intros t Ht Hend x. unfold ends_with_newline in *.
      rewrite !endswith_char_cons by assumption.
      destruct t; [contradiction|exact Hend]. }
    destruct (Ascii.eqb_spec c "013") as [->|Hc].
    + destruct (Ascii.eqb_spec d "010") as [->|Hdn].
      * rewrite translate_cr_lf.
        destruct s as [|e s]; [reflexivity|].
        apply Htail; [apply translate_newlines_nonempty; discriminate|].
        apply IHs. unfold ends_with_newline in *.
        rewrite !endswith_char_cons in Hd by discriminate. exact Hd.
      * rewrite translate_cr by assumption.
        apply Htail; [apply translate_newlines_nonempty; discriminate|exact IHd].
    + rewrite translate_other by assumption.
      apply Htail; [apply translate_newlines_nonempty; discriminate|exact IHd].
Qed.

Lemma terminated_nonempty l : terminated l = true -> l <> EmptyString.
Proof. destruct l; [discriminate|discriminate]. Qed.

(** A text without carriage returns that ends with a newline splits into
    terminated lines. *)
Lemma split_lines_terminated s :
  contains_char "013" s = false -> ends_with_newline s = true ->
  Forall (fun l => terminated l = true) (split_lines s).
Proof.
  induction s as [|c s IH]; [constructor|].
  cbn [contains_char]. intros Hcr Hend.
  apply orb_false_iff in Hcr as [Hc Hcr].
  cbn [split_lines]. destruct (Ascii.eqb_spec c "010") as [->|Hn].
  - constructor; [reflexivity|]. apply IH; [exact Hcr|].
    destruct s as [|d s]; [reflexivity|].
    unfold ends_with_newline in *.
    rewrite !endswith_char_cons in Hend by discriminate. exact Hend.
  - destruct s as [|d s].
    { cbn in Hend. rewrite (proj2 (Ascii.eqb_neq c "010") Hn), Hc in Hend.
      discriminate. }
    assert (Hend' : ends_with_newline (String d s) = true).
    { unfold ends_with_newline in *.
      rewrite !endswith_char_cons in Hend by discriminate. exact Hend. }
    specialize (IH Hcr Hend').
    destruct (split_lines (String d s)) as [|l ls] eqn:Hsplit.
    { exfalso. revert Hsplit. cbn [split_lines].
      destruct (Ascii.eqb d "010"); [discriminate|].
      destruct (split_lines s); discriminate. }
    inversion IH as [|? ? Hl Hls]; subst.
    constructor; [|exact Hls].
    cbn [terminated]. destruct l as [|e l]; [discriminate|].
    rewrite Hl, andb_true_r. unfold not_newline.
    rewrite (proj2 (Ascii.eqb_neq c "010") Hn), Hc. reflexivity.
Qed.

Lemma readlines_terminated text :
  ends_with_newline text = true ->
  Forall (fun l => terminated l = true) (readlines text).
Proof.
  intros H. unfold readlines. apply split_lines_terminated.
  - apply translate_newlines_no_cr.
  - apply translate_newlines_ends, H.
Qed.

Lemma terminated_no_cr l : terminated l = true -> contains_char "013" l = false.
Proof.
  induction l as [|c l IH]; [discriminate|].
  cbn [terminated contains_char]. destruct l as [|d l].
  - intros H. apply Ascii.eqb_eq in H. subst c. reflexivity.
  - intros H. apply andb_true_iff in H as [Hc Hl].
    unfold not_newline in Hc. apply andb_true_iff in Hc as [_ Hc].
    apply negb_true_iff in Hc. rewrite Hc. apply IH, Hl.
Qed.

Lemma split_lines_line l rest :
  terminated l = true -> split_lines (l +:+ rest) = l :: split_lines rest.
Proof.
  induction l as [|c l IH]; [discriminate|].
  cbn [terminated]. destruct l as [|d l].
  - intros H. apply Ascii.eqb_eq in H. subst c. reflexivity.
  - intros H. apply andb_true_iff in H as [Hc Hl].
    unfold not_newline in Hc. apply andb_true_iff in Hc as [Hc _].
    apply negb_true_iff in Hc.
    change (String c (String d l) +:+ rest) with (String c (String d l +:+ rest)).
    cbn [split_lines]. rewrite Hc, (IH Hl). reflexivity.
Qed.

Lemma readlines_join ls :
  Forall (fun l => terminated l = true) ls -> readlines (join ls) = ls.
Proof.
  intros H. unfold readlines.
  assert (Hcr : contains_char "013" (join ls) = false).
  { induction H as [|l ls Hl _ IH]; [reflexivity|].
    cbn [join foldr]. rewrite contains_char_append.
    rewrite (terminated_no_cr _ Hl). exact IH. }
  rewrite (translate_newlines_id _ Hcr).
  induction H as [|l ls Hl Hls IH]; [reflexivity|].
  cbn [join foldr]. rewrite (split_lines_line _ _ Hl). f_equal. apply IH.
  cbn [join foldr] in Hcr. rewrite contains_char_append in Hcr.
  apply orb_false_iff in Hcr. apply Hcr.
Qed.

End ReadBack.

(** ** The block patcher keeps lines terminated *)
Section Terminated.
Import CaseBlocks.

Lemma terminated_append x t :
  all_chars not_newline x = true -> terminated t = true ->
  terminated (x +:+ t) = true.
Proof.
  intros Hx Ht. induction x as [|c x IH]; [exact Ht|].
  cbn [all_chars] in Hx. apply andb_true_iff in Hx as [Hc Hx].
  specialize (IH Hx). cbn [String.append terminated].
  destruct (x +:+ t) as [|d r]; [discriminate|].
  rewrite Hc, IH. reflexivity.
Qed.

Lemma rstrip_clean l :
  terminated l = true -> all_chars not_newline (rstrip l) = true.
Proof.
  induction l as [|c l IH]; [discriminate|].
  cbn [terminated]. destruct l as [|d l].
  - intros H. apply Ascii.eqb_eq in H. subst c. reflexivity.
  - intros H. apply andb_true_iff in H as [Hc Hl]. specialize (IH Hl).
    cbn [rstrip] in *. destruct (rstrip l) as [|e r].
    + destruct (is_space d).
      * destruct (is_space c); cbn [all_chars]; [reflexivity|].
        rewrite Hc. reflexivity.
      * cbn [all_chars] in *. rewrite Hc, IH. reflexivity.
    + cbn [all_chars] in *. rewrite Hc, IH. reflexivity.
Qed.

Lemma spaces_clean n : all_chars not_newline (spaces n) = true.
Proof. induction n as [|n IH]; [reflexivity|exact IH]. Qed.

Lemma terminated_opened l : terminated l = true -> terminated (opened l) = true.
Proof.
  intros H. unfold opened. apply terminated_append; [|reflexivity].
  apply rstrip_clean, H.
Qed.

Lemma terminated_closer n : terminated (closer n) = true.
Proof.
  unfold closer. apply terminated_append; [apply spaces_clean|reflexivity].
Qed.

Lemma step_terminated st line_num st' :
  step st line_num = Some st' ->
  Forall (fun l => terminated l = true) (lines st) ->
  Forall (fun l => terminated l = true) (lines st').
Proof.
  rewrite step_spec.
  destruct (block_of st line_num) as [[case_idx end_idx]|] eqn:Hblock.
  - intros [= <-] Hall. cbn [patched lines]. unfold patch_at, insert_at.
    destruct (block_of_Some _ _ _ _ Hblock)
      as (Hrange & _ & _ & Hfind & _ & Hend & Hlt & Hext).
    assert (Hins : Forall (fun l => terminated l = true)
              (<[case_idx := opened (lines st !!! case_idx)]> (lines st))).
    { apply Forall_insert; [exact Hall|]. apply terminated_opened.
      rewrite Forall_lookup in Hall. apply (Hall case_idx).
      apply list_lookup_lookup_total_lt. lia. }
    apply Forall_app. split; [apply Forall_take, Hins|].
    constructor; [apply terminated_closer|apply Forall_drop, Hins].
  - destruct (raises st line_num); [discriminate|]. intros [= <-] H. exact H.
Qed.

Lemma run_terminated st line_numbers st' :
  run st line_numbers = Some st' ->
  Forall (fun l => terminated l = true) (lines st) ->
  Forall (fun l => terminated l = true) (lines st').
Proof.
  revert st. induction line_numbers as [|n more IH]; intros st; simpl.
  - intros [= <-] H. exact H.
  - destruct (step st n) as [st1|] eqn:Hstep; [|discriminate].
    intros Hrun Hall. apply (IH _ Hrun). apply (step_terminated _ _ _ Hstep Hall).
Qed.

(** The second call of [fix_case_block] on a file that ends with a newline,
    when the modified-line set hid no patch from the first call. *)
Lemma second_call_nothing_hidden w file_path text line_numbers st1 :
  files w !! file_path = Some text ->
  ends_with_newline text = true ->
  patch (readlines text) line_numbers = Some st1 ->
  nothing_hidden (State (readlines text) [] ∅) (sorted line_numbers) = true ->
  let w1 := world_of (fix_case_block file_path line_numbers w) in
  fix_case_block file_path line_numbers w1 =
    Returned 0 (emit (EvRead file_path) w1).
Proof.
  intros Hfile Hend Hpatch Hun w1.
  assert (Hw1 : w1 = World (if nonempty (changes st1)
                            then <[file_path := join (lines st1)]> (files w)
                            else files w)
                       (trace w ++ events_of file_path st1)).
  { subst w1. rewrite (fix_case_block_patched _ _ _ _ _ Hfile Hpatch).
    reflexivity. }
  clearbody w1.
  pose proof (second_patch_nothing_hidden _ _ _ Hpatch Hun) as Hsecond.
  destruct (changes st1) as [|c cs] eqn:Hcs.
  - assert (Hfile1 : files w1 !! file_path = Some text).
    { subst w1. cbn [nonempty files]. exact Hfile. }
    rewrite (fix_case_block_found _ _ _ _ Hfile1), Hpatch, Hcs. reflexivity.
  - assert (Hfile1 : files w1 !! file_path = Some (join (lines st1))).
    { subst w1. cbn [nonempty files]. apply lookup_insert_eq. }
    rewrite (fix_case_block_found _ _ _ _ Hfile1).
    rewrite readlines_join.
    + rewrite Hsecond. reflexivity.
    + apply (run_terminated _ _ _ Hpatch). apply readlines_terminated, Hend.
Qed.

(** C1, as the code has it. A second run on the lines the first run left,
    with the same targets, changes nothing and counts zero changes, provided
    the modified-line set hid no patch from the first run: every target that
    was passed over for being in the set would have been skipped without it;
    a run on a single target is always such a run, and so is a run on two
    targets under one case label. The same holds for
    [fix_case_block] called twice on a file that ends with a newline.
    Without the proviso the second run can patch again. *)
Theorem second_run_is_noop_when_nothing_hidden
    (file_lines : list string) (line_numbers : list Z) (st1 : state) :
  patch file_lines line_numbers = Some st1 ->
  nothing_hidden (State file_lines [] ∅) (sorted line_numbers) = true ->
  patch (lines st1) line_numbers = Some (State (lines st1) [] ∅) /\
  (forall w file_path text,
     files w !! file_path = Some text ->
     readlines text = file_lines ->
     ends_with_newline text = true ->
     let w1 := world_of (fix_case_block file_path line_numbers w) in
     fix_case_block file_path line_numbers w1 =
       Returned 0 (emit (EvRead file_path) w1)) /\
  (forall ls line_num,
     nothing_hidden (State ls [] ∅) (sorted [line_num]) = true) /\
  (forall ls line_num line_num' case_idx end_idx,
     block_of (State ls [] ∅) line_num = Some (case_idx, end_idx) ->
     line_num <= line_num' ->
     find_case ls (Z.to_nat (line_num' - 1)) = Some case_idx ->
     nothing_hidden (State ls [] ∅) (sorted [line_num; line_num']) = true).
Proof.
  intros Hpatch Hun. split; [|split; [|split]].
  - apply (second_patch_nothing_hidden _ _ _ Hpatch Hun).
  - intros w file_path text Hfile Hlines Hend. subst file_lines.
    apply (second_call_nothing_hidden _ _ _ _ _ Hfile Hend Hpatch Hun).
  - apply nothing_hidden_single.
  - apply nothing_hidden_same_label.
Qed.

End Terminated.

(** ** The blank-line cleanup of fix-no-explicit-any.py *)
Section Cleanup.
Import NoExplicitAny.


Lemma clean_head flag ls x rest :
  clean flag ls = x :: rest -> is_empty x = true -> flag = false.
Proof.
  revert flag. induction ls as [|l ls IH]; intros flag; simpl; [discriminate|].
  destruct (is_empty l) eqn:Hl; destruct flag; simpl; try reflexivity.
  - intros H. apply (IH _ H).
  - intros [= -> _] Hx. congruence.
Qed.

(** No two lines next to each other in the cleaned lines are both blank. *)
Lemma clean_no_blank_pair flag ls i x y :
  clean flag ls !! i = Some x -> clean flag ls !! S i = Some y ->
  is_empty x = true -> is_empty y = false.
Proof.
  revert flag i. induction ls as [|l ls IH]; intros flag i; simpl; [discriminate|].
  destruct (is_empty l && flag) eqn:Hskip; [apply IH|].
  destruct i as [|i]; simpl.
  - intros [= ->] Hy Hx.
    destruct (clean (is_empty x) ls) as [|z rest] eqn:Hc; [discriminate|].
    simpl in Hy. injection Hy as ->.
    destruct (is_empty y) eqn:Hyb; [|reflexivity].
    pose proof (clean_head _ _ _ _ Hc Hyb). congruence.
  - apply IH.
Qed.


Lemma clean_flag_text flag l rest :
  is_empty l = false -> clean flag (l :: rest) = l :: clean false rest.
Proof. intros H. simpl. rewrite H. reflexivity. Qed.




Variable compile_template : string -> option (string -> string).


End Cleanup.

(** ** The claims at concrete inputs *)
Section Witnesses.
Import CaseBlocks Samples.

(** C1 as the spec has it fails: in a switch nested in a case, the inner
    declaration is passed over by the first run, for the modified-line set,
    and patched by the second run, which so changes the lines and counts one
    change. *)
Lemma second_run_patches_again :
  StronglySorted Z.le [3; 6] /\
  exists st1 st2,
    patch nested_switch [3; 6] = Some st1 /\
    patch (lines st1) [3; 6] = Some st2 /\
    length (changes st1) = 1%nat /\
    length (changes st2) = 1%nat /\
    lines st2 <> lines st1 /\
    lines st2 !! 4%nat = Some (ln "      case 1: {") /\
    let w1 := world_of (fix_case_block "a.ts" [3; 6] (on_disk "a.ts" nested_switch)) in
    value_of (fix_case_block "a.ts" [3; 6] w1) = Some 1 /\
    files (world_of (fix_case_block "a.ts" [3; 6] w1)) !! "a.ts"
      = Some (join (lines st2)).
Proof.
  split; [repeat constructor; lia|].
  eexists. eexists.
  split; [vm_compute; reflexivity|].
  split; [vm_compute; reflexivity|].
  split; [reflexivity|]. split; [reflexivity|]. split; [|split].
  - intros H. apply (f_equal length) in H. vm_compute in H. discriminate.
  - reflexivity.
  - vm_compute. split; reflexivity.
Qed.

Lemma second_run_is_noop_when_nothing_hidden_witness :
  exists st1,
    patch two_declarations [2; 3] = Some st1 /\
    length (changes st1) = 1%nat /\
    nothing_hidden (State two_declarations [] ∅) (sorted [2; 3]) = true /\
    patch (lines st1) [2; 3] = Some (State (lines st1) [] ∅).
Proof.
  destruct (patch two_declarations [2; 3]) as [st1|] eqn:H1;
    [|vm_compute in H1; discriminate].
  exists st1. split; [reflexivity|].
  assert (Hun : nothing_hidden (State two_declarations [] ∅) (sorted [2; 3]) = true)
    by (vm_compute; reflexivity).
  split; [|split].
  - revert H1. vm_compute. intros [= <-]. reflexivity.
  - exact Hun.
  - exact (proj1 (second_run_is_noop_when_nothing_hidden
                    two_declarations [2; 3] st1 H1 Hun)).
Defined.

Lemma scenario_one_case_block_witness :
  patch one_case [2] =
    Some (State
            [ ln "  case 'x': {"; ln "    const y = 1;";
              ln "    doSomething(y);"; ln "    break;"; ln "      }" ]
            [Change 1 2 5] (marked 0 4)).
Proof. exact (proj1 (scenario_one_case_block 2 4)). Defined.

Lemma patched_range_is_marked_and_skipped_witness :
  block_of (State two_declarations [] ∅) 2 = Some (0%nat, 4%nat) /\
  patch two_declarations [2; 3] =
    Some (patched (State two_declarations [] ∅) 2 0 4) /\
  length (changes (patched (State two_declarations [] ∅) 2 0 4)) = 1%nat.
Proof.
  assert (H : block_of (State two_declarations [] ∅) 2 = Some (0%nat, 4%nat))
    by (vm_compute; reflexivity).
  destruct (patched_range_is_marked_and_skipped _ _ _ _ H)
    as (_ & _ & _ & _ & _ & Hchange & Hpatch).
  split; [exact H|]. split; [|rewrite Hchange; reflexivity].
  apply (Hpatch eq_refl eq_refl 3); [lia|]. left. simpl. lia.
Defined.


Lemma patch_is_local_witness :
  step (State one_case [] ∅) 2 = Some (patched (State one_case [] ∅) 2 0 4) /\
  lines (patched (State one_case [] ∅) 2 0 4) !! 1%nat = one_case !! 1%nat /\
  lines (patched (State one_case [] ∅) 2 0 4) !! 4%nat = Some (ln "      }").
Proof.
  assert (H : step (State one_case [] ∅) 2
              = Some (patched (State one_case [] ∅) 2 0 4))
    by (vm_compute; reflexivity).
  split; [exact H|].
  destruct (patch_is_local _ _ _ H) as [Hsame|(a & e & Hb & _ & _ & _ & _ & _ & _ & _ & Hclose & Hkeep & _)].
  - apply (f_equal (fun st => length (lines st))) in Hsame.
    vm_compute in Hsame. discriminate.
  - assert (Hae : Some (a, e) = Some (0%nat, 4%nat))
      by (rewrite <- Hb; vm_compute; reflexivity).
    injection Hae as -> ->.
    split; [apply Hkeep; lia|exact Hclose].
Defined.


Lemma missing_file_is_reported_and_skipped_witness :
  files (on_disk "a.ts" one_case) !! "b.ts" = None /\
  fix_case_block "b.ts" [2] (on_disk "a.ts" one_case) =
    Returned 0 (print (FileNotFound "b.ts") (on_disk "a.ts" one_case)) /\
  value_of (fix_all [("b.ts", [2]); ("a.ts", [2])] 0 (on_disk "a.ts" one_case))
    = Some 1.
Proof.
  assert (H : files (on_disk "a.ts" one_case) !! "b.ts" = None)
    by (vm_compute; reflexivity).
  destruct (missing_file_is_reported_and_skipped _ _ [2] H)
    as (Hcall & _ & _ & Hnext & _).
  split; [exact H|]. split; [exact Hcall|].
  rewrite Hnext. vm_compute. reflexivity.
Defined.

Lemma length_grows_by_count_witness :
  exists st,
    patch one_case [2] = Some st /\
    length (lines st) = (length one_case + length (changes st))%nat /\
    value_of (fix_case_block "a.ts" [2] (on_disk "a.ts" one_case)) = Some 1.
Proof.
  assert (Hfile : files (on_disk "a.ts" one_case) !! "a.ts" = Some (join one_case))
    by (vm_compute; reflexivity).
  destruct (length_grows_by_count _ _ _ [2] Hfile) as (Hlen & _ & _).
  assert (Hread : readlines (join one_case) = one_case) by (vm_compute; reflexivity).
  rewrite Hread in Hlen.
  destruct (patch one_case [2]) as [st|] eqn:Hpatch;
    [|vm_compute in Hpatch; discriminate].
  exists st. destruct (Hlen st eq_refl) as (H1 & H2 & _).
  split; [reflexivity|]. split; [exact H1|].
  rewrite H2. revert Hpatch. vm_compute. intros [= <-]. reflexivity.
Defined.



End Witnesses.

(** ** The block patcher: which target lists matter, and which raise *)
Section CaseBlocksTargets.
Import CaseBlocks Props.

Lemma insert_sorted_perm x l : insert_sorted x l ≡ₚ x :: l.
Proof.
  induction l as [|y l IH]; simpl; [reflexivity|].
  destruct (x <=? y); [reflexivity|].
  rewrite IH. apply Permutation_swap.
Qed.

Lemma sorted_perm l : sorted l ≡ₚ l.
Proof.
  induction l as [|x l IH]; simpl; [reflexivity|].
  rewrite insert_sorted_perm, IH. reflexivity.
Qed.

(** An iteration done twice in a row is done once. *)
Lemma step_twice st line_num st1 :
  step st line_num = Some st1 -> step st1 line_num = Some st1.
Proof.
  rewrite step_spec.
  destruct (block_of st line_num) as [[case_idx end_idx]|] eqn:Hblock.
  - intros [= <-].
    destruct (block_of_Some _ _ _ _ Hblock)
      as (Hrange & _ & _ & _ & _ & _ & Hlt & Hext).
    apply step_modified. cbn [patched modified_lines].
    apply elem_of_union. right. apply elem_of_marked; lia.
  - destruct (raises st line_num) eqn:Hr; [discriminate|]. intros [= <-].
    rewrite step_spec, Hblock, Hr. reflexivity.
Qed.

Lemma squash_cons_cons x y t :
  squash (x :: y :: t) = if x =? y then squash (y :: t) else x :: squash (y :: t).
Proof. reflexivity. Qed.

Lemma run_squash l : forall st, run st (squash l) = run st l.
Proof.
  induction l as [|x t IH]; intros st; [reflexivity|].
  destruct t as [|y t]; [reflexivity|].
  rewrite squash_cons_cons. destruct (Z.eqb_spec x y) as [->|Hne].
  - rewrite IH. cbn [run].
    destruct (step st y) as [st1|] eqn:Hstep; [|reflexivity].
    rewrite (step_twice _ _ _ Hstep). reflexivity.
  - cbn [run]. destruct (step st x) as [st1|]; [|reflexivity].
    apply (IH st1).
Qed.

Lemma elem_of_squash l x : x ∈ squash l <-> x ∈ l.
Proof.
  induction l as [|y t IH]; [reflexivity|].
  destruct t as [|z t]; [reflexivity|].
  rewrite squash_cons_cons. destruct (Z.eqb_spec y z) as [->|Hne].
  - rewrite IH. split; [intros H; right; exact H|].
    intros H. apply elem_of_cons in H as [->|H]; [left|exact H].
  - rewrite !(elem_of_cons _ x y), IH. reflexivity.
Qed.

Lemma squash_strict l :
  StronglySorted Z.le l -> StronglySorted Z.lt (squash l).
Proof.
  induction 1 as [|y t Ht IH Hy]; [constructor|].
  destruct t as [|z t]; [repeat constructor|].
  rewrite squash_cons_cons. destruct (Z.eqb_spec y z) as [->|Hne]; [exact IH|].
  constructor; [exact IH|].
  apply Forall_forall. intros x Hx. apply (proj1 (elem_of_squash _ _)) in Hx.
  rewrite Forall_forall in Hy. pose proof (Hy _ Hx) as Hle.
  apply elem_of_cons in Hx as [->|Hx].
  - pose proof (Hy z (list_elem_of_here _ _)). simpl in *. lia.
  - inversion Ht as [|? ? _ Hz]; subst. rewrite Forall_forall in Hz.
    pose proof (Hz _ Hx). pose proof (Hy z (list_elem_of_here _ _)).
    simpl in *. lia.
Qed.

Lemma strict_NoDup (l : list Z) : StronglySorted Z.lt l -> NoDup l.
Proof.
  induction 1 as [|x l _ IH Hx]; constructor; [|exact IH].
  intros Hin. rewrite Forall_forall in Hx. specialize (Hx _ Hin). lia.
Qed.

Lemma squash_sorted_ext l l' :
  (forall n, n ∈ l <-> n ∈ l') -> squash (sorted l) = squash (sorted l').
Proof.
  intros Hsame.
  pose proof (squash_strict _ (sorted_strongly l)) as H1.
  pose proof (squash_strict _ (sorted_strongly l')) as H2.
  apply (StronglySorted_unique_strong Z.lt); try assumption.
  - intros x1 x2 _ _ Ha Hb. lia.
  - apply NoDup_Permutation; [apply strict_NoDup, H1|apply strict_NoDup, H2|].
    intros n. rewrite !elem_of_squash, !sorted_perm. apply Hsame.
Qed.

(** X1. The loop depends on the set of target numbers only: their order in
    the table and their repetitions have no effect on the lines, the changes
    or the outcome of the call. *)
Theorem targets_matter_as_a_set
    (file_lines : list string) (line_numbers line_numbers' : list Z) :
  (forall n, n ∈ line_numbers <-> n ∈ line_numbers') ->
  patch file_lines line_numbers = patch file_lines line_numbers' /\
  forall w file_path,
    fix_case_block file_path line_numbers w =
    fix_case_block file_path line_numbers' w.
Proof.
  intros Hsame.
  assert (Hp : forall ls, patch ls line_numbers = patch ls line_numbers').
  { intros ls. unfold patch.
    rewrite <- (run_squash (sorted line_numbers)),
            <- (run_squash (sorted line_numbers')).
    rewrite (squash_sorted_ext _ _ Hsame). reflexivity. }
  split; [apply Hp|].
  intros w file_path. unfold fix_case_block.
  destruct (files w !! file_path); [|reflexivity]. rewrite Hp. reflexivity.
Qed.

Lemma step_keeps_length_le st line_num st' :
  step st line_num = Some st' -> (length (lines st) <= length (lines st'))%nat.
Proof.
  rewrite step_spec.
  destruct (block_of st line_num) as [[a e]|].
  - intros [= <-]. cbn [patched lines]. rewrite length_patch_at. lia.
  - destruct (raises st line_num); [discriminate|]. intros [= <-]. lia.
Qed.

Lemma run_None_target st line_numbers :
  run st line_numbers = None ->
  exists n, n ∈ line_numbers /\ n < 1 - Z.of_nat (length (lines st)).
Proof.
  revert st. induction line_numbers as [|m more IH]; intros st; simpl; [discriminate|].
  destruct (step st m) as [st1|] eqn:Hstep.
  - intros Hrun. destruct (IH _ Hrun) as (n & Hin & Hn).
    exists n. split; [right; exact Hin|].
    pose proof (step_keeps_length_le _ _ _ Hstep). lia.
  - intros _. exists m. split; [left|].
    revert Hstep. rewrite step_spec.
    destruct (block_of st m) as [[a e]|]; [discriminate|].
    unfold raises. destruct (bool_decide (m < _)) eqn:Hm; [|discriminate].
    intros _. apply bool_decide_eq_true_1 in Hm. exact Hm.
Qed.

Lemma step_nonpositive st line_num st' :
  line_num <= 0 -> step st line_num = Some st' -> st' = st.
Proof.
  intros Hn. rewrite step_spec. unfold block_of.
  rewrite bool_decide_eq_false_2 by lia. cbn [andb].
  destruct (raises st line_num); [discriminate|]. intros [= <-]. reflexivity.
Qed.

Lemma run_target_below line_numbers :
  StronglySorted Z.le line_numbers ->
  forall st n,
    (forall k, k ∈ modified_lines st -> 1 <= k) ->
    n ∈ line_numbers -> n < 1 - Z.of_nat (length (lines st)) ->
    run st line_numbers = None.
Proof.
  induction 1 as [|m more Hsorted IH Hm]; intros st n Hpos Hin Hn.
  - apply elem_of_nil in Hin. contradiction.
  - simpl. destruct (step st m) as [st1|] eqn:Hstep; [|reflexivity].
    apply elem_of_cons in Hin as [->|Hin].
    + exfalso. revert Hstep. rewrite step_spec. unfold block_of.
      rewrite bool_decide_eq_false_2 by lia. cbn [andb].
      unfold raises. rewrite bool_decide_eq_true_2 by lia.
      rewrite bool_decide_eq_false_2; [discriminate|].
      intros Hk. specialize (Hpos _ Hk). lia.
    + rewrite Forall_forall in Hm. specialize (Hm _ Hin). simpl in Hm.
      assert (st1 = st) as -> by (apply (step_nonpositive st m); [lia|exact Hstep]).
      apply (IH st n); assumption.
Qed.

(** X2. The loop dies with [IndexError] exactly when some target number is
    below [1 - len(lines)] for the lines read; any other target that is not
    positive wraps around to a line counted from the end and is skipped
    with nothing changed. A call that dies has read the file and written
    nothing. *)
Theorem raises_iff_target_below_range
    (file_lines : list string) (line_numbers : list Z) :
  (patch file_lines line_numbers = None <->
   exists n, n ∈ line_numbers /\ n < 1 - Z.of_nat (length file_lines)) /\
  (forall st line_num,
     line_num <= 0 -> line_num ∉ modified_lines st ->
     step st line_num =
       if bool_decide (line_num < 1 - Z.of_nat (length (lines st)))
       then None else Some st) /\
  (forall w file_path text,
     files w !! file_path = Some text -> readlines text = file_lines ->
     patch file_lines line_numbers = None ->
     fix_case_block file_path line_numbers w =
       Raised IndexError (emit (EvRead file_path) w)).
Proof.
  split; [|split].
  - split.
    + intros H. unfold patch in H.
      destruct (run_None_target _ _ H) as (n & Hin & Hn).
      exists n. split; [|exact Hn]. rewrite sorted_perm in Hin. exact Hin.
    + intros (n & Hin & Hn). unfold patch.
      apply (run_target_below _ (sorted_strongly _) _ n).
      * intros k Hk. cbn [modified_lines] in Hk. set_solver.
      * rewrite sorted_perm. exact Hin.
      * exact Hn.
  - intros st line_num Hn Hnin. rewrite step_spec. unfold block_of.
    rewrite bool_decide_eq_false_2 by lia. cbn [andb].
    unfold raises. rewrite (bool_decide_eq_false_2 _ Hnin), andb_true_r.
    reflexivity.
  - intros w file_path text Hfile <- Hnone.
    rewrite (fix_case_block_found _ _ _ _ Hfile), Hnone. reflexivity.
Qed.

End CaseBlocksTargets.

(** ** The block patcher: the record of changes *)
Section CaseBlocksRecord.
Import CaseBlocks Props.

(** The invariant of the loop on sorted targets: the records are sound for
    the current lines, no declaration line is above [hi], and both the
    declaration lines and the case lines ascend strictly. *)
Let inv (st : state) (hi : Z) : Prop :=
  Forall (sound_change (lines st) (modified_lines st)) (changes st) /\
  Forall (fun c => declaration_line c <= hi) (changes st) /\
  StronglySorted Z.lt (declaration_line <$> changes st) /\
  StronglySorted Z.lt (case_line <$> changes st) /\
  (forall k, k ∈ modified_lines st ->
     exists c, c ∈ changes st /\ case_line c <= k <= end_line c + 1).

Lemma strongly_sorted_snoc (l : list Z) x :
  StronglySorted Z.lt l -> Forall (fun y => y < x) l ->
  StronglySorted Z.lt (l ++ [x]).
Proof.
  intros Hl Hx. apply StronglySorted_app_2; [|exact Hl|repeat constructor].
  intros x1 x2 H1 H2. apply list_elem_of_singleton in H2 as ->.
  rewrite Forall_forall in Hx. apply Hx, H1.
Qed.

Lemma sound_change_anchor_below st line_num case_idx end_idx c :
  block_of st line_num = Some (case_idx, end_idx) ->
  sound_change (lines st) (modified_lines st) c ->
  declaration_line c <= line_num ->
  case_line c < Z.of_nat case_idx + 1 /\ declaration_line c < line_num.
Proof.
  intros Hblock (H1 & H2 & H3 & H4 & Hms & Hlabel & Hbrace) Hle.
  destruct (block_of_Some _ _ _ _ Hblock)
    as (Hrange & Hnin & _ & Hfind & Hbraced & _ & Hlt & Hext).
  destruct (find_case_Some _ _ _ Hfind) as (Hbelow & _ & Hbetween).
  set (a := Z.to_nat (case_line c - 1)) in *.
  assert (Hdecl : declaration_line c < line_num).
  { destruct (decide (declaration_line c = line_num)) as [Heq|Hne]; [|lia].
    exfalso. apply Hnin. apply Hms. lia. }
  split; [|exact Hdecl].
  destruct (lt_eq_lt_dec a case_idx) as [[Hlt'|Heq]|Hgt].
  - lia.
  - exfalso. subst case_idx. unfold braced in Hbraced.
    rewrite Hbrace in Hbraced. discriminate.
  - exfalso. specialize (Hbetween a).
    rewrite matches_case_re, Hlabel in Hbetween.
    assert (true = false) by (apply Hbetween; lia). discriminate.
Qed.

Lemma step_inv st hi line_num st' :
  inv st hi -> hi <= line_num -> step st line_num = Some st' ->
  inv st' line_num.
Proof.
  intros (Hsound & Hhi & Hd & Hc & Hm) Hle. rewrite step_spec.
  destruct (block_of st line_num) as [[case_idx end_idx]|] eqn:Hblock.
  - intros [= <-].
    destruct (block_of_Some _ _ _ _ Hblock)
      as (Hrange & Hnin & _ & Hfind & Hbraced & _ & Hlt & Hext).
    destruct (find_case_Some _ _ _ Hfind) as (Hbelow & Hlabel & _).
    assert (Hbelow_all : Forall (fun c =>
              case_line c < Z.of_nat case_idx + 1 /\ declaration_line c < line_num)
              (changes st)).
    { rewrite Forall_forall in Hsound, Hhi |- *. intros c Hin.
      apply (sound_change_anchor_below st line_num case_idx end_idx);
        [assumption|apply Hsound, Hin|]. specialize (Hhi _ Hin). simpl in Hhi. lia. }
    unfold inv. cbn [patched lines changes modified_lines].
    pose proof (length_patch_at (lines st) case_idx end_idx) as Hlen.
    split; [|split; [|split; [|split]]].
    + apply Forall_app. split.
      * rewrite Forall_forall in Hsound, Hbelow_all |- *. intros c Hin.
        destruct (Hsound _ Hin) as (H1 & H2 & H3 & H4 & Hms & Hl & Hb).
        destruct (Hbelow_all _ Hin) as [Hca _].
        assert (Hsame : patch_at (lines st) case_idx end_idx
                          !!! Z.to_nat (case_line c - 1)
                        = lines st !!! Z.to_nat (case_line c - 1)).
        { apply lookup_total_eq. apply patch_at_lookup_before; lia. }
        repeat split; try assumption; try lia.
        -- intros k Hk. apply elem_of_union. left. apply Hms, Hk.
        -- rewrite Hsame. exact Hl.
        -- rewrite Hsame. exact Hb.
      * constructor; [|constructor].
        assert (Hanchor : patch_at (lines st) case_idx end_idx !!! case_idx
                          = opened (lines st !!! case_idx)).
        { apply list_lookup_total_correct, patch_at_lookup_anchor; lia. }
        unfold sound_change. cbn [case_line declaration_line end_line].
        replace (Z.to_nat (Z.of_nat case_idx + 1 - 1)) with case_idx by lia.
        rewrite Hanchor.
        repeat split; try lia.
        -- intros k Hk. apply elem_of_union. right. apply elem_of_marked; lia.
        -- apply is_case_label_opened. rewrite <- matches_case_re. exact Hlabel.
        -- apply contains_brace_opened.
    + apply Forall_app. split.
      * eapply Forall_impl; [exact Hbelow_all|]. intros c [_ H]. simpl. lia.
      * repeat constructor. simpl. lia.
    + rewrite fmap_app. apply strongly_sorted_snoc; [exact Hd|].
      apply Forall_fmap. eapply Forall_impl; [exact Hbelow_all|].
      intros c [_ H]. exact H.
    + rewrite fmap_app. apply strongly_sorted_snoc; [exact Hc|].
      apply Forall_fmap. eapply Forall_impl; [exact Hbelow_all|].
      intros c [H _]. exact H.
    + intros k Hk. apply elem_of_union in Hk as [Hk|Hk].
      * destruct (Hm _ Hk) as (c & Hin & Hr). exists c.
        split; [apply elem_of_app; left; exact Hin|exact Hr].
      * apply elem_of_marked in Hk; [|lia]. eexists.
        split; [apply elem_of_app; right; apply list_elem_of_singleton; reflexivity|].
        simpl. lia.
  - destruct (raises st line_num); [discriminate|]. intros [= <-].
    unfold inv. repeat split; try assumption.
    eapply Forall_impl; [exact Hhi|]. intros c H. simpl in *. lia.
Qed.

Lemma run_inv line_numbers :
  StronglySorted Z.le line_numbers ->
  forall st hi st',
    inv st hi -> Forall (Z.le hi) line_numbers ->
    run st line_numbers = Some st' ->
    exists hi', inv st' hi'.
Proof.
  induction 1 as [|n more Hsorted IH Hn]; intros st hi st' Hinv Hhi; simpl.
  - intros [= <-]. exists hi. exact Hinv.
  - destruct (step st n) as [st1|] eqn:Hstep; [|discriminate]. intros Hrun.
    inversion Hhi as [|? ? Hle _]; subst.
    apply (IH st1 n st'); [|exact Hn|exact Hrun].
    apply (step_inv st hi); assumption.
Qed.

Lemma run_changes_from st line_numbers st' :
  run st line_numbers = Some st' ->
  exists new, changes st' = changes st ++ new /\
    Forall (fun c => declaration_line c ∈ line_numbers) new.
Proof.
  revert st. induction line_numbers as [|n more IH]; intros st; simpl.
  - intros [= <-]. exists []. rewrite app_nil_r. split; [reflexivity|constructor].
  - destruct (step st n) as [st1|] eqn:Hstep; [|discriminate]. intros Hrun.
    destruct (IH _ Hrun) as (new & Hnew & Hall).
    assert (Hall' : Forall (fun c => declaration_line c ∈ n :: more) new).
    { eapply Forall_impl; [exact Hall|]. intros c H. right. exact H. }
    revert Hstep. rewrite step_spec.
    destruct (block_of st n) as [[a e]|].
    + intros [= <-]. cbn [patched changes] in Hnew.
      eexists. rewrite Hnew, <- app_assoc. split; [reflexivity|].
      constructor; [left|exact Hall'].
    + destruct (raises st n); [discriminate|]. intros [= <-].
      exists new. split; assumption.
Qed.

(** X3. The record of changes that a run leaves is sound and ordered: every
    change has its case line above its declaration line and that above its
    end line, which lies within the lines; its declaration line is one of
    the targets; the line at its case line is a case label with an opening
    brace; the modified-line set is the union of the ranges from case line to
    end line + 1; and along the record both the declaration lines and the
    case lines ascend strictly, so that no target is patched twice and no
    case label is wrapped twice. *)
Theorem changes_are_sound_and_ordered
    (file_lines : list string) (line_numbers : list Z) (st : state) :
  patch file_lines line_numbers = Some st ->
  Forall (sound_change (lines st) (modified_lines st)) (changes st) /\
  Forall (fun c => declaration_line c ∈ line_numbers) (changes st) /\
  StronglySorted Z.lt (declaration_line <$> changes st) /\
  StronglySorted Z.lt (case_line <$> changes st) /\
  (forall k, k ∈ modified_lines st <->
     exists c, c ∈ changes st /\ case_line c <= k <= end_line c + 1).
Proof.
  unfold patch. intros Hrun.
  destruct (sorted line_numbers) as [|n0 rest] eqn:Hs.
  { simpl in Hrun. injection Hrun as <-. cbn [lines changes modified_lines].
    repeat split; try constructor.
    - intros Hk. apply elem_of_empty in Hk. contradiction.
    - intros (c & Hc & _). apply elem_of_nil in Hc. contradiction. }
  assert (Hinv0 : inv (State file_lines [] ∅) n0).
  { unfold inv. cbn [lines changes modified_lines].
    repeat split; try constructor.
    intros k Hk. apply elem_of_empty in Hk. contradiction. }
  assert (Hsorted : StronglySorted Z.le (n0 :: rest)).
  { rewrite <- Hs. apply sorted_strongly. }
  assert (Hlow : Forall (Z.le n0) (n0 :: rest)).
  { constructor; [lia|]. inversion Hsorted; assumption. }
  destruct (run_inv _ Hsorted _ _ _ Hinv0 Hlow Hrun)
    as (hi & Hsound & _ & Hd & Hc & Hm).
  destruct (run_changes_from _ _ _ Hrun) as (new & Hnew & Hall).
  cbn [changes app] in Hnew. subst new.
  split; [exact Hsound|]. split; [|split; [exact Hd|split; [exact Hc|]]].
  - eapply Forall_impl; [exact Hall|]. intros c Hin. simpl in Hin.
    rewrite <- Hs, sorted_perm in Hin. exact Hin.
  - intros k. split; [apply Hm|].
    intros (c & Hin & Hk). rewrite Forall_forall in Hsound.
    destruct (Hsound _ Hin) as (_ & _ & _ & _ & Hms & _). apply Hms, Hk.
Qed.

End CaseBlocksRecord.

(** ** The block patcher: what a run does to the lines as a whole *)
Section CaseBlocksFrame.
Import CaseBlocks Props.

Lemma wrapped_refl ls : wrapped ls ls.
Proof. induction ls; constructor; assumption. Qed.

Lemma insert_at_nil {A} i (x : A) : insert_at i x [] = [x].
Proof. unfold insert_at. rewrite take_nil, drop_nil. reflexivity. Qed.

Lemma insert_at_0 {A} (x : A) l : insert_at 0 x l = x :: l.
Proof. reflexivity. Qed.

Lemma insert_at_S {A} i (x y : A) l :
  insert_at (S i) x (y :: l) = y :: insert_at i x l.
Proof. reflexivity. Qed.

Lemma wrapped_insert_close ls ls' :
  wrapped ls ls' -> forall i n, wrapped ls (insert_at i (closer n) ls').
Proof.
  induction 1 as [|x ls ls' H IH|x ls ls' Hx H IH|m ls ls' H IH]; intros i n.
  - rewrite insert_at_nil. apply wrapped_close, wrapped_nil.
  - destruct i as [|i].
    + rewrite insert_at_0. apply wrapped_close, wrapped_keep, H.
    + rewrite insert_at_S. apply wrapped_keep, IH.
  - destruct i as [|i].
    + rewrite insert_at_0. apply wrapped_close, wrapped_open; assumption.
    + rewrite insert_at_S. apply wrapped_open; [assumption|apply IH].
  - destruct i as [|i].
    + rewrite insert_at_0. apply wrapped_close, wrapped_close, H.
    + rewrite insert_at_S. apply wrapped_close, IH.
Qed.

Lemma wrapped_insert_open ls ls' :
  wrapped ls ls' ->
  forall i y, ls' !! i = Some y -> is_case_label y = true ->
    contains_char "{" y = false ->
    wrapped ls (<[i := opened y]> ls').
Proof.
  induction 1 as [|x ls ls' H IH|x ls ls' Hx H IH|m ls ls' H IH];
    intros i y Hi Hlabel Hbrace.
  - discriminate.
  - destruct i as [|i]; simpl in *.
    + injection Hi as ->. apply wrapped_open; assumption.
    + apply wrapped_keep. eapply IH; eassumption.
  - destruct i as [|i]; simpl in *.
    + injection Hi as <-. rewrite contains_brace_opened in Hbrace. discriminate.
    + apply wrapped_open; [assumption|]. eapply IH; eassumption.
  - destruct i as [|i]; simpl in *.
    + injection Hi as <-. rewrite closer_not_case_label in Hlabel. discriminate.
    + apply wrapped_close. eapply IH; eassumption.
Qed.

Lemma step_wrapped ls st line_num st' :
  wrapped ls (lines st) -> step st line_num = Some st' ->
  wrapped ls (lines st').
Proof.
  intros Hw. rewrite step_spec.
  destruct (block_of st line_num) as [[case_idx end_idx]|] eqn:Hblock.
  - intros [= <-]. cbn [patched lines]. unfold patch_at.
    destruct (block_of_Some _ _ _ _ Hblock)
      as (Hrange & _ & _ & Hfind & Hbraced & _ & Hlt & _).
    destruct (find_case_Some _ _ _ Hfind) as (Hbelow & Hlabel & _).
    apply wrapped_insert_close.
    assert (Hsome : lines st !! case_idx = Some (lines st !!! case_idx)).
    { apply list_lookup_lookup_total_lt. lia. }
    apply (wrapped_insert_open _ _ Hw _ _ Hsome).
    + rewrite <- matches_case_re. exact Hlabel.
    + unfold braced in Hbraced. apply orb_false_iff in Hbraced as [H _]. exact H.
  - destruct (raises st line_num); [discriminate|]. intros [= <-]. exact Hw.
Qed.

Lemma run_wrapped ls line_numbers :
  forall st st', wrapped ls (lines st) -> run st line_numbers = Some st' ->
    wrapped ls (lines st').
Proof.
  induction line_numbers as [|n more IH]; intros st st' Hw; simpl.
  - intros [= <-]. exact Hw.
  - destruct (step st n) as [st1|] eqn:Hstep; [|discriminate].
    apply IH. eapply step_wrapped; eassumption.
Qed.

Lemma wrapped_elements ls ls' :
  wrapped ls ls' ->
  forall y, y ∈ ls' ->
    y ∈ ls \/ (exists x, x ∈ ls /\ is_case_label x = true /\ y = opened x)
    \/ exists n, y = closer n.
Proof.
  induction 1 as [|x ls ls' H IH|x ls ls' Hx H IH|m ls ls' H IH]; intros y Hy.
  - apply elem_of_nil in Hy. contradiction.
  - apply elem_of_cons in Hy as [->|Hy]; [left; left|].
    destruct (IH _ Hy) as [H1|[(x' & H1 & H2 & H3)|H1]].
    + left. right. exact H1.
    + right. left. exists x'. split; [right; exact H1|split; assumption].
    + right. right. exact H1.
  - apply elem_of_cons in Hy as [->|Hy].
    { right. left. exists x. split; [left|split; [assumption|reflexivity]]. }
    destruct (IH _ Hy) as [H1|[(x' & H1 & H2 & H3)|H1]].
    + left. right. exact H1.
    + right. left. exists x'. split; [right; exact H1|split; assumption].
    + right. right. exact H1.
  - apply elem_of_cons in Hy as [->|Hy]; [right; right; exists m; reflexivity|].
    apply IH, Hy.
Qed.

Lemma wrapped_sublist ls ls' :
  wrapped ls ls' ->
  filter (fun x => is_case_label x = false) ls `sublist_of` ls'.
Proof.
  induction 1 as [|x ls ls' H IH|x ls ls' Hx H IH|m ls ls' H IH].
  - constructor.
  - rewrite filter_cons. destruct (decide (is_case_label x = false)).
    + apply sublist_skip, IH.
    + apply sublist_cons, IH.
  - rewrite filter_cons. destruct (decide (is_case_label x = false)) as [Hf|_].
    + rewrite Hx in Hf. discriminate.
    + apply sublist_cons, IH.
  - apply sublist_cons, IH.
Qed.

(** X4. Whatever the targets, a run only ever does two things to the list of
    lines: it turns a case label into the same label with its brace, and it
    puts closing-brace lines in between.  So every line of the result is a
    line of the input, an opened case label of the input, or a closing line;
    and the lines that are not case labels all survive, unchanged and in
    their order. *)
Theorem run_only_opens_labels_and_inserts_closers
    (file_lines : list string) (line_numbers : list Z) (st : state) :
  patch file_lines line_numbers = Some st ->
  wrapped file_lines (lines st) /\
  (forall y, y ∈ lines st ->
     y ∈ file_lines
     \/ (exists x, x ∈ file_lines /\ is_case_label x = true /\ y = opened x)
     \/ exists n, y = closer n) /\
  filter (fun x => is_case_label x = false) file_lines `sublist_of` lines st.
Proof.
  unfold patch. intros Hrun.
  assert (Hw : wrapped file_lines (lines st)).
  { eapply run_wrapped; [|exact Hrun]. apply wrapped_refl. }
  split; [exact Hw|]. split.
  - apply wrapped_elements, Hw.
  - apply wrapped_sublist, Hw.
Qed.

(** *** Counting characters *)

Lemma count_char_append x (a b : string) :
  (count_char x (a +:+ b) = count_char x a + count_char x b)%nat.
Proof. induction a as [|c a IH]; simpl; [reflexivity|]. rewrite IH. lia. Qed.

Lemma count_char_spaces x ws :
  is_space x = false -> all_chars is_space ws = true -> count_char x ws = 0%nat.
Proof.
  intros Hx. induction ws as [|c ws IH]; simpl; [reflexivity|].
  intros H. apply andb_true_iff in H as [Hc Hws].
  destruct (Ascii.eqb_spec c x) as [->|_].
  - rewrite Hx in Hc. discriminate.
  - rewrite IH by assumption. reflexivity.
Qed.

Lemma count_char_rstrip x s :
  is_space x = false -> count_char x (rstrip s) = count_char x s.
Proof.
  intros Hx. destruct (rstrip_tail s) as (ws & Hs & Hws).
  rewrite Hs at 2. rewrite count_char_append, (count_char_spaces x ws); [lia|assumption..].
Qed.

Lemma all_chars_spaces n : all_chars is_space (spaces n) = true.
Proof. induction n; simpl; [reflexivity|assumption]. Qed.

Lemma count_char_opened x s :
  is_space x = false ->
  count_char x (opened s)
  = (count_char x s + if Ascii.eqb "{" x then 1 else 0)%nat.
Proof.
  intros Hx. unfold opened. rewrite !count_char_append, count_char_rstrip by assumption.
  assert (Hnl : count_char x nl = 0%nat).
  { apply count_char_spaces; [assumption|reflexivity]. }
  rewrite Hnl. cbn [count_char].
  destruct (Ascii.eqb_spec " " x) as [<-|_]; [discriminate|].
  destruct (Ascii.eqb "{" x); lia.
Qed.

Lemma count_char_closer x n :
  is_space x = false ->
  count_char x (closer n) = if Ascii.eqb "}" x then 1%nat else 0%nat.
Proof.
  intros Hx. unfold closer. rewrite !count_char_append.
  rewrite (count_char_spaces x (spaces _)) by (assumption || apply all_chars_spaces).
  rewrite (count_char_spaces x nl) by (assumption || reflexivity).
  cbn [count_char]. destruct (Ascii.eqb "}" x); reflexivity.
Qed.

Lemma count_char_join_insert x (l : list string) i old new :
  l !! i = Some old ->
  (count_char x (join (<[i := new]> l)) + count_char x old
   = count_char x (join l) + count_char x new)%nat.
Proof.
  revert i. induction l as [|y l IH]; intros [|i] Hi; try discriminate.
  - injection Hi as ->.
    change (<[0%nat := new]> (old :: l)) with (new :: l).
    rewrite !join_cons, !count_char_append. lia.
  - change (<[S i := new]> (y :: l)) with (y :: <[i := new]> l).
    rewrite !join_cons, !count_char_append. specialize (IH _ Hi). lia.
Qed.

Lemma count_char_join_insert_at x (l : list string) i new :
  (count_char x (join (insert_at i new l))
   = count_char x (join l) + count_char x new)%nat.
Proof.
  unfold insert_at. rewrite join_app, join_cons, !count_char_append.
  rewrite <- (take_drop i l) at 3. rewrite join_app, count_char_append. lia.
Qed.

Lemma count_char_patch_at x (l : list string) case_idx end_idx :
  is_space x = false -> (case_idx < length l)%nat ->
  count_char x (join (patch_at l case_idx end_idx))
  = (count_char x (join l) + if is_brace x then 1 else 0)%nat.
Proof.
  intros Hx Hlt. unfold patch_at.
  rewrite count_char_join_insert_at, count_char_closer by assumption.
  pose proof (count_char_join_insert x l case_idx (l !!! case_idx)
                (opened (l !!! case_idx))
                (list_lookup_lookup_total_lt _ _ Hlt)) as H.
  rewrite count_char_opened in H by assumption.
  unfold is_brace. rewrite (Ascii.eqb_sym x "{"), (Ascii.eqb_sym x "}").
  destruct (Ascii.eqb_spec "{" x) as [<-|_]; [simpl; lia|].
  destruct (Ascii.eqb "}" x); simpl; lia.
Qed.

Lemma step_count_char x st line_num st' :
  is_space x = false -> step st line_num = Some st' ->
  (count_char x (join (lines st')) + (if is_brace x then length (changes st) else 0)
   = count_char x (join (lines st)) + if is_brace x then length (changes st') else 0)%nat.
Proof.
  intros Hx. rewrite step_spec.
  destruct (block_of st line_num) as [[case_idx end_idx]|] eqn:Hblock.
  - intros [= <-]. cbn [patched lines changes].
    destruct (block_of_Some _ _ _ _ Hblock)
      as (Hrange & _ & _ & Hfind & _).
    destruct (find_case_Some _ _ _ Hfind) as (Hbelow & _).
    rewrite count_char_patch_at by (assumption || lia).
    rewrite length_app. simpl. destruct (is_brace x); lia.
  - destruct (raises st line_num); [discriminate|]. intros [= <-]. lia.
Qed.

Lemma run_count_char x line_numbers :
  is_space x = false ->
  forall st st', run st line_numbers = Some st' ->
  (count_char x (join (lines st')) + (if is_brace x then length (changes st) else 0)
   = count_char x (join (lines st)) + if is_brace x then length (changes st') else 0)%nat.
Proof.
  intros Hx. induction line_numbers as [|n more IH]; intros st st'; simpl.
  - intros [= <-]. lia.
  - destruct (step st n) as [st1|] eqn:Hstep; [|discriminate]. intros Hrun.
    pose proof (step_count_char x _ _ _ Hx Hstep).
    pose proof (IH _ _ Hrun). lia.
Qed.

(** X5. A run adds braces and white space and nothing else: in the text of
    the lines, the number of opening braces and the number of closing braces
    each grow by exactly the number of recorded changes, and the number of
    occurrences of any other character that is not white space stays as it
    was.  Braces that were balanced stay balanced. *)
Theorem run_adds_one_brace_pair_per_change
    (file_lines : list string) (line_numbers : list Z) (st : state) (x : ascii) :
  patch file_lines line_numbers = Some st ->
  is_space x = false ->
  count_char x (join (lines st))
  = (count_char x (join file_lines)
     + if is_brace x then length (changes st) else 0)%nat.
Proof.
  unfold patch. intros Hrun Hx.
  pose proof (run_count_char x _ Hx _ _ Hrun) as H.
  cbn [lines changes length] in H. destruct (is_brace x); lia.
Qed.

End CaseBlocksFrame.

(** ** The block patcher: a target without a declaration keyword *)
Section CaseBlocksKeyword.
Import CaseBlocks Props.

Lemma wrapped_lookup ls ls' :
  wrapped ls ls' ->
  forall j x, ls !! j = Some x ->
    exists j', (j <= j')%nat /\
      (ls' !! j' = Some x
       \/ (is_case_label x = true /\ ls' !! j' = Some (opened x))).
Proof.
  induction 1 as [|x0 ls ls' H IH|x0 ls ls' Hx H IH|m ls ls' H IH]; intros j x Hj.
  - discriminate.
  - destruct j as [|j]; simpl in Hj.
    + injection Hj as ->. exists 0%nat. split; [lia|]. left. reflexivity.
    + destruct (IH _ _ Hj) as (j' & Hle & Hj'). exists (S j').
      split; [lia|exact Hj'].
  - destruct j as [|j]; simpl in Hj.
    + injection Hj as ->. exists 0%nat. split; [lia|]. right.
      split; [exact Hx|reflexivity].
    + destruct (IH _ _ Hj) as (j' & Hle & Hj'). exists (S j').
      split; [lia|exact Hj'].
  - destruct (IH _ _ Hj) as (j' & Hle & Hj'). exists (S j').
    split; [lia|exact Hj'].
Qed.

(** C3. A target whose line, when its turn comes in the loop, is without
    [const], [let] or [var] as a whole word causes no mutation: its
    iteration leaves the lines, the changes and the modified-line set as
    they are, in whatever state of the loop its turn comes, so that a run
    with the target listed is the run without it; run alone on a file, such
    a target gives zero changes and no write.  The line itself can still be
    rewritten for another target, but only as the anchor of that target's
    block: in every run on every file that holds the line, the line is
    found in the result at its place or further down, as it was, or, if it
    is a case label, with its brace appended. *)
Theorem target_without_declaration_is_skipped
    (st : state) (line_num : Z) (line : string) :
  getitem (lines st) (line_num - 1) = Some line ->
  found decl_re line = false ->
  step st line_num = Some st /\
  (forall more, run st (line_num :: more) = run st more) /\
  (forall st0 earlier more,
     run st0 earlier = Some st ->
     run st0 (earlier ++ line_num :: more) = run st0 (earlier ++ more)) /\
  (forall w file_path text,
     files w !! file_path = Some text -> readlines text = lines st ->
     fix_case_block file_path [line_num] w =
       Returned 0 (emit (EvRead file_path) w)) /\
  (forall file_lines line_numbers st' j,
     patch file_lines line_numbers = Some st' ->
     file_lines !! j = Some line ->
     exists j', (j <= j')%nat /\
       (lines st' !! j' = Some line
        \/ (is_case_label line = true /\
            lines st' !! j' = Some (opened line)))).
Proof.
  intros Hline Hdecl. split; [|split; [|split; [|split]]].
  - apply (step_no_declaration _ _ _ Hline Hdecl).
  - intros more. simpl. rewrite (step_no_declaration _ _ _ Hline Hdecl). reflexivity.
  - intros st0 earlier more Hrun. rewrite !run_app, Hrun. simpl.
    rewrite (step_no_declaration _ _ _ Hline Hdecl). reflexivity.
  - intros w file_path text Hfile Hlines.
    apply (fix_case_block_single_skip _ _ _ _ Hfile).
    apply (step_no_declaration _ _ line); simpl; [rewrite Hlines|]; assumption.
  - intros file_lines line_numbers st' j Hpatch Hj.
    apply (wrapped_lookup file_lines); [|exact Hj].
    unfold patch in Hpatch.
    eapply run_wrapped; [|exact Hpatch]. apply wrapped_refl.
Qed.

End CaseBlocksKeyword.

(** ** The block patcher: where a block ends *)
Section CaseBlocksBoundary.
Import CaseBlocks Props.

Lemma find_end_first_stop indent_level rest :
  forall end_idx, exists k,
    find_end indent_level rest end_idx = (end_idx + k)%nat /\
    (k <= length rest)%nat /\
    (k = length rest
     \/ (exists line, rest !! k = Some line /\
           stops_before indent_level line = true)
     \/ (exists k' line, k = S k' /\ rest !! k' = Some line /\
           stops_after line = true)) /\
    (forall j line, (j < k)%nat -> rest !! j = Some line ->
       stops_before indent_level line = false /\
       ((S j < k)%nat -> stops_after line = false)).
Proof.
  induction rest as [|x rest IH]; intros end_idx.
  - exists 0%nat. simpl. split; [lia|]. split; [lia|]. split; [left; reflexivity|].
    intros j line Hj. lia.
  - cbn [find_end].
    destruct (bool_decide (indent_of x <= indent_level)%nat
              && matches boundary_re x) eqn:Hb.
    { exists 0%nat. repeat split; try lia.
      right. left. exists x. split; [reflexivity|exact Hb]. }
    destruct (found exit_re x) eqn:Hx.
    { exists 1%nat. split; [reflexivity|]. split; [simpl; lia|]. split.
      - right. right. exists 0%nat, x. repeat split. exact Hx.
      - intros j line Hj Hl. assert (j = 0)%nat as -> by lia.
        injection Hl as <-. split; [exact Hb|lia]. }
    destruct (IH (end_idx + 1)%nat) as (k & Hk & Hle & Hstop & Hpass).
    exists (S k). split; [rewrite Hk; lia|]. split; [simpl; lia|]. split.
    + destruct Hstop as [->|[(line & Hl & Hs)|(k' & line & -> & Hl & Hs)]].
      * left. reflexivity.
      * right. left. exists line. split; assumption.
      * right. right. exists (S k'), line. repeat split; assumption.
    + intros [|j] line Hj Hl.
      * injection Hl as <-. split; [exact Hb|]. intros _. exact Hx.
      * simpl in Hl. assert (Hjk : (j < k)%nat) by lia.
        destruct (Hpass j line Hjk Hl) as [H1 H2].
        split; [exact H1|]. intros H. apply H2. lia.
Qed.

(** X6. Where the closing line goes.  When an iteration patches the block of
    a target, the boundary index it computes is the first index after the
    target's at which scanning stops: the end of the lines, or a line that is
    a sibling label or closing brace no deeper than the anchor, or the index
    right after a line ending in [break] or [return] at any depth.  No line
    between the target and the boundary stops the scan. *)
Theorem boundary_is_the_first_stop
    (st : state) (line_num : Z) (case_idx end_idx : nat) :
  block_of st line_num = Some (case_idx, end_idx) ->
  let ls := lines st in
  let indent_level := indent_of (ls !!! case_idx) in
  let n := Z.to_nat line_num in
  step st line_num = Some (patched st line_num case_idx end_idx) /\
  (n <= end_idx <= length ls)%nat /\
  (end_idx = length ls
   \/ ((end_idx < length ls)%nat /\
       stops_before indent_level (ls !!! end_idx) = true)
   \/ ((n < end_idx)%nat /\ stops_after (ls !!! (end_idx - 1)%nat) = true)) /\
  (forall j, (n <= j < end_idx)%nat ->
     stops_before indent_level (ls !!! j) = false /\
     ((j + 1 < end_idx)%nat -> stops_after (ls !!! j) = false)).
Proof.
  intros Hblock ls indent_level n.
  split; [rewrite step_spec, Hblock; reflexivity|].
  destruct (block_of_Some _ _ _ _ Hblock)
    as (Hrange & _ & _ & _ & _ & Hend & _).
  unfold extent_of in Hend. fold ls indent_level n in Hend.
  destruct (find_end_first_stop indent_level (drop n ls) n)
    as (k & Hk & Hle & Hstop & Hpass).
  rewrite Hk in Hend. rewrite length_drop in Hle.
  assert (Hn : (n <= length ls)%nat) by (subst n ls; lia).
  subst end_idx. split; [lia|]. split.
  - destruct Hstop as [->|[(line & Hl & Hs)|(k' & line & -> & Hl & Hs)]].
    + left. rewrite length_drop. lia.
    + right. left. rewrite lookup_drop in Hl.
      split; [apply lookup_lt_Some in Hl; lia|].
      rewrite (list_lookup_total_correct _ _ _ Hl). exact Hs.
    + right. right. split; [lia|]. rewrite lookup_drop in Hl.
      replace (n + S k' - 1)%nat with (n + k')%nat by lia.
      rewrite (list_lookup_total_correct _ _ _ Hl). exact Hs.
  - intros j Hj.
    assert (Hl : drop n ls !! (j - n)%nat = Some (ls !!! j)).
    { rewrite lookup_drop. replace (n + (j - n))%nat with j by lia.
      apply list_lookup_lookup_total_lt. lia. }
    assert (Hjk : (j - n < k)%nat) by lia.
    destruct (Hpass _ _ Hjk Hl) as [H1 H2].
    split; [exact H1|]. intros H. apply H2. lia.
Qed.

(** *** Reading back what the patcher writes *)

(** X7. The newline convention is kept and the written file is the lines in
    memory: when the text of the file is empty or ends with a line
    terminator, a call that makes a change leaves every line with its
    newline, and reading the file back gives exactly the final lines. *)
Theorem rewritten_file_reads_back
    (w : world) (file_path text : string) (line_numbers : list Z) (st : state) :
  files w !! file_path = Some text ->
  ends_with_newline text = true ->
  patch (readlines text) line_numbers = Some st ->
  nonempty (changes st) = true ->
  let w' := world_of (fix_case_block file_path line_numbers w) in
  Forall (fun l => terminated l = true) (lines st) /\
  exists text', files w' !! file_path = Some text' /\
                readlines text' = lines st.
Proof.
  intros Hfile Hend Hpatch Hne w'. subst w'.
  assert (Hterm : Forall (fun l => terminated l = true) (lines st)).
  { apply (run_terminated _ _ _ Hpatch). apply readlines_terminated, Hend. }
  split; [exact Hterm|].
  rewrite (fix_case_block_patched _ _ _ _ _ Hfile Hpatch), Hne.
  exists (join (lines st)). cbn [world_of files].
  split; [apply lookup_insert_eq|apply readlines_join, Hterm].
Qed.

Lemma split_lines_shape s :
  contains_char "013" s = false -> ends_with_newline s = false ->
  exists init last, split_lines s = init ++ [last] /\
    Forall (fun l => terminated l = true) init /\ unterminated last = true.
Proof.
  induction s as [|c s IH]; [discriminate|].
  cbn [contains_char]. intros Hcr Hend.
  apply orb_false_iff in Hcr as [Hc Hcr].
  cbn [split_lines]. destruct (Ascii.eqb_spec c "010") as [->|Hn].
  - destruct s as [|d s]; [discriminate|].
    assert (Hend' : ends_with_newline (String d s) = false).
    { unfold ends_with_newline in *.
      rewrite !endswith_char_cons in Hend by discriminate. exact Hend. }
    destruct (IH Hcr Hend') as (init & last & Hs & Hinit & Hlast).
    exists (nl :: init), last. rewrite Hs. repeat split; [|exact Hlast].
    constructor; [reflexivity|exact Hinit].
  - assert (Hnn : not_newline c = true).
    { unfold not_newline. rewrite (proj2 (Ascii.eqb_neq c "010") Hn), Hc.
      reflexivity. }
    destruct s as [|d s].
    { exists [], (String c EmptyString). repeat split; [constructor|].
      cbn. rewrite Hnn. reflexivity. }
    assert (Hend' : ends_with_newline (String d s) = false).
    { unfold ends_with_newline in *.
      rewrite !endswith_char_cons in Hend by discriminate. exact Hend. }
    destruct (IH Hcr Hend') as (init & last & Hs & Hinit & Hlast).
    rewrite Hs. destruct init as [|l init].
    + exists [], (String c last). repeat split; [constructor|].
      cbn [unterminated all_chars]. rewrite Hnn.
      destruct last; [discriminate|exact Hlast].
    + exists (String c l :: init), last. repeat split; [|exact Hlast].
      inversion Hinit as [|? ? Hl Hinit']; subst.
      constructor; [|exact Hinit'].
      cbn [terminated]. destruct l; [discriminate|]. rewrite Hnn, Hl. reflexivity.
Qed.

Lemma ends_with_newline_translate s :
  ends_with_newline s = false ->
  ends_with_newline (translate_newlines s) = false.
Proof.
  induction s as [|c|c d s IHs IHd] using string_ind2.
  - discriminate.
  - cbn. destruct (Ascii.eqb_spec c "013") as [->|Hc]; [discriminate|].
    cbn. rewrite (proj2 (Ascii.eqb_neq c "013") Hc), !orb_false_r. tauto.
  - intros H.
    assert (Hd : ends_with_newline (String d s) = false).
    { unfold ends_with_newline in *.
      rewrite !endswith_char_cons in H by discriminate. exact H. }
    specialize (IHd Hd).
    assert (Htail : forall t, t <> EmptyString ->
              ends_with_newline t = false ->
              forall x, ends_with_newline (String x t) = false).
    { intros t Ht Hend x. unfold ends_with_newline in *.
      rewrite !endswith_char_cons by assumption.
      destruct t; [contradiction|exact Hend]. }
    destruct (Ascii.eqb_spec c "013") as [->|Hc].
    + destruct (Ascii.eqb_spec d "010") as [->|Hdn].
      * rewrite translate_cr_lf.
        destruct s as [|e s]; [discriminate|].
        apply Htail; [apply translate_newlines_nonempty; discriminate|].
        apply IHs. unfold ends_with_newline in *.
        rewrite !endswith_char_cons in Hd by discriminate. exact Hd.
      * rewrite translate_cr by assumption.
        apply Htail; [apply translate_newlines_nonempty; discriminate|exact IHd].
    + rewrite translate_other by assumption.
      apply Htail; [apply translate_newlines_nonempty; discriminate|exact IHd].
Qed.

Lemma readlines_shape text :
  ends_with_newline text = false ->
  exists init last, readlines text = init ++ [last] /\
    Forall (fun l => terminated l = true) init /\ unterminated last = true.
Proof.
  intros H. unfold readlines. apply split_lines_shape.
  - apply translate_newlines_no_cr.
  - apply ends_with_newline_translate, H.
Qed.

Lemma terminated_glue l c :
  unterminated l = true -> terminated c = true -> terminated (l +:+ c) = true.
Proof.
  intros Hl Hc. induction l as [|x l IH]; [discriminate|].
  cbn [unterminated all_chars] in Hl. apply andb_true_iff in Hl as [Hx Hl].
  destruct l as [|y l].
  - change (String x EmptyString +:+ c) with (String x c).
    cbn [terminated]. destruct c; [discriminate|]. rewrite Hx, Hc. reflexivity.
  - change (String x (String y l) +:+ c) with (String x (String y (l +:+ c))).
    cbn [terminated]. rewrite Hx. apply IH. exact Hl.
Qed.

Lemma insert_at_end {A} (x : A) l : insert_at (length l) x l = l ++ [x].
Proof. unfold insert_at. rewrite take_ge, drop_ge by lia. reflexivity. Qed.

(** X8. A file whose last line has no newline gets the closing brace on that
    very line.  When the block of the one target runs to the end of such a
    file, the closing line is appended after the unterminated last line, and
    the text written joins the two: read back, the file has one line fewer
    than the lines in memory, and its last line is the old last line followed
    by the indented brace. *)
Theorem closing_brace_is_glued_to_an_unterminated_last_line
    (text : string) (line_num : Z) (st : state) (c : change) :
  ends_with_newline text = false ->
  patch (readlines text) [line_num] = Some st ->
  changes st = [c] ->
  end_line c = Z.of_nat (length (readlines text)) + 1 ->
  exists init last,
    let case_idx := Z.to_nat (case_line c - 1) in
    let brace := closer (indent_of (init !!! case_idx)) in
    let init' := <[case_idx := opened (init !!! case_idx)]> init in
    readlines text = init ++ [last] /\
    unterminated last = true /\
    lines st = init' ++ [last; brace] /\
    readlines (join (lines st)) = init' ++ [last +:+ brace].
Proof.
  intros Hend Hpatch Hchanges Heof.
  destruct (readlines_shape _ Hend) as (init & last & Hls & Hinit & Hlast).
  exists init, last. cbv zeta.
  unfold patch in Hpatch. cbn [sorted foldr insert_sorted run] in Hpatch.
  destruct (step _ line_num) as [st1|] eqn:Hstep; [|discriminate].
  injection Hpatch as ->. rewrite step_spec in Hstep.
  destruct (block_of _ line_num) as [[case_idx end_idx]|] eqn:Hblock.
  2:{ destruct (raises _ line_num); [discriminate|]. injection Hstep as <-.
      discriminate. }
  injection Hstep as <-. cbn [patched changes lines app] in *.
  injection Hchanges as <-. cbn [case_line end_line] in *.
  destruct (block_of_Some _ _ _ _ Hblock)
    as (Hrange & _ & _ & Hfind & _).
  destruct (find_case_Some _ _ _ Hfind) as (Hbelow & _).
  cbn [lines] in *.
  replace (Z.to_nat (Z.of_nat case_idx + 1 - 1)) with case_idx by lia.
  assert (He : end_idx = length (readlines text)) by lia.
  rewrite Hls in *. rewrite length_app in *. simpl length in *.
  assert (Ha : (case_idx < length init)%nat) by lia.
  assert (Hanchor : (init ++ [last]) !!! case_idx = init !!! case_idx).
  { apply lookup_total_app_l. exact Ha. }
  assert (Hlines : patch_at (init ++ [last]) case_idx end_idx
                   = <[case_idx := opened (init !!! case_idx)]> init
                     ++ [last; closer (indent_of (init !!! case_idx))]).
  { unfold patch_at. rewrite Hanchor, insert_app_l by exact Ha.
    subst end_idx.
    replace (length init + 1)%nat
      with (length (<[case_idx := opened (init !!! case_idx)]> init ++ [last]))
      by (rewrite length_app, length_insert; reflexivity).
    rewrite insert_at_end, <- app_assoc. reflexivity. }
  repeat split; [exact Hlast|exact Hlines|].
  rewrite Hlines.
  assert (Hjoin : forall pre a b : string, forall l,
            join (l ++ [a; b]) = join (l ++ [a +:+ b])).
  { intros _ a b l. rewrite !join_app. f_equal.
    rewrite !join_cons. change (join []) with EmptyString.
    rewrite !append_empty_r. reflexivity. }
  rewrite (Hjoin EmptyString). apply readlines_join.
  apply Forall_app. split.
  - apply Forall_insert; [exact Hinit|]. apply terminated_opened.
    rewrite Forall_forall in Hinit. apply Hinit, list_elem_of_lookup_total_2, Ha.
  - constructor; [|constructor].
    apply terminated_glue; [exact Hlast|apply terminated_closer].
Qed.

End CaseBlocksBoundary.

(** ** The block patcher: the driver *)
Section CaseBlocksDriver.
Import CaseBlocks Props.

Lemma dom_insert_present (m : gmap string string) k v v' :
  m !! k = Some v -> dom (<[k := v']> m) = dom m.
Proof.
  intros H. rewrite dom_insert_L.
  assert (Hk : k ∈ dom m) by (apply elem_of_dom; eauto).
  apply leibniz_equiv. intros x. rewrite elem_of_union, elem_of_singleton.
  split; [intros [->|Hx]; assumption|intros Hx; right; exact Hx].
Qed.

Lemma fix_case_block_frame file_path line_numbers w :
  let o := fix_case_block file_path line_numbers w in
  dom (files (world_of o)) = dom (files w) /\
  (forall q, q <> file_path -> files (world_of o) !! q = files w !! q) /\
  trace w `prefix_of` trace (world_of o) /\
  (forall n, value_of o = Some n -> 0 <= n).
Proof.
  cbv zeta. destruct (files w !! file_path) as [text|] eqn:Hfile.
  - destruct (patch (readlines text) line_numbers) as [st|] eqn:Hpatch.
    2:{ rewrite (fix_case_block_found _ _ _ _ Hfile), Hpatch.
        cbn [world_of value_of emit files trace].
        split; [reflexivity|]. split; [reflexivity|].
        split; [apply prefix_app_r; reflexivity|discriminate]. }
    + rewrite (fix_case_block_patched _ _ _ _ _ Hfile Hpatch).
      cbn [world_of value_of files trace].
      split; [|split; [|split]].
      * destruct (nonempty (changes st)); [|reflexivity].
        eapply dom_insert_present, Hfile.
      * intros q Hq. destruct (nonempty (changes st)); [|reflexivity].
        apply lookup_insert_ne. congruence.
      * apply prefix_app_r. reflexivity.
      * intros n [= <-]. lia.
  - unfold fix_case_block. rewrite Hfile.
    cbn [world_of value_of print emit files trace].
    split; [reflexivity|]. split; [reflexivity|].
    split; [apply prefix_app_r; reflexivity|]. intros n [= <-]. lia.
Qed.

Lemma fix_all_frame
    (table : list (string * list Z)) (total_changes : Z) (w : world) :
  let o := fix_all table total_changes w in
  dom (files (world_of o)) = dom (files w) /\
  (forall q, q ∉ table.*1 -> files (world_of o) !! q = files w !! q) /\
  trace w `prefix_of` trace (world_of o) /\
  (forall t, value_of o = Some t -> total_changes <= t).
Proof.
  cbv zeta. revert total_changes w.
  induction table as [|[file_path line_numbers] more IH]; intros total w.
  - cbn. split; [reflexivity|]. split; [reflexivity|].
    split; [reflexivity|]. intros t [= <-]. lia.
  - cbn [fix_all].
    destruct (fix_case_block_frame file_path line_numbers w)
      as (Hdom & Hframe & Htrace & Hval).
    destruct (fix_case_block file_path line_numbers w) as [n w1|e w1].
    + cbn [world_of value_of] in *.
      destruct (IH (total + n) w1) as (Hdom' & Hframe' & Htrace' & Hval').
      split; [congruence|]. split; [|split].
      * intros q Hq. rewrite fmap_cons in Hq. cbn in Hq.
        rewrite Hframe', Hframe; [reflexivity| |]; intros ?; apply Hq.
        -- subst q. left.
        -- right. assumption.
      * etrans; eassumption.
      * intros t Ht. specialize (Hval' _ Ht). specialize (Hval _ eq_refl). lia.
    + cbn [world_of value_of] in *.
      split; [exact Hdom|]. split; [|split; [exact Htrace|discriminate]].
      intros q Hq. apply Hframe. intros ->. apply Hq. rewrite fmap_cons. left.
Qed.

(** X9. The driver stays within its table.  Whatever the table and the
    file system, and whether the run returns or dies, no file is created or
    removed, a file whose path is not in the table keeps its text, the
    events of the run come after those that were there, and a total that is
    returned is not below the one the loop started with. *)
Theorem driver_touches_only_listed_files
    (table : list (string * list Z)) (total_changes : Z) (w : world) :
  let o := fix_all table total_changes w in
  dom (files (world_of o)) = dom (files w) /\
  (forall q, q ∉ table.*1 -> files (world_of o) !! q = files w !! q) /\
  trace w `prefix_of` trace (world_of o) /\
  (forall t, value_of o = Some t -> total_changes <= t).
Proof. apply fix_all_frame. Qed.

Lemma events_of_no_total file_path st :
  Forall (fun e => is_total e = false) (events_of file_path st).
Proof.
  unfold events_of. constructor; [reflexivity|].
  destruct (nonempty (changes st)); [|constructor].
  constructor; [reflexivity|]. constructor; [reflexivity|].
  apply Forall_app. split.
  - apply Forall_fmap, Forall_forall. intros c _. reflexivity.
  - destruct (bool_decide _); repeat constructor.
Qed.

Lemma fix_case_block_report file_path line_numbers w :
  let o := fix_case_block file_path line_numbers w in
  exists events,
    trace (world_of o) = trace w ++ events /\
    Forall (fun e => is_total e = false) events /\
    forall n, value_of o = Some n ->
      Z.of_nat (length (writes_of events)) <= n /\
      (n = 0 <-> writes_of events = []) /\
      (n = 0 -> files (world_of o) = files w).
Proof.
  cbv zeta. destruct (files w !! file_path) as [text|] eqn:Hfile.
  - destruct (patch (readlines text) line_numbers) as [st|] eqn:Hpatch.
    + rewrite (fix_case_block_patched _ _ _ _ _ Hfile Hpatch).
      exists (events_of file_path st). cbn [world_of value_of files trace].
      split; [reflexivity|]. split; [apply events_of_no_total|].
      intros n [= <-]. rewrite writes_of_events_of.
      destruct (changes st) as [|c cs]; cbn [nonempty length].
      * split; [lia|]. split; [tauto|reflexivity].
      * split; [lia|]. split; [|lia]. split; [lia|discriminate].
    + rewrite (fix_case_block_found _ _ _ _ Hfile), Hpatch.
      exists [EvRead file_path]. cbn [world_of value_of emit files trace].
      split; [reflexivity|]. split; [repeat constructor|discriminate].
  - unfold fix_case_block. rewrite Hfile.
    exists [EvPrint (FileNotFound file_path)].
    cbn [world_of value_of print emit files trace].
    split; [reflexivity|]. split; [repeat constructor|].
    intros n [= <-]. cbn. split; [lia|]. split; [tauto|reflexivity].
Qed.

Lemma fix_all_report table :
  forall total w,
  let o := fix_all table total w in
  exists events,
    trace (world_of o) = trace w ++ events /\
    Forall (fun e => is_total e = false) events /\
    forall t, value_of o = Some t ->
      total + Z.of_nat (length (writes_of events)) <= t /\
      (t = total <-> writes_of events = []) /\
      (t = total -> files (world_of o) = files w).
Proof.
  cbv zeta. induction table as [|[file_path line_numbers] more IH]; intros total w.
  - exists []. cbn. rewrite app_nil_r. split; [reflexivity|].
    split; [constructor|]. intros t [= <-]. split; [lia|]. split; [tauto|reflexivity].
  - cbn [fix_all].
    destruct (fix_case_block_report file_path line_numbers w)
      as (ev1 & Htrace & Hno & Hval).
    destruct (fix_case_block file_path line_numbers w) as [n w1|e w1].
    + cbn [world_of value_of] in *.
      destruct (Hval n eq_refl) as (Hle & Hzero & Hfiles).
      destruct (IH (total + n) w1) as (ev2 & Htrace' & Hno' & Hval').
      exists (ev1 ++ ev2). rewrite Htrace', Htrace, <- app_assoc.
      split; [reflexivity|]. split; [apply Forall_app; split; assumption|].
      intros t Ht. destruct (Hval' t Ht) as (Hle' & Hzero' & Hfiles').
      rewrite writes_of_app, length_app.
      split; [lia|]. split; [split|].
      * intros Heq. assert (Hn : n = 0) by lia.
        rewrite (proj1 Hzero Hn). apply Hzero'. lia.
      * intros Hnil. apply app_eq_nil in Hnil as [H1 H2].
        apply Hzero in H1. apply Hzero' in H2. lia.
      * intros Heq. assert (Hn : n = 0) by lia.
        rewrite Hfiles', (Hfiles Hn); [reflexivity|lia].
    + cbn [world_of value_of] in *. exists ev1.
      split; [exact Htrace|]. split; [exact Hno|discriminate].
Qed.

(** X10. The total tells whether anything was written.  For every table
    and file system, the total that the loop over the table returns exceeds
    the total it started with by at least the number of files written, and
    equals it exactly when no file was written, the file system then being
    as it was.  The loop prints no total line, whether it returns or dies;
    [main] prints the total once, as its last line, after the loop has
    returned, and prints none when the loop dies. *)
Theorem total_is_zero_exactly_when_nothing_is_written
    (table : list (string * list Z)) (total_changes : Z) (w : world) :
  (let o := fix_all table total_changes w in
   exists events,
     trace (world_of o) = trace w ++ events /\
     Forall (fun e => is_total e = false) events /\
     forall t, value_of o = Some t ->
       total_changes + Z.of_nat (length (writes_of events)) <= t /\
       (t = total_changes <-> writes_of events = []) /\
       (t = total_changes -> files (world_of o) = files w)) /\
  (let banners :=
     [ EvPrint (Banner "Fixing case block lexical declarations");
       EvPrint (Banner "   Wrapping case bodies in braces where needed");
       EvPrint (Banner "") ] in
   match main w with
   | Returned _ w' =>
       exists events t,
         trace w' = trace w ++ banners ++ events ++ [EvPrint (TotalCaseBlocks t)] /\
         Forall (fun e => is_total e = false) events /\
         Z.of_nat (length (writes_of events)) <= t /\
         (t = 0 <-> writes_of events = []) /\
         (t = 0 -> files w' = files w)
   | Raised _ w' =>
       exists events,
         trace w' = trace w ++ banners ++ events /\
         Forall (fun e => is_total e = false) events
   end).
Proof.
  split; [apply fix_all_report|]. cbv zeta. unfold main. cbv zeta.
  set (w0 := print (Banner "") _).
  assert (Hfiles : files w0 = files w) by reflexivity.
  assert (Htrace0 : trace w0 = trace w ++
            [ EvPrint (Banner "Fixing case block lexical declarations");
              EvPrint (Banner "   Wrapping case bodies in braces where needed");
              EvPrint (Banner "") ]).
  { subst w0. cbn [print emit trace]. rewrite <- !app_assoc. reflexivity. }
  destruct (fix_all_report affected_files 0 w0) as (events & Htrace & Hno & Hval).
  destruct (fix_all affected_files 0 w0) as [t w1|e w1];
    cbn [world_of value_of] in *.
  - destruct (Hval t eq_refl) as (Hle & Hzero & Hsame).
    exists events, t. cbn [print emit trace files].
    rewrite Htrace, Htrace0, <- !app_assoc.
    split; [reflexivity|]. split; [exact Hno|]. split; [lia|].
    split; [exact Hzero|]. intros Ht. rewrite (Hsame Ht). exact Hfiles.
  - exists events. rewrite Htrace, Htrace0, <- !app_assoc.
    split; [reflexivity|exact Hno].
Qed.

End CaseBlocksDriver.

(** ** The block patcher: target numbers after an insertion *)
Section CaseBlocksDrift.
Import CaseBlocks Props.

(** X11. Target numbers are not adjusted for the closing lines that the run
    inserts.  After the block of a first target has been patched, a later
    target beyond that block is looked up in the lengthened list, so the line
    inspected for it is the one that stood one line earlier in the file; if
    that line holds no declaration keyword, the later target is passed over,
    whatever the file has on the target's own line. *)
Theorem later_target_reads_the_line_before
    (file_lines : list string) (line_num later : Z) (case_idx end_idx : nat) :
  block_of (State file_lines [] ∅) line_num = Some (case_idx, end_idx) ->
  Z.of_nat end_idx + 2 < later <= Z.of_nat (length file_lines) + 1 ->
  let st1 := patched (State file_lines [] ∅) line_num case_idx end_idx in
  getitem (lines st1) (later - 1) = file_lines !! Z.to_nat (later - 2) /\
  (found decl_re (file_lines !!! Z.to_nat (later - 2)) = false ->
   patch file_lines [line_num; later] = Some st1).
Proof.
  intros Hblock Hlater st1.
  destruct (block_of_Some _ _ _ _ Hblock)
    as (Hrange & _ & _ & Hfind & _ & _ & Hlt & Hext).
  cbn [lines] in *.
  assert (Hlook : lines st1 !! Z.to_nat (later - 1)
                  = file_lines !! Z.to_nat (later - 2)).
  { subst st1. cbn [patched lines].
    replace (Z.to_nat (later - 1)) with (S (Z.to_nat (later - 2))) by lia.
    apply patch_at_lookup_after; lia. }
  assert (Hget : getitem (lines st1) (later - 1)
                 = file_lines !! Z.to_nat (later - 2)).
  { rewrite getitem_pos by lia. exact Hlook. }
  split; [exact Hget|]. intros Hdecl.
  unfold patch. rewrite sorted_ascending.
  2:{ repeat constructor. lia. }
  cbn [run]. rewrite step_spec, Hblock. fold st1.
  rewrite step_spec.
  assert (Hnone : block_of st1 later = None).
  { unfold block_of. rewrite Hlook.
    destruct (bool_decide _ && negb _); [|reflexivity].
    destruct (file_lines !! Z.to_nat (later - 2)) as [line|] eqn:Hl;
      [|reflexivity].
    rewrite (list_lookup_total_correct _ _ _ Hl) in Hdecl.
    rewrite Hdecl. reflexivity. }
  rewrite Hnone. unfold raises.
  rewrite bool_decide_eq_false_2 by lia. reflexivity.
Qed.

End CaseBlocksDrift.

(** ** The type replacer: the substitution on the code line *)
Section TypeSubstitution.
Import NoExplicitAny Props.

Variable compile_template : string -> option (string -> string).

Lemma match_word old prev s :
  matchk (Cat Bnd (Cat (lit old) Bnd)) (fun _ rest => Some rest) prev s
  = if occurs_at old prev s then after_prefix old s else None.
Proof.
  unfold occurs_at. cbn [matchk]. destruct (boundary prev s); [|reflexivity].
  rewrite matchk_lit. destruct (after_prefix old s) as [rest|]; [|reflexivity].
  cbn [matchk andb]. destruct (boundary (last_char prev old) rest); reflexivity.
Qed.

Lemma occurs_at_prefix old prev s :
  occurs_at old prev s = true -> exists rest, after_prefix old s = Some rest.
Proof.
  unfold occurs_at. intros H. apply andb_true_iff in H as [_ H].
  destruct (after_prefix old s); [eauto|discriminate].
Qed.

Lemma last_char_append prev a b :
  last_char prev (a +:+ b) = last_char (last_char prev a) b.
Proof. revert prev. induction a as [|c a IH]; intros prev; simpl; [reflexivity|apply IH]. Qed.

Lemma search_word_Some old :
  forall s before prev b a,
    search_from (Cat Bnd (Cat (lit old) Bnd)) before prev s = Some (b, a) ->
    exists pre,
      b = before pre /\ s = pre +:+ old +:+ a /\
      occurs_at old (last_char prev pre) (old +:+ a) = true /\
      (forall pre1 rest1, pre = pre1 +:+ rest1 -> rest1 <> EmptyString ->
         occurs_at old (last_char prev pre1) (rest1 +:+ old +:+ a) = false).
Proof.
  induction s as [|c s IH]; intros before prev b a.
  - cbn [search_from]. rewrite match_word.
    destruct (occurs_at old prev EmptyString) eqn:Hocc.
    + destruct (after_prefix old EmptyString) as [rest|] eqn:Hp; [|discriminate].
      intros [= <- <-]. exists EmptyString.
      pose proof (after_prefix_Some _ _ _ Hp) as Hs.
      split; [reflexivity|]. split; [exact Hs|]. split.
      * simpl. rewrite <- Hs. exact Hocc.
      * intros [|x pre1] rest1 Hpre Hne; simpl in Hpre; [|discriminate].
        subst rest1. contradiction.
    + discriminate.
  - cbn [search_from]. rewrite match_word.
    destruct (occurs_at old prev (String c s)) eqn:Hocc.
    + destruct (after_prefix old (String c s)) as [rest|] eqn:Hp.
      2:{ destruct (occurs_at_prefix _ _ _ Hocc) as [r Hr]. congruence. }
      intros [= <- <-]. exists EmptyString.
      pose proof (after_prefix_Some _ _ _ Hp) as Hs.
      split; [reflexivity|]. split; [exact Hs|]. split.
      * simpl. rewrite <- Hs. exact Hocc.
      * intros [|x pre1] rest1 Hpre Hne; simpl in Hpre; [|discriminate].
        subst rest1. contradiction.
    + intros Hsearch. destruct (IH _ _ _ _ Hsearch) as (pre & -> & -> & Ho & Hleft).
      exists (String c pre). split; [reflexivity|]. split; [reflexivity|].
      split; [exact Ho|].
      intros [|x pre1] rest1 Hpre Hne; simpl in Hpre.
      * subst rest1. simpl. exact Hocc.
      * injection Hpre as <- ->. simpl. apply Hleft; [reflexivity|exact Hne].
Qed.

Lemma search_word_None old :
  forall s before prev,
    search_from (Cat Bnd (Cat (lit old) Bnd)) before prev s = None ->
    forall pre rest, s = pre +:+ rest ->
      occurs_at old (last_char prev pre) rest = false.
Proof.
  induction s as [|c s IH]; intros before prev; cbn [search_from];
    rewrite match_word.
  - destruct (occurs_at old prev EmptyString) eqn:Hocc.
    + destruct (occurs_at_prefix _ _ _ Hocc) as [r ->]. discriminate.
    + intros _ [|x pre] rest Hs; simpl in Hs; [|discriminate].
      subst rest. exact Hocc.
  - destruct (occurs_at old prev (String c s)) eqn:Hocc.
    + destruct (occurs_at_prefix _ _ _ Hocc) as [r ->]. discriminate.
    + intros Hsearch [|x pre] rest Hs; simpl in Hs.
      * subst rest. exact Hocc.
      * injection Hs as <- ->. simpl. eapply IH; [exact Hsearch|reflexivity].
Qed.

Lemma sub_type_plain old new line :
  contains_char "\" new = false ->
  sub_type compile_template old new line =
    match re_search (Cat Bnd (Cat (lit old) Bnd)) line with
    | None => Some line
    | Some (before, after) => Some (before +:+ new +:+ after)
    end.
Proof. intros H. unfold sub_type. rewrite H. reflexivity. Qed.

(** X12. What the substitution does to a code line, for a replacement
    without a backslash: it always gives a line; if the old type stands
    somewhere in the line as a whole word, the leftmost such occurrence and
    no other is replaced by the new type, the text before and after it kept;
    otherwise the line comes back as it is. *)
Theorem substitution_replaces_the_leftmost_whole_word
    (old_type new_type line : string) :
  contains_char "\" new_type = false ->
  exists modified_line,
    sub_type compile_template old_type new_type line = Some modified_line /\
    ((modified_line = line /\
      forall pre rest, line = pre +:+ rest ->
        occurs_at old_type (last_char None pre) rest = false)
     \/
     exists before after,
       line = before +:+ old_type +:+ after /\
       modified_line = before +:+ new_type +:+ after /\
       occurs_at old_type (last_char None before) (old_type +:+ after) = true /\
       forall pre rest, before = pre +:+ rest -> rest <> EmptyString ->
         occurs_at old_type (last_char None pre) (rest +:+ old_type +:+ after)
         = false).
Proof.
  intros Hplain. rewrite (sub_type_plain _ _ _ Hplain). unfold re_search.
  destruct (search_from _ _ None line) as [[before after]|] eqn:Hsearch.
  - eexists. split; [reflexivity|]. right.
    destruct (search_word_Some _ _ _ _ _ _ Hsearch) as (pre & -> & Hline & Ho & Hleft).
    exists pre, after. repeat split; assumption.
  - exists line. split; [reflexivity|]. left. split; [reflexivity|].
    eapply search_word_None. exact Hsearch.
Qed.

Lemma followed_by_word_false c s :
  followed_by_word c s = false ->
  forall pre rest, s = pre +:+ String c rest ->
    word_char (head_char rest) = false.
Proof.
  induction s as [|d s IH]; intros H pre rest Hs.
  - destruct pre; discriminate.
  - cbn [followed_by_word] in H. apply orb_false_iff in H as [Hd Hs'].
    destruct pre as [|x pre]; simpl in Hs.
    + injection Hs as -> ->. rewrite Ascii.eqb_refl in Hd. exact Hd.
    + injection Hs as -> ->. eapply IH; [exact Hs'|reflexivity].
Qed.

Lemma last_char_snoc prev pre c :
  last_char prev (pre +:+ String c EmptyString) = Some c.
Proof. rewrite last_char_append. reflexivity. Qed.

Lemma sub_type_unchanged old new line :
  contains_char "\" new = false ->
  (forall pre rest, line = pre +:+ rest ->
     occurs_at old (last_char None pre) rest = false) ->
  sub_type compile_template old new line = Some line.
Proof.
  intros Hplain Hnone. rewrite (sub_type_plain _ _ _ Hplain). unfold re_search.
  destruct (search_from _ _ None line) as [[before after]|] eqn:Hsearch;
    [|reflexivity].
  destruct (search_word_Some _ _ _ _ _ _ Hsearch) as (pre & _ & Hline & Ho & _).
  rewrite (Hnone pre (old +:+ after) Hline) in Ho. discriminate.
Qed.

(** X13. An old type that ends in a character that is no word character, as
    [any[]] does, is found only where a word character follows it.  On a
    code line where that closing character is never followed by a word
    character the substitution changes nothing; so the loop removes the
    disable comment above such a line, counts one change, and leaves the old
    type where it was. *)
Theorem type_ending_in_punctuation_needs_a_word_after
    (st : state) (comment_line : Z) (stem : string) (c : ascii)
    (new_type : string) :
  let old_type := stem +:+ String c EmptyString in
  let ls := lines st in
  let code_line := ls !!! Z.to_nat comment_line in
  contains_char "\" new_type = false ->
  is_word c = false ->
  1 <= comment_line < Z.of_nat (length ls) ->
  contains disable_comment (ls !!! Z.to_nat (comment_line - 1)) = true ->
  followed_by_word c code_line = false ->
  sub_type compile_template old_type new_type code_line = Some code_line /\
  step compile_template st (comment_line, (old_type, new_type))
  = inr (State (<[Z.to_nat (comment_line - 1) := EmptyString]> ls)
           (changes st + 1) (needs_tone_import st)).
Proof.
  intros old_type ls code_line Hplain Hc Hrange Hcomment Hafter.
  assert (Hsub : sub_type compile_template old_type new_type code_line
                 = Some code_line).
  { apply sub_type_unchanged; [exact Hplain|].
    intros pre rest Hline. unfold occurs_at.
    destruct (after_prefix old_type rest) as [rest2|] eqn:Hp;
      [|apply andb_false_r].
    apply after_prefix_Some in Hp. subst old_type.
    rewrite last_char_snoc.
    assert (Hw : word_char (head_char rest2) = false).
    { apply (followed_by_word_false _ _ Hafter (pre +:+ stem)).
      rewrite Hline, Hp, !append_assoc. reflexivity. }
    unfold boundary at 2. cbn [word_char]. rewrite Hc, Hw. apply andb_false_r. }
  split; [exact Hsub|].
  unfold step. fold ls.
  rewrite bool_decide_eq_false_2 by lia.
  rewrite (bool_decide_eq_true_2 (comment_line - 1 < _)) by lia. cbn [negb].
  rewrite getitem_pos by lia.
  rewrite (list_lookup_lookup_total_lt ls (Z.to_nat (comment_line - 1))) by lia.
  rewrite Hcomment. cbn [negb].
  unfold setitem at 1, index.
  rewrite (proj2 (Z.leb_le 0 (comment_line - 1))) by lia.
  rewrite (proj2 (Z.ltb_lt (comment_line - 1) _)) by lia. cbn [andb].
  rewrite length_insert.
  rewrite (bool_decide_eq_true_2 (comment_line < _)) by lia. cbn [negb].
  rewrite getitem_pos by lia.
  rewrite list_lookup_insert_ne by lia.
  rewrite (list_lookup_lookup_total_lt ls (Z.to_nat comment_line)) by lia.
  fold code_line. rewrite Hsub.
  rewrite bool_decide_eq_false_2 by (intros H; apply H; reflexivity).
  reflexivity.
Qed.

End TypeSubstitution.

(** ** The type replacer: the loop over the table of a file *)
Section EditLoop.
Import NoExplicitAny Props.

Variable compile_template : string -> option (string -> string).

Lemma setitem_pos {A} (l : list A) (i : Z) (x : A) :
  0 <= i < Z.of_nat (length l) -> setitem l i x = Some (<[Z.to_nat i := x]> l).
Proof.
  intros H. unfold setitem, index.
  rewrite (proj2 (Z.leb_le 0 i)), (proj2 (Z.ltb_lt i _)) by lia. reflexivity.
Qed.

(** The three ways an entry with a positive comment line leaves the loop
    body without an exception. *)
Lemma step_positive_cases st comment_line old_type new_type st' :
  1 <= comment_line ->
  step compile_template st (comment_line, (old_type, new_type)) = inr st' ->
  let ls := lines st in
  let comment_idx := Z.to_nat (comment_line - 1) in
  let code_idx := Z.to_nat comment_line in
  st' = st
  \/ st' = State (<[comment_idx := EmptyString]> ls) (changes st + 1)
             (needs_tone_import st)
  \/ exists modified_line,
       (code_idx < length ls)%nat /\
       sub_type compile_template old_type new_type (ls !!! code_idx)
         = Some modified_line /\
       modified_line <> ls !!! code_idx /\
       st' = State (<[code_idx := modified_line]>
                      (<[comment_idx := EmptyString]> ls))
               (changes st + 1 + 1)
               (if contains "ToneAudioNode" new_type then true
                else needs_tone_import st).
Proof.
  intros Hpos. unfold step. cbv zeta.
  destruct (bool_decide (comment_line > _)) eqn:Hout.
  { intros [= <-]. left. reflexivity. }
  apply bool_decide_eq_false_1 in Hout.
  rewrite (bool_decide_eq_true_2 (comment_line - 1 < _)) by lia. cbn [negb].
  rewrite getitem_pos by lia.
  destruct (lines st !! Z.to_nat (comment_line - 1)) as [comment|] eqn:Hc;
    [|discriminate].
  destruct (contains disable_comment comment); cbn [negb];
    [|intros [= <-]; left; reflexivity].
  rewrite setitem_pos by lia. rewrite length_insert.
  destruct (bool_decide (comment_line < _)) eqn:Hcode; cbn [negb];
    [|intros [= <-]; right; left; reflexivity].
  apply bool_decide_eq_true_1 in Hcode.
  rewrite getitem_pos by lia.
  rewrite list_lookup_insert_ne by lia.
  rewrite (list_lookup_lookup_total_lt (lines st) (Z.to_nat comment_line)) by lia.
  destruct (sub_type _ old_type new_type _) as [modified_line|] eqn:Hsub;
    [|discriminate].
  destruct (bool_decide (modified_line <> _)) eqn:Hne.
  - apply bool_decide_eq_true_1 in Hne.
    rewrite setitem_pos by (rewrite length_insert; lia).
    intros [= <-]. right. right. exists modified_line.
    split; [lia|]. split; [reflexivity|]. split; [exact Hne|reflexivity].
  - intros [= <-]. right. left. reflexivity.
Qed.

Lemma step_positive_frame st comment_line old_type new_type st' :
  1 <= comment_line ->
  step compile_template st (comment_line, (old_type, new_type)) = inr st' ->
  length (lines st') = length (lines st) /\
  changes st <= changes st' <= changes st + 2 /\
  (forall i, Z.of_nat i <> comment_line - 1 -> Z.of_nat i <> comment_line ->
     lines st' !! i = lines st !! i) /\
  (needs_tone_import st' = true ->
     needs_tone_import st = true \/ contains "ToneAudioNode" new_type = true) /\
  (needs_tone_import st = true -> needs_tone_import st' = true).
Proof.
  intros Hpos Hstep.
  destruct (step_positive_cases _ _ _ _ _ Hpos Hstep)
    as [->|[->|(m & Hlt & Hsub & Hne & ->)]]; cbn [lines changes needs_tone_import].
  - repeat split; (lia || tauto).
  - rewrite length_insert. repeat split; try (lia || tauto).
    intros i H1 H2. apply list_lookup_insert_ne. lia.
  - rewrite !length_insert. repeat split; try lia.
    + intros i H1 H2. rewrite !list_lookup_insert_ne by lia. reflexivity.
    + destruct (contains "ToneAudioNode" new_type); tauto.
    + intros ->. destruct (contains "ToneAudioNode" new_type); reflexivity.
Qed.

Lemma run_positive_frame line_map :
  Forall (fun entry => 1 <= entry.1) line_map ->
  forall st st',
  run compile_template st line_map = inr st' ->
  length (lines st') = length (lines st) /\
  changes st <= changes st' <= changes st + 2 * Z.of_nat (length line_map) /\
  (forall i,
     (forall entry, entry ∈ line_map ->
        Z.of_nat i <> entry.1 - 1 /\ Z.of_nat i <> entry.1) ->
     lines st' !! i = lines st !! i) /\
  (needs_tone_import st' = true ->
     needs_tone_import st = true
     \/ exists entry, entry ∈ line_map /\
          contains "ToneAudioNode" entry.2.2 = true) /\
  (needs_tone_import st = true -> needs_tone_import st' = true).
Proof.
  induction 1 as [|[comment_line [old_type new_type]] more Hpos _ IH];
    intros st st'; cbn [run].
  - intros [= <-]. cbn [length]. repeat split; try lia; try tauto.
  - destruct (step _ st _) as [e|st1] eqn:Hstep; [discriminate|]. intros Hrun.
    cbn [fst] in Hpos.
    destruct (step_positive_frame _ _ _ _ _ Hpos Hstep)
      as (Hlen & Hch & Hframe & Hneeds & Hkeeps).
    destruct (IH _ _ Hrun) as (Hlen' & Hch' & Hframe' & Hneeds' & Hkeeps').
    split; [congruence|]. split; [cbn [length]; lia|]. split; [|split].
    + intros i Hi. rewrite Hframe'.
      * destruct (Hi (comment_line, (old_type, new_type))) as [H1 H2]; [left|].
        apply Hframe; assumption.
      * intros entry Hin. apply Hi. right. exact Hin.
    + intros H. destruct (Hneeds' H) as [H1|(entry & Hin & He)].
      * destruct (Hneeds H1) as [H2|H2]; [left; exact H2|].
        right. exists (comment_line, (old_type, new_type)). split; [left|exact H2].
      * right. exists entry. split; [right; exact Hin|exact He].
    + intros H. apply Hkeeps', Hkeeps, H.
Qed.

(** X14. The loop over the table of a file, for comment lines numbered from
    1, is confined: it keeps the number of lines, it touches no line but the
    comment lines of the table and the lines right after them, it counts at
    most two changes for an entry and never counts down, and it asks for the
    tone import only if a replacement of the table names [ToneAudioNode]. *)
Theorem edit_loop_is_confined
    (st : state) (line_map : list (Z * (string * string))) (st' : state) :
  Forall (fun entry => 1 <= entry.1) line_map ->
  run compile_template st line_map = inr st' ->
  length (lines st') = length (lines st) /\
  changes st <= changes st' <= changes st + 2 * Z.of_nat (length line_map) /\
  (forall i,
     (forall entry, entry ∈ line_map ->
        Z.of_nat i <> entry.1 - 1 /\ Z.of_nat i <> entry.1) ->
     lines st' !! i = lines st !! i) /\
  (needs_tone_import st' = true ->
     needs_tone_import st = true
     \/ exists entry, entry ∈ line_map /\
          contains "ToneAudioNode" entry.2.2 = true).
Proof.
  intros Hpos Hrun.
  destruct (run_positive_frame _ Hpos _ _ Hrun) as (H1 & H2 & H3 & H4 & _).
  repeat split; assumption || apply H2.
Qed.

End EditLoop.

(** ** The type replacer: the tone import and the cleanup *)
Section ImportAndCleanup.
Import NoExplicitAny Props.

Lemma rstrip_append_kept a b :
  rstrip b <> EmptyString -> rstrip (a +:+ b) = a +:+ rstrip b.
Proof.
  intros Hb. induction a as [|x a IH]; [reflexivity|].
  change (String x a +:+ b) with (String x (a +:+ b)).
  cbn [rstrip]. rewrite IH.
  change (String x a +:+ rstrip b) with (String x (a +:+ rstrip b)).
  destruct (a +:+ rstrip b) eqn:Hab; [|reflexivity].
  destruct a; simpl in Hab; [contradiction|discriminate].
Qed.

Lemma rstrip_append_blank a ws :
  all_chars is_space ws = true -> rstrip (a +:+ ws) = rstrip a.
Proof.
  intros Hws.
  assert (Hblank : rstrip ws = EmptyString).
  { induction ws as [|c ws IH]; [reflexivity|].
    cbn [all_chars] in Hws. apply andb_true_iff in Hws as [Hc Hws].
    cbn [rstrip]. rewrite (IH Hws), Hc. reflexivity. }
  induction a as [|x a IH]; [exact Hblank|].
  change (String x a +:+ ws) with (String x (a +:+ ws)).
  cbn [rstrip]. rewrite IH. reflexivity.
Qed.

Lemma rstrip_solid b :
  all_chars (fun c => negb (is_space c)) b = true -> rstrip b = b.
Proof.
  induction b as [|c b IH]; [reflexivity|].
  cbn [all_chars]. intros H. apply andb_true_iff in H as [Hc Hb].
  cbn [rstrip]. rewrite (IH Hb). apply negb_true_iff in Hc. rewrite Hc.
  destruct b; reflexivity.
Qed.

Lemma rstrip_char_append_kept x a b :
  rstrip_char x b <> EmptyString ->
  rstrip_char x (a +:+ b) = a +:+ rstrip_char x b.
Proof.
  intros Hb. induction a as [|y a IH]; [reflexivity|].
  change (String y a +:+ b) with (String y (a +:+ b)).
  cbn [rstrip_char]. rewrite IH.
  change (String y a +:+ rstrip_char x b)
    with (String y (a +:+ rstrip_char x b)).
  destruct (a +:+ rstrip_char x b) eqn:Hab; [|reflexivity].
  destruct a; simpl in Hab; [contradiction|discriminate].
Qed.

Lemma rstrip_char_all x s :
  all_chars (Ascii.eqb x) s = true -> rstrip_char x s = EmptyString.
Proof.
  induction s as [|c s IH]; [reflexivity|].
  cbn [all_chars]. intros H. apply andb_true_iff in H as [Hc Hs].
  cbn [rstrip_char]. rewrite (IH Hs), Ascii.eqb_sym, Hc. reflexivity.
Qed.

Lemma endswith_char_snoc a c x :
  endswith_char (a +:+ String c EmptyString) x = Ascii.eqb c x.
Proof.
  induction a as [|y a IH]; [reflexivity|].
  change (String y a +:+ String c EmptyString)
    with (String y (a +:+ String c EmptyString)).
  cbn [endswith_char]. rewrite IH. destruct a; reflexivity.
Qed.

Lemma all_semicolons_solid semis :
  all_chars (Ascii.eqb ";") semis = true ->
  all_chars (fun c => negb (is_space c)) semis = true.
Proof.
  induction semis as [|c s IH]; [reflexivity|].
  cbn [all_chars]. intros H. apply andb_true_iff in H as [Hc Hs].
  apply Ascii.eqb_eq in Hc. subst c. rewrite (IH Hs). reflexivity.
Qed.

(** What [import_line.rstrip().rstrip(';').rstrip()] leaves of a line that
    ends, before its semicolons and white space, in the character [c]. *)
Lemma import_line_stripped body c semis ws :
  is_space c = false -> c <> ";"%char ->
  all_chars (Ascii.eqb ";") semis = true ->
  all_chars is_space ws = true ->
  rstrip (rstrip_char ";" (rstrip (body +:+ String c (semis +:+ ws))))
  = body +:+ String c EmptyString.
Proof.
  intros Hc Hsemi Hsemis Hws.
  assert (Hsolid : rstrip (String c semis) = String c semis).
  { apply rstrip_solid. cbn [all_chars]. rewrite Hc.
    apply all_semicolons_solid, Hsemis. }
  assert (H1 : rstrip (body +:+ String c (semis +:+ ws))
               = body +:+ String c semis).
  { change (String c (semis +:+ ws)) with (String c semis +:+ ws).
    rewrite <- append_assoc, rstrip_append_blank by exact Hws.
    rewrite rstrip_append_kept; rewrite Hsolid; [reflexivity|discriminate]. }
  assert (Hcut : rstrip_char ";" (String c semis) = String c EmptyString).
  { cbn [rstrip_char]. rewrite (rstrip_char_all _ _ Hsemis).
    rewrite (proj2 (Ascii.eqb_neq c ";") Hsemi). reflexivity. }
  rewrite H1, rstrip_char_append_kept; rewrite Hcut; [|discriminate].
  assert (Hlast : rstrip (String c EmptyString) = String c EmptyString).
  { cbn [rstrip]. rewrite Hc. reflexivity. }
  rewrite rstrip_append_kept; rewrite Hlast; [reflexivity|discriminate].
Qed.

(** X15. A named import from tone that ends as imports do is never
    extended.  When the line found for the tone import ends, before its
    semicolons and trailing white space, in a character other than a closing
    brace, such as the quote of [from 'tone';], the step that should add
    [ToneAudioNode] to the import changes nothing and counts nothing, unless
    the line is a star import. *)
Theorem named_tone_import_is_not_extended
    (ls : list string) (changes : Z) (tone_import_idx : nat)
    (body : string) (c : ascii) (semis ws : string) :
  find_tone_import (take 50 ls) 0 = Some (tone_import_idx, false) ->
  ls !!! tone_import_idx = body +:+ String c (semis +:+ ws) ->
  is_space c = false -> c <> ";"%char -> c <> "}"%char ->
  all_chars (Ascii.eqb ";") semis = true ->
  all_chars is_space ws = true ->
  startswith (strip (ls !!! tone_import_idx)) "import {" = true
  \/ contains "import *" (ls !!! tone_import_idx) = false ->
  add_tone_import ls changes = (ls, changes).
Proof.
  intros Hfind Hline Hc Hsemi Hbrace Hsemis Hws Hkind.
  unfold add_tone_import. rewrite Hfind.
  destruct (startswith (strip (ls !!! tone_import_idx)) "import {") eqn:Hstart.
  - rewrite Hline, (import_line_stripped _ _ _ _ Hc Hsemi Hsemis Hws).
    rewrite endswith_char_snoc, (proj2 (Ascii.eqb_neq c "}") Hbrace).
    reflexivity.
  - destruct Hkind as [H|H]; [discriminate|]. rewrite H. reflexivity.
Qed.

Lemma clean_idempotent flag ls : clean flag (clean flag ls) = clean flag ls.
Proof.
  revert flag. induction ls as [|x ls IH]; intros flag; [reflexivity|].
  cbn [clean]. destruct (is_empty x && flag) eqn:Hx.
  - apply IH.
  - cbn [clean]. rewrite Hx, IH. reflexivity.
Qed.

Lemma clean_fixed flag ls :
  (forall x, head ls = Some x -> is_empty x && flag = false) ->
  (forall i x y, ls !! i = Some x -> ls !! S i = Some y ->
     is_empty x = true -> is_empty y = false) ->
  clean flag ls = ls.
Proof.
  revert flag. induction ls as [|x ls IH]; intros flag Hhead Hpairs;
    [reflexivity|].
  cbn [clean]. rewrite (Hhead x eq_refl). f_equal. apply IH.
  - intros y Hy. destruct ls as [|y' ls]; [discriminate|].
    injection Hy as ->. destruct (is_empty x) eqn:Hx; [|apply andb_false_r].
    rewrite (Hpairs 0%nat x y eq_refl eq_refl Hx). reflexivity.
  - intros i a b Ha Hb. apply (Hpairs (S i)); assumption.
Qed.

(** X16. The cleanup before the write is idempotent, and it leaves a list of
    lines as it is exactly when no two blank lines stand next to each other
    in it: blank pairs that were in the file before the run are collapsed as
    well as those the removed comments left. *)
Theorem cleanup_is_idempotent_and_fixes_clean_lists (ls : list string) :
  clean false (clean false ls) = clean false ls /\
  (clean false ls = ls <->
   forall i x y, ls !! i = Some x -> ls !! S i = Some y ->
     is_empty x = true -> is_empty y = false).
Proof.
  split; [apply clean_idempotent|]. split.
  - intros Hfix i x y. rewrite <- Hfix. apply clean_no_blank_pair.
  - intros Hpairs. apply clean_fixed; [|exact Hpairs].
    intros x _. apply andb_false_r.
Qed.

End ImportAndCleanup.

(** ** The type replacer: the call on a file and the driver *)
Section TypeReplacerDriver.
Import NoExplicitAny Props.

Variable compile_template : string -> option (string -> string).

Lemma step_changes_mono st entry st' :
  step compile_template st entry = inr st' -> changes st <= changes st'.
Proof.
  destruct entry as [comment_line [old_type new_type]]. unfold step. cbv zeta.
  repeat match goal with
  | |- (if ?b then _ else _) = _ -> _ => destruct b
  | |- match ?x with _ => _ end = _ -> _ => destruct x
  end; intros [= <-]; cbn [changes]; lia.
Qed.

Lemma run_changes_mono line_map :
  forall st st', run compile_template st line_map = inr st' ->
    changes st <= changes st'.
Proof.
  induction line_map as [|entry more IH]; intros st st'; cbn [run].
  - intros [= <-]. lia.
  - destruct (step _ st entry) as [e|st1] eqn:Hstep; [discriminate|].
    intros Hrun. apply step_changes_mono in Hstep. apply IH in Hrun. lia.
Qed.

Lemma add_tone_import_changes ls changes :
  changes <= (add_tone_import ls changes).2 <= changes + 1.
Proof.
  unfold add_tone_import.
  repeat match goal with
  | |- context [match ?x with _ => _ end] => destruct x
  end; cbn [snd]; lia.
Qed.

Lemma edited_changes file_lines line_map ls changes :
  edited compile_template file_lines line_map = inr (ls, changes) ->
  0 <= changes.
Proof.
  unfold edited.
  destruct (run _ _ line_map) as [e|st] eqn:Hrun; [discriminate|].
  apply run_changes_mono in Hrun. cbn [NoExplicitAny.changes] in Hrun.
  destruct (needs_tone_import st).
  - pose proof (add_tone_import_changes (lines st) (NoExplicitAny.changes st)) as H.
    destruct (add_tone_import _ _) as [ls' c']. intros [= <- <-].
    cbn [snd] in H. lia.
  - intros [= <- <-]. exact Hrun.
Qed.

Lemma fix_file_effects file_path line_map w :
  let o := fix_file compile_template file_path line_map w in
  exists events,
    trace (world_of o) = trace w ++ events /\
    dom (files (world_of o)) = dom (files w) /\
    (forall q, q <> file_path -> files (world_of o) !! q = files w !! q) /\
    (files w !! file_path = None ->
     o = Returned 0 (print (FileNotFound file_path) w)) /\
    (forall n, value_of o = Some n ->
       0 <= n /\
       (n = 0 -> files (world_of o) = files w /\ writes_of events = []) /\
       (0 < n -> exists text,
          files (world_of o) = <[file_path := text]> (files w) /\
          writes_of events = [(file_path, text)])).
Proof.
  cbv zeta. unfold fix_file.
  destruct (files w !! file_path) as [text|] eqn:Hfile.
  - destruct (edited _ _ line_map) as [e|[ls changes]] eqn:Hedited.
    + exists [EvRead file_path]. cbn [world_of value_of emit files trace].
      repeat split; try reflexivity; discriminate.
    + pose proof (edited_changes _ _ _ _ Hedited) as Hpos.
      destruct (bool_decide (changes > 0)) eqn:Hch.
      * apply bool_decide_eq_true_1 in Hch.
        exists [EvRead file_path; EvWrite file_path (join (clean false ls));
                EvPrint (FileChanges file_path changes)].
        cbn [world_of value_of print emit write_lines files trace].
        split; [rewrite <- !app_assoc; reflexivity|].
        split; [eapply dom_insert_present, Hfile|].
        split; [intros q Hq; apply lookup_insert_ne; congruence|].
        split; [discriminate|].
        intros n [= <-]. split; [lia|]. split; [lia|].
        intros _. eexists. split; reflexivity.
      * apply bool_decide_eq_false_1 in Hch.
        exists [EvRead file_path]. cbn [world_of value_of emit files trace].
        repeat split; try reflexivity; try discriminate.
        -- injection H as <-. lia.
        -- injection H as <-. lia.
  - exists [EvPrint (FileNotFound file_path)].
    cbn [world_of value_of print emit files trace].
    repeat split; try reflexivity.
    + injection H as <-. lia.
    + injection H as <-. lia.
Qed.

(** X17. One call on one file.  A file that is missing is reported and
    counts as zero; otherwise the call returns the number of changes, which
    is never negative, or dies after the read alone.  The file is written
    exactly when that number is positive, once and with nothing else
    written; with zero changes the file system is left as it was.  No other
    file is touched, none created, none removed. *)
Theorem replacer_writes_exactly_when_it_counts_a_change
    (file_path : string) (line_map : list (Z * (string * string))) (w : world) :
  let o := fix_file compile_template file_path line_map w in
  exists events,
    trace (world_of o) = trace w ++ events /\
    dom (files (world_of o)) = dom (files w) /\
    (forall q, q <> file_path -> files (world_of o) !! q = files w !! q) /\
    (files w !! file_path = None ->
     o = Returned 0 (print (FileNotFound file_path) w)) /\
    (forall n, value_of o = Some n ->
       0 <= n /\
       (n = 0 -> files (world_of o) = files w /\ writes_of events = []) /\
       (0 < n -> exists text,
          files (world_of o) = <[file_path := text]> (files w) /\
          writes_of events = [(file_path, text)])).
Proof. apply fix_file_effects. Qed.

Lemma step_returns st comment_line old_type new_type :
  1 <= comment_line -> contains_char "\" new_type = false ->
  exists st', step compile_template st (comment_line, (old_type, new_type))
              = inr st'.
Proof.
  intros Hpos Hplain. unfold step. cbv zeta.
  destruct (bool_decide (comment_line > _)) eqn:Hout; [eauto|].
  apply bool_decide_eq_false_1 in Hout.
  rewrite (bool_decide_eq_true_2 (comment_line - 1 < _)) by lia. cbn [negb].
  rewrite getitem_pos by lia.
  rewrite (list_lookup_lookup_total_lt (lines st) (Z.to_nat (comment_line - 1)))
    by lia.
  destruct (contains disable_comment _); cbn [negb]; [|eauto].
  rewrite setitem_pos by lia. rewrite length_insert.
  destruct (bool_decide (comment_line < _)) eqn:Hcode; cbn [negb]; [|eauto].
  apply bool_decide_eq_true_1 in Hcode.
  rewrite getitem_pos by lia.
  rewrite list_lookup_insert_ne by lia.
  rewrite (list_lookup_lookup_total_lt (lines st) (Z.to_nat comment_line)) by lia.
  rewrite (sub_type_plain _ _ _ _ Hplain).
  destruct (re_search _ _) as [[before after]|].
  - destruct (bool_decide (_ <> _)); [|eauto].
    rewrite setitem_pos by (rewrite length_insert; lia). eauto.
  - destruct (bool_decide (_ <> _)); [|eauto].
    rewrite setitem_pos by (rewrite length_insert; lia). eauto.
Qed.

(** The tables on which the loop cannot raise: comment lines numbered from
    1, replacements without a backslash. *)
Let plain (entry : Z * (string * string)) : Prop :=
  1 <= entry.1 /\ contains_char "\" entry.2.2 = false.

Lemma run_returns line_map :
  Forall plain line_map ->
  forall st, exists st', run compile_template st line_map = inr st'.
Proof.
  induction 1 as [|[comment_line [old_type new_type]] more [Hpos Hplain] _ IH];
    intros st; cbn [run]; [eauto|].
  cbn [fst snd] in Hpos, Hplain.
  destruct (step_returns st _ old_type _ Hpos Hplain) as [st1 ->]. apply IH.
Qed.

Lemma add_tone_import_length ls changes :
  (length ls <= length (add_tone_import ls changes).1 <= length ls + 1)%nat.
Proof.
  unfold add_tone_import.
  destruct (find_tone_import (take 50 ls) 0) as [[tone_import_idx [|]]|];
    cbn [fst]; try lia.
  destruct (startswith _ "import {").
  - destruct (endswith_char _ "}"); cbn [fst]; [|lia].
    rewrite length_insert. lia.
  - destruct (contains "import *" _); cbn [fst]; [|lia].
    unfold insert_at. rewrite length_app. cbn [length].
    rewrite length_take, length_drop. lia.
Qed.

Lemma fixes_plain : Forall (fun entry => Forall plain entry.2) fixes.
Proof.
  unfold fixes, plain.
  repeat (constructor;
          [cbn [snd];
           repeat (constructor; [split; [cbn [fst]; lia|reflexivity]|]);
           constructor|]).
  constructor.
Qed.

(** X18. The edit that [fix_file] makes in memory, the loop over the line
    map and the step for the tone import, raises nothing when every comment
    line of the map is numbered from 1 and no replacement holds a backslash,
    whatever the lines and whatever the template compiler of the [re] module
    would do: it ends with the edited lines, at most one more than were
    read, and a count between zero and two for an entry plus one.  Every
    line map of the table of the script is of that kind. *)
Theorem plain_line_maps_raise_nothing :
  (forall (line_map : list (Z * (string * string))) (file_lines : list string),
     Forall (fun entry => 1 <= entry.1 /\ contains_char "\" entry.2.2 = false)
       line_map ->
     exists ls changes,
       edited compile_template file_lines line_map = inr (ls, changes) /\
       0 <= changes <= 2 * Z.of_nat (length line_map) + 1 /\
       (length file_lines <= length ls <= length file_lines + 1)%nat) /\
  Forall (fun entry =>
            Forall (fun e => 1 <= e.1 /\ contains_char "\" e.2.2 = false)
              entry.2)
    fixes.
Proof.
  split; [|exact fixes_plain].
  intros line_map file_lines Hplain. unfold edited.
  destruct (run_returns _ Hplain (State file_lines 0 false)) as [st Hrun].
  rewrite Hrun.
  assert (Hpos : Forall (fun entry : Z * (string * string) => 1 <= entry.1)
                   line_map).
  { eapply Forall_impl; [exact Hplain|]. intros entry [H _]. exact H. }
  destruct (run_positive_frame compile_template _ Hpos _ _ Hrun)
    as (Hlen & Hch & _).
  cbn [lines NoExplicitAny.changes] in Hlen, Hch.
  destruct (needs_tone_import st).
  - pose proof (add_tone_import_changes (lines st) (NoExplicitAny.changes st)) as Hc.
    pose proof (add_tone_import_length (lines st) (NoExplicitAny.changes st)) as Hl.
    destruct (add_tone_import _ _) as [ls' c']. cbn [fst snd] in Hc, Hl.
    exists ls', c'. split; [reflexivity|]. split; lia.
  - exists (lines st), (NoExplicitAny.changes st).
    split; [reflexivity|]. split; lia.
Qed.

End TypeReplacerDriver.

(** ** The block patcher: the anchor of a declaration under [default] *)
Section CaseBlocksDefault.
Import CaseBlocks Props.

Lemma default_is_no_case_label line :
  startswith (lstrip line) "default" = true -> is_case_label line = false.
Proof.
  unfold is_case_label. destruct (lstrip line) as [|b s]; [discriminate|].
  cbn [startswith]. intros H. apply andb_true_iff in H as [Hb _].
  apply Ascii.eqb_eq in Hb. subst b. reflexivity.
Qed.

(** X19. A [default] label is never an anchor.  The backward search looks
    for [case] labels only, so a declaration under [default:] is wrapped, if
    at all, from the nearest [case] label above it: the opening brace goes on
    that label, and the [default] line, unchanged, ends up inside the
    braces. *)
Theorem default_label_ends_up_inside_the_block
    (st : state) (line_num : Z) (case_idx end_idx default_idx : nat) :
  block_of st line_num = Some (case_idx, end_idx) ->
  (default_idx < Z.to_nat (line_num - 1))%nat ->
  startswith (lstrip (lines st !!! default_idx)) "default" = true ->
  (forall j, (default_idx < j < Z.to_nat (line_num - 1))%nat ->
     is_case_label (lines st !!! j) = false) ->
  let st' := patched st line_num case_idx end_idx in
  step st line_num = Some st' /\
  (case_idx < default_idx < end_idx)%nat /\
  is_case_label (lines st !!! case_idx) = true /\
  lines st' !! case_idx = Some (opened (lines st !!! case_idx)) /\
  lines st' !! default_idx = Some (lines st !!! default_idx) /\
  lines st' !! end_idx = Some (closer (indent_of (lines st !!! case_idx))).
Proof.
  intros Hblock Hd Hdefault Hbetween st'.
  destruct (block_of_Some _ _ _ _ Hblock)
    as (Hrange & _ & _ & Hfind & _ & _ & Hlt & Hext).
  destruct (find_case_Some _ _ _ Hfind) as (Hbelow & Hlabel & Hnearest).
  rewrite matches_case_re in Hlabel.
  pose proof (default_is_no_case_label _ Hdefault) as Hno.
  assert (Hcd : (case_idx < default_idx)%nat).
  { destruct (lt_eq_lt_dec case_idx default_idx) as [[H|H]|H]; [exact H| |].
    - subst default_idx. rewrite Hlabel in Hno. discriminate.
    - rewrite (Hbetween case_idx) in Hlabel by lia. discriminate. }
  split; [rewrite step_spec, Hblock; reflexivity|].
  split; [lia|]. split; [exact Hlabel|].
  subst st'. cbn [patched lines].
  split; [apply patch_at_lookup_anchor; lia|].
  split; [|apply patch_at_lookup_boundary; lia].
  rewrite patch_at_lookup_before by lia.
  apply list_lookup_lookup_total_lt. lia.
Qed.

End CaseBlocksDefault.

(** ** The further properties at concrete inputs *)
Section FurtherWitnesses.
Import CaseBlocks Props Samples.

(** C3 as the spec has it fails: a listed line without a declaration
    keyword is rewritten when it is the case label above another target.
    Line 1 of the switch of Scenario 1 holds no keyword and is listed; the
    run for the targets 1 and 2 appends the brace to it, and the call writes
    the file with the line so changed. *)
Lemma listed_line_without_keyword_is_rewritten :
  1 ∈ [1; 2] /\
  one_case !! 0%nat = Some (ln "  case 'x':") /\
  found decl_re (ln "  case 'x':") = false /\
  exists st,
    patch one_case [1; 2] = Some st /\
    lines st !! 0%nat = Some (ln "  case 'x': {") /\
    lines st !! 0%nat <> one_case !! 0%nat /\
    value_of (fix_case_block "a.ts" [1; 2] (on_disk "a.ts" one_case)) = Some 1 /\
    files (world_of (fix_case_block "a.ts" [1; 2] (on_disk "a.ts" one_case)))
      !! "a.ts" = Some (join (lines st)).
Proof.
  split; [left|]. split; [reflexivity|]. split; [vm_compute; reflexivity|].
  eexists. split; [vm_compute; reflexivity|].
  split; [reflexivity|]. split; [discriminate|].
  split; vm_compute; reflexivity.
Qed.

Lemma target_without_declaration_is_skipped_witness :
  getitem one_case (3 - 1) = Some (ln "    doSomething(y);") /\
  found decl_re (ln "    doSomething(y);") = false /\
  step (State one_case [] ∅) 3 = Some (State one_case [] ∅) /\
  fix_case_block "a.ts" [3] (on_disk "a.ts" one_case) =
    Returned 0 (emit (EvRead "a.ts") (on_disk "a.ts" one_case)) /\
  exists st' j',
    patch one_case [2; 3] = Some st' /\
    (2 <= j')%nat /\ lines st' !! j' = Some (ln "    doSomething(y);").
Proof.
  assert (H1 : getitem (lines (State one_case [] ∅)) (3 - 1)
               = Some (ln "    doSomething(y);")) by reflexivity.
  assert (H2 : found decl_re (ln "    doSomething(y);") = false)
    by (vm_compute; reflexivity).
  destruct (target_without_declaration_is_skipped _ _ _ H1 H2)
    as (Hs & _ & _ & Hf & Hrun).
  split; [exact H1|]. split; [exact H2|]. split; [exact Hs|].
  split; [apply (Hf _ _ (join one_case)); vm_compute; reflexivity|].
  destruct (patch one_case [2; 3]) as [st'|] eqn:Hpatch;
    [|vm_compute in Hpatch; discriminate].
  destruct (Hrun one_case [2; 3] st' 2%nat Hpatch eq_refl)
    as (j' & Hle & [Hkept|[Hlabel _]]).
  - exists st', j'. split; [reflexivity|]. split; [exact Hle|exact Hkept].
  - vm_compute in Hlabel. discriminate.
Defined.

Lemma targets_matter_as_a_set_witness :
  (forall n, n ∈ [3; 2; 3] <-> n ∈ [2; 3]) /\
  patch two_declarations [3; 2; 3] = patch two_declarations [2; 3].
Proof.
  assert (H : forall n : Z, n ∈ [3; 2; 3] <-> n ∈ [2; 3]).
  { intros n. rewrite !elem_of_cons, !elem_of_nil. tauto. }
  split; [exact H|].
  exact (proj1 (targets_matter_as_a_set two_declarations _ _ H)).
Defined.

Lemma changes_are_sound_and_ordered_witness :
  exists st,
    patch nested_switch [3; 6] = Some st /\
    Forall (sound_change (lines st) (modified_lines st)) (changes st) /\
    StronglySorted Z.lt (declaration_line <$> changes st).
Proof.
  destruct (patch nested_switch [3; 6]) as [st|] eqn:H;
    [|vm_compute in H; discriminate].
  exists st. split; [reflexivity|].
  destruct (changes_are_sound_and_ordered _ _ _ H) as (H1 & _ & H3 & _).
  split; [exact H1|exact H3].
Defined.

Lemma run_only_opens_labels_and_inserts_closers_witness :
  exists st,
    patch two_cases [3; 7] = Some st /\
    wrapped two_cases (lines st).
Proof.
  destruct (patch two_cases [3; 7]) as [st|] eqn:H;
    [|vm_compute in H; discriminate].
  exists st. split; [reflexivity|].
  exact (proj1 (run_only_opens_labels_and_inserts_closers _ _ _ H)).
Defined.

Lemma run_adds_one_brace_pair_per_change_witness :
  exists st,
    patch two_cases [3; 7] = Some st /\
    is_space "{" = false /\
    count_char "{" (join (lines st))
    = (count_char "{" (join two_cases) + length (changes st))%nat.
Proof.
  destruct (patch two_cases [3; 7]) as [st|] eqn:H;
    [|vm_compute in H; discriminate].
  exists st. split; [reflexivity|]. split; [reflexivity|].
  exact (run_adds_one_brace_pair_per_change _ _ _ "{" H eq_refl).
Defined.

Lemma boundary_is_the_first_stop_witness :
  block_of (State with_default [] ∅) 6 = Some (1%nat, 7%nat) /\
  stops_before (indent_of (with_default !!! 1%nat)) (with_default !!! 7%nat) = true.
Proof.
  assert (H : block_of (State with_default [] ∅) 6 = Some (1%nat, 7%nat))
    by (vm_compute; reflexivity).
  split; [exact H|].
  destruct (boundary_is_the_first_stop _ _ _ _ H) as (_ & _ & Hstop & _).
  cbn [lines] in Hstop.
  destruct Hstop as [Hend|[[_ Hbefore]|[_ Hafter]]].
  - vm_compute in Hend. discriminate.
  - exact Hbefore.
  - vm_compute in Hafter. discriminate.
Defined.

Lemma rewritten_file_reads_back_witness :
  exists st,
    files (on_disk "a.ts" one_case) !! "a.ts" = Some (join one_case) /\
    ends_with_newline (join one_case) = true /\
    patch (readlines (join one_case)) [2] = Some st /\
    nonempty (changes st) = true /\
    exists text',
      files (world_of (fix_case_block "a.ts" [2] (on_disk "a.ts" one_case)))
        !! "a.ts" = Some text' /\
      readlines text' = lines st.
Proof.
  assert (Hfile : files (on_disk "a.ts" one_case) !! "a.ts"
                  = Some (join one_case)) by (vm_compute; reflexivity).
  assert (Hend : ends_with_newline (join one_case) = true)
    by (vm_compute; reflexivity).
  destruct (patch (readlines (join one_case)) [2]) as [st|] eqn:H;
    [|vm_compute in H; discriminate].
  assert (Hne : nonempty (changes st) = true).
  { revert H. vm_compute. intros [= <-]. reflexivity. }
  exists st. split; [exact Hfile|]. split; [exact Hend|].
  split; [reflexivity|]. split; [exact Hne|].
  exact (proj2 (rewritten_file_reads_back _ _ _ _ _ Hfile Hend H Hne)).
Defined.

Lemma closing_brace_is_glued_to_an_unterminated_last_line_witness :
  exists st c,
    ends_with_newline cut_short = false /\
    patch (readlines cut_short) [2] = Some st /\
    changes st = [c] /\
    end_line c = Z.of_nat (length (readlines cut_short)) + 1 /\
    exists init last,
      readlines cut_short = init ++ [last] /\
      readlines (join (lines st))
      = <[Z.to_nat (case_line c - 1) :=
            opened (init !!! Z.to_nat (case_line c - 1))]> init
        ++ [last +:+ closer (indent_of (init !!! Z.to_nat (case_line c - 1)))].
Proof.
  assert (Hend : ends_with_newline cut_short = false)
    by (vm_compute; reflexivity).
  destruct (patch (readlines cut_short) [2]) as [st|] eqn:H;
    [|vm_compute in H; discriminate].
  assert (Hc : changes st = [Change 1 2 3]).
  { revert H. vm_compute. intros [= <-]. reflexivity. }
  assert (He : end_line (Change 1 2 3)
               = Z.of_nat (length (readlines cut_short)) + 1)
    by (vm_compute; reflexivity).
  exists st, (Change 1 2 3).
  split; [exact Hend|]. split; [reflexivity|]. split; [exact Hc|].
  split; [exact He|].
  destruct (closing_brace_is_glued_to_an_unterminated_last_line
              _ _ _ _ Hend H Hc He) as (init & last & H1 & _ & _ & H4).
  exists init, last. split; [exact H1|exact H4].
Defined.

Lemma later_target_reads_the_line_before_witness :
  block_of (State two_cases [] ∅) 3 = Some (1%nat, 4%nat) /\
  two_cases !! 6%nat = Some (ln "    const y = 2;") /\
  found decl_re (two_cases !!! Z.to_nat (7 - 2)) = false /\
  patch two_cases [3; 7] = Some (patched (State two_cases [] ∅) 3 1 4).
Proof.
  assert (H : block_of (State two_cases [] ∅) 3 = Some (1%nat, 4%nat))
    by (vm_compute; reflexivity).
  assert (Hrange : Z.of_nat 4 + 2 < 7 <= Z.of_nat (length two_cases) + 1)
    by (vm_compute; split; [reflexivity|discriminate]).
  assert (Hdecl : found decl_re (two_cases !!! Z.to_nat (7 - 2)) = false)
    by (vm_compute; reflexivity).
  split; [exact H|]. split; [reflexivity|]. split; [exact Hdecl|].
  exact (proj2 (later_target_reads_the_line_before _ _ _ _ _ H Hrange) Hdecl).
Defined.

Lemma default_label_ends_up_inside_the_block_witness :
  block_of (State with_default [] ∅) 6 = Some (1%nat, 7%nat) /\
  (1 < 4 < 7)%nat /\
  lines (patched (State with_default [] ∅) 6 1 7) !! 4%nat
  = Some (ln "  default:").
Proof.
  assert (H : block_of (State with_default [] ∅) 6 = Some (1%nat, 7%nat))
    by (vm_compute; reflexivity).
  assert (Hd : (4 < Z.to_nat (6 - 1))%nat) by (vm_compute; lia).
  assert (Hdefault : startswith (lstrip (lines (State with_default [] ∅) !!! 4%nat))
                       "default" = true) by (vm_compute; reflexivity).
  assert (Hbetween : forall j, (4 < j < Z.to_nat (6 - 1))%nat ->
            is_case_label (lines (State with_default [] ∅) !!! j) = false).
  { intros j Hj. exfalso. revert Hj. vm_compute. lia. }
  destruct (default_label_ends_up_inside_the_block _ _ _ _ _ H Hd Hdefault Hbetween)
    as (_ & Hin & _ & _ & Hkept & _).
  split; [exact H|]. split; [exact Hin|exact Hkept].
Defined.

End FurtherWitnesses.

Section ReplacerWitnesses.
Import NoExplicitAny Props Samples.

(** A template compiler that refuses every template, for the inputs below,
    none of which reaches it. *)
Let refuse : string -> option (string -> string) := fun _ => None.

Lemma substitution_replaces_the_leftmost_whole_word_witness :
  contains_char "\" "unknown" = false /\
  sub_type refuse "any" "unknown" "many: any, any"
  = Some "many: unknown, any"%string.
Proof.
  assert (H : contains_char "\" "unknown" = false) by reflexivity.
  split; [exact H|].
  destruct (substitution_replaces_the_leftmost_whole_word
              refuse "any" "unknown" "many: any, any" H)
    as (modified_line & Hsub & _).
  rewrite Hsub. revert Hsub. vm_compute. intros [= <-]. reflexivity.
Defined.

Lemma type_ending_in_punctuation_needs_a_word_after_witness :
  let st := State [ ln "  // eslint-disable-next-line @typescript-eslint/no-explicit-any";
                    ln "  private effects: any[] = [];" ] 0 false in
  followed_by_word "]" (lines st !!! 1%nat) = false /\
  step refuse st (1, ("any[]"%string, "ToneAudioNode[]"%string))
  = inr (State [ EmptyString; ln "  private effects: any[] = [];" ] 1 false).
Proof.
  intros st.
  assert (H1 : contains_char "\" "ToneAudioNode[]" = false) by reflexivity.
  assert (H2 : is_word "]" = false) by reflexivity.
  assert (H3 : 1 <= 1 < Z.of_nat (length (lines st))) by (vm_compute; split; [discriminate|reflexivity]).
  assert (H4 : contains disable_comment (lines st !!! Z.to_nat (1 - 1)) = true)
    by (vm_compute; reflexivity).
  assert (H5 : followed_by_word "]" (lines st !!! Z.to_nat 1) = false)
    by (vm_compute; reflexivity).
  split; [exact H5|].
  exact (proj2 (type_ending_in_punctuation_needs_a_word_after
                  refuse st 1 "any[" "]" "ToneAudioNode[]" H1 H2 H3 H4 H5)).
Defined.

Lemma edit_loop_is_confined_witness :
  exists st',
    Forall (fun entry : Z * (string * string) => 1 <= entry.1)
      [(4, ("any"%string, "unknown"%string))] /\
    run refuse (State any_file 0 false) [(4, ("any"%string, "unknown"%string))]
    = inr st' /\
    length (lines st') = length any_file /\
    lines st' !! 0%nat = any_file !! 0%nat.
Proof.
  assert (Hpos : Forall (fun entry : Z * (string * string) => 1 <= entry.1)
                   [(4, ("any"%string, "unknown"%string))]).
  { repeat constructor. cbn. lia. }
  destruct (run refuse (State any_file 0 false)
              [(4, ("any"%string, "unknown"%string))]) as [e|st'] eqn:H;
    [vm_compute in H; discriminate|].
  exists st'. split; [exact Hpos|]. split; [reflexivity|].
  destruct (edit_loop_is_confined refuse _ _ _ Hpos H) as (Hlen & _ & Hframe & _).
  split; [exact Hlen|]. apply Hframe.
  intros entry Hin. apply list_elem_of_singleton in Hin. subst entry. cbn. lia.
Defined.

Lemma named_tone_import_is_not_extended_witness :
  find_tone_import (take 50 any_file) 0 = Some (0%nat, false) /\
  any_file !!! 0%nat
  = ("import { Synth } from 'tone" +:+ String "'" (";" +:+ nl))%string /\
  add_tone_import any_file 1 = (any_file, 1).
Proof.
  assert (H1 : find_tone_import (take 50 any_file) 0 = Some (0%nat, false))
    by (vm_compute; reflexivity).
  assert (H2 : any_file !!! 0%nat
               = ("import { Synth } from 'tone" +:+ String "'" (";" +:+ nl))%string)
    by (vm_compute; reflexivity).
  split; [exact H1|]. split; [exact H2|].
  apply (named_tone_import_is_not_extended any_file 1 0
           "import { Synth } from 'tone" "'" ";" nl H1 H2).
  - reflexivity.
  - discriminate.
  - discriminate.
  - reflexivity.
  - reflexivity.
  - left. vm_compute. reflexivity.
Defined.

End ReplacerWitnesses.
